(** * Base-chain task farmer: the submission loop, its fee policy and its
      bounded in-flight bookkeeping

    A shallow embedding of

    - [scripts/batch_send.js]: the unattended batch sender (module [Batch]);
    - [services/ethereumService.ts]: the wallet-backed service with its
      [pendingTransactions] map (module [Service]);
    - [App.tsx], [startAutomatedSwaps]: the interactive loop that drives the
      service (module [App]).

    JavaScript values are modelled as follows.  A [bigint] is a [Z].  A
    [number] obtained from [parseInt] is an [option Z] ([None] is [NaN]).  A
    [string | undefined] is an [option string].  A [Map<string, _>] is a
    [gmap string _].  A rejected promise or a thrown exception is [Err e], a
    fulfilled one [Ok v].  Every [await] of the batch script reads its
    outcome from a record of responses of the outside world; the interactive
    loop is an event-driven machine whose events are the settlements of the
    promises it awaits. *)

From stdpp Require Import base gmap strings list.
From Stdlib Require Import ZArith Ascii Lia.
From Stdlib Require String HexadecimalString DecimalString.

Local Open Scope Z_scope.

(** ** Errors and results *)

(** A JavaScript [Error]: only its [message] is ever inspected. *)
Record Error : Type := mkError { message : string }.

Inductive Result (A : Type) : Type :=
| Ok (a : A)
| Err (e : Error).
Arguments Ok {A} a.
Arguments Err {A} e.

Definition isOk {A} (r : Result A) : bool :=
  match r with Ok _ => true | Err _ => false end.

(** ** The JavaScript built-ins the code uses *)
Module JS.

(** [v || d] for [v : string | undefined]: [undefined] and the empty
    string are falsy. *)
Definition orElse (v : option string) (d : string) : string :=
  match v with
  | Some EmptyString | None => d
  | Some s => s
  end.

(** [!v] for [v : string | undefined]. *)
Definition falsy (v : option string) : bool :=
  match v with
  | Some EmptyString | None => true
  | Some _ => false
  end.

(** [b || d] for [b : bigint | null]: [null] and [0n] are falsy. *)
Definition truthyBig (v : option Z) : option Z :=
  match v with
  | Some 0 | None => None
  | Some b => Some b
  end.

Definition lowerChar (c : ascii) : ascii :=
  let n := nat_of_ascii c in
  if ((65 <=? n) && (n <=? 90))%nat then ascii_of_nat (n + 32) else c.

(** [String.prototype.toLowerCase], on the ASCII range. *)
Fixpoint toLowerCase (s : string) : string :=
  match s with
  | EmptyString => EmptyString
  | String c s' => String (lowerChar c) (toLowerCase s')
  end.

Fixpoint startsWith (s t : string) : bool :=
  match t, s with
  | EmptyString, _ => true
  | String _ _, EmptyString => false
  | String b t', String a s' => if Ascii.eqb a b then startsWith s' t' else false
  end.

(** [s.includes(t)]: [t] occurs in [s] as a substring. *)
Fixpoint includes (s t : string) : bool :=
  startsWith s t ||
  match s with
  | EmptyString => false
  | String _ s' => includes s' t
  end.

Definition digit (c : ascii) : option Z :=
  let n := nat_of_ascii c in
  if ((48 <=? n) && (n <=? 57))%nat then Some (Z.of_nat (n - 48)) else None.

(** Value of the longest prefix of decimal digits, together with the
    number of digits read and the rest of the string. *)
Fixpoint readDigits (acc : Z) (len : nat) (s : string) : Z * nat * string :=
  match s with
  | EmptyString => (acc, len, s)
  | String c s' =>
      match digit c with
      | Some d => readDigits (acc * 10 + d) (S len) s'
      | None => (acc, len, s)
      end
  end.

Definition isSpace (c : ascii) : bool :=
  let n := nat_of_ascii c in
  ((n =? 32) || ((9 <=? n) && (n <=? 13)))%nat.

Fixpoint skipSpaces (s : string) : string :=
  match s with
  | String c s' => if isSpace c then skipSpaces s' else s
  | EmptyString => s
  end.

(** [parseInt(s, 10)]: leading blanks, an optional sign, then the longest
    run of decimal digits; [None] is [NaN].  (Doubles are exact below
    [2^53]; larger inputs are outside this model.) *)
Definition parseInt (s : string) : option Z :=
  let body sign t :=
    let '(v, len, _) := readDigits 0 0%nat t in
    if (len =? 0)%nat then None else Some (sign * v) in
  match skipSpaces s with
  | String "-" t => body (-1) t
  | String "+" t => body 1 t
  | t => body 1 t
  end.

End JS.

(** ** The part of ethers.js the code relies on *)
Module Ethers.

Definition MaxUint256 : Z := 2 ^ 256 - 1.

Fixpoint allZeros (s : string) : bool :=
  match s with
  | EmptyString => true
  | String c s' => if Ascii.eqb c "0" then allZeros s' else false
  end.

(** The first [decimals] fraction digits, padded with zeros on the right,
    as a number; [None] when a digit beyond them is not zero ("too many
    decimals") or a character is not a digit. *)
Fixpoint fraction (decimals : nat) (acc : Z) (s : string) : option Z :=
  match decimals with
  | O => if allZeros s then Some acc else None
  | S d =>
      match s with
      | EmptyString => fraction d (acc * 10) EmptyString
      | String c s' =>
          match JS.digit c with
          | Some v => fraction d (acc * 10 + v) s'
          | None => None
          end
      end
  end.

Definition parseUnsigned (decimals : nat) (s : string) : option Z :=
  let '(whole, wlen, rest) := JS.readDigits 0 0%nat s in
  match rest with
  | EmptyString =>
      if (wlen =? 0)%nat then None else Some (whole * 10 ^ Z.of_nat decimals)
  | String "." frac =>
      if ((wlen =? 0) && (String.length frac =? 0))%nat then None
      else option_map (fun f => whole * 10 ^ Z.of_nat decimals + f)
                      (fraction decimals 0 frac)
  | _ => None
  end.

(** [ethers.parseUnits(value, decimals)]: a decimal string
    [-?[0-9]*.?[0-9]*] with at least one digit, scaled by [10^decimals];
    it throws on anything else, on too many decimals and outside the
    signed 512-bit range. *)
Definition parseUnits (value : string) (decimals : nat) : Result Z :=
  let signed :=
    match value with
    | String "-" t => option_map Z.opp (parseUnsigned decimals t)
    | t => parseUnsigned decimals t
    end in
  match signed with
  | Some v =>
      if (- 2 ^ 511 <=? v) && (v <? 2 ^ 511) then Ok v
      else Err (mkError "overflow")
  | None => Err (mkError "invalid FixedNumber string value")
  end.

(** [AbiCoder.encode(['uint256'], [v])] throws unless [v] is in range. *)
Definition fitsUint256 (v : Z) : bool := (0 <=? v) && (v <=? MaxUint256).

(** Decimals of the unit names used by the code: [parseUnits(v, 'gwei')]. *)
Definition gwei : nat := 9.
(** USDC has six decimals: [parseUnits(v, 6)]. *)
Definition usdc : nat := 6.

End Ethers.

(** ** What both programs ask of the outside world *)

(** Gas and fee overrides passed to [router.execute]; an absent field is
    [undefined]. *)
Record Overrides : Type := mkOverrides {
  gasLimit : option Z;
  maxPriorityFeePerGas : option Z;
  maxFeePerGas : option Z
}.

(** [let overrides = {}] *)
Definition noOverrides : Overrides := mkOverrides None None None.

(** The calls that leave the program, in the order they are made.  The
    index of a swap is the loop variable [i]. *)
Inductive Action : Type :=
| Allowance                              (* usdc.allowance(owner, router) *)
| Approve (amount : Z)                   (* usdc.approve(router, amount) *)
| WaitApprove                            (* tx.wait() of the approval *)
| EstimateGas (i : nat)                  (* router.estimateGas.execute(...) *)
| GetBlock (i : nat)                     (* provider.getBlock('latest') *)
| GetFeeData (i : nat)                   (* provider.getFeeData() *)
| Execute (i : nat) (ov : Overrides)     (* router.execute(...): the submission *)
| WaitSwap (i : nat)                     (* tx.wait() of swap i *)
| Sleep (ms : option Z)                  (* setTimeout; a NaN delay is None *)
| LogFailed (i : nat) (e : Error).       (* the per-swap failure log line *)

Definition isApprove (a : Action) : bool :=
  match a with Approve _ => true | _ => false end.

(** The indices of the submission attempts of a trace, in order. *)
Fixpoint attempts (tr : list Action) : list nat :=
  match tr with
  | [] => []
  | Execute i _ :: tr' => i :: attempts tr'
  | _ :: tr' => attempts tr'
  end.

Definition approvals (tr : list Action) : nat :=
  length (List.filter isApprove tr).

(** * The batch sender, [scripts/batch_send.js] *)
Module Batch.

(** [process.env] *)
Abbreviation Env := (gmap string string).

Definition PRIVATE_KEY (env : Env) : option string := env !! "PRIVATE_KEY".
Definition TOTAL_SWAPS (env : Env) : option Z :=
  JS.parseInt (JS.orElse (env !! "TOTAL_SWAPS") "10").
Definition AMOUNT (env : Env) : string := JS.orElse (env !! "AMOUNT") "0.01".
Definition DELAY_MS (env : Env) : option Z :=
  JS.parseInt (JS.orElse (env !! "DELAY_MS") "15000").

Definition GAS_MODE (env : Env) : string :=
  JS.toLowerCase (JS.orElse (env !! "GAS_MODE") "").
Definition SLOW_GAS (env : Env) : bool :=
  String.eqb (JS.toLowerCase (JS.orElse (env !! "SLOW_GAS") "false")) "true"
  || String.eqb (GAS_MODE env) "slow".
Definition priorityGwei (env : Env) : string :=
  JS.orElse (env !! "PRIORITY_GWEI") "0.1".
Definition MAXFEE_ADD_GWEI (env : Env) : string :=
  JS.orElse (env !! "MAXFEE_ADD_GWEI") "1".

(** A block as far as the script reads it: [block.baseFeePerGas]. *)
Record Block : Type := mkBlock { baseFeePerGas : option Z }.

(** [provider.getFeeData()] as far as the script reads it. *)
Record FeeData : Type := mkFeeData {
  feeMaxFeePerGas : option Z;
  feeGasPrice : option Z
}.

(** The outcome of every awaited call, per loop index where the call is
    made inside the loop. *)
Record World : Type := mkWorld {
  newWallet : Result string;            (* new ethers.Wallet(key, provider) *)
  encodeError : Error;                  (* what coder.encode throws out of range *)
  allowance : Result Z;
  approve : Result string;              (* the approval's hash *)
  approveWait : Result unit;
  estimateGas : nat -> Result Z;
  getBlock : nat -> Result (option Block);
  getFeeData : nat -> Result FeeData;
  execute : nat -> Result string;       (* the swap's hash *)
  wait : nat -> Result unit
}.

(** How the script ends: [process.exit(code)], or an exception that
    nothing catches inside the async main function. *)
Inductive Outcome : Type :=
| Exit (code : Z)
| Uncaught (e : Error).

(** Lines 54-68, the body of the [try]: the allowance is compared with
    [amountInUnits * TOTAL_SWAPS]; [BigInt(NaN)] throws. *)
Definition approvalStep (amountInUnits : Z) (total : option Z) (w : World)
  : list Action * Result unit :=
  match allowance w with
  | Err e => ([Allowance], Err e)
  | Ok currentAllowance =>
      match total with
      | None => ([Allowance], Err (mkError "The number NaN cannot be converted to a BigInt"))
      | Some n =>
          if currentAllowance <? amountInUnits * n then
            match approve w with
            | Err e => ([Allowance; Approve Ethers.MaxUint256], Err e)
            | Ok _ =>
                match approveWait w with
                | Err e =>
                    ([Allowance; Approve Ethers.MaxUint256; WaitApprove], Err e)
                | Ok _ =>
                    ([Allowance; Approve Ethers.MaxUint256; WaitApprove], Ok tt)
                end
            end
          else ([Allowance], Ok tt)
      end
  end.

(** The [try] of the approval step ran to its end. *)
Definition approvalSucceeds (amountInUnits : Z) (total : option Z) (w : World)
  : bool :=
  isOk (snd (approvalStep amountInUnits total w)).

Definition FALLBACK_GAS_LIMIT : Z := 800000.

(** Lines 88-95: the estimate plus 10%, by [bigint] division (which
    truncates), or the fixed fallback when the estimate throws. *)
Definition gasLimitOf (estimated : Result Z) : Z :=
  match estimated with
  | Ok estimatedGas => Z.quot (estimatedGas * 110) 100
  | Err _ => FALLBACK_GAS_LIMIT
  end.

(** [block && block.baseFeePerGas ? BigInt(block.baseFeePerGas) : null],
    then tested by [if (baseFee)]: a missing block, a missing field and
    [0n] all lead to the fallback branch. *)
Definition baseFeeOf (block : option Block) : option Z :=
  match block with
  | Some b => JS.truthyBig (baseFeePerGas b)
  | None => None
  end.

(** Lines 98-123.  The result is the overrides after the block and the
    calls made; when anything inside the [try] throws the overrides are
    left as they were. *)
Definition slowGas (env : Env) (w : World) (i : nat) (ov : Overrides)
  : list Action * Overrides :=
  if SLOW_GAS env then
    match getBlock w i with
    | Err _ => ([GetBlock i], ov)
    | Ok block =>
        match Ethers.parseUnits (priorityGwei env) Ethers.gwei,
              Ethers.parseUnits (MAXFEE_ADD_GWEI env) Ethers.gwei with
        | Ok priority, Ok extra =>
            match baseFeeOf block with
            | Some baseFee =>
                ([GetBlock i],
                 mkOverrides (gasLimit ov) (Some priority)
                             (Some (baseFee + extra + priority)))
            | None =>
                match getFeeData w i with
                | Err _ => ([GetBlock i; GetFeeData i], ov)
                | Ok feeData =>
                    let fallbackMax :=
                      match JS.truthyBig (feeMaxFeePerGas feeData),
                            JS.truthyBig (feeGasPrice feeData) with
                      | Some m, _ => m
                      | None, Some p => p
                      | None, None => 1000000000
                      end in
                    ([GetBlock i; GetFeeData i],
                     mkOverrides (gasLimit ov) (Some priority)
                                 (Some (fallbackMax + extra + priority)))
                end
            end
        | _, _ => ([GetBlock i], ov)
        end
    end
  else ([], ov).

(** The overrides that iteration [i] passes to [router.execute]. *)
Definition overridesOf (env : Env) (w : World) (i : nat) : Overrides :=
  snd (slowGas env w i
         (mkOverrides (Some (gasLimitOf (estimateGas w i))) None None)).

(** [if (i < TOTAL_SWAPS - 1) await sleep(DELAY_MS)] *)
Definition pause (env : Env) (total : Z) (i : nat) : list Action :=
  if Z.of_nat i <? total - 1 then [Sleep (DELAY_MS env)] else [].

(** One iteration of the loop, lines 74-135.  Encoding the inputs throws
    when the amount is not a [uint256]; whatever throws inside the [try]
    is logged by the [catch], and both paths end with the same pause. *)
Definition iteration (env : Env) (amountInUnits total : Z) (w : World)
           (i : nat) : list Action :=
  if Ethers.fitsUint256 amountInUnits then
    [EstimateGas i]
    ++ fst (slowGas env w i
              (mkOverrides (Some (gasLimitOf (estimateGas w i))) None None))
    ++ [Execute i (overridesOf env w i)]
    ++ match execute w i with
       | Err e => LogFailed i e :: pause env total i
       | Ok _ =>
           match wait w i with
           | Err e => WaitSwap i :: LogFailed i e :: pause env total i
           | Ok _ => WaitSwap i :: pause env total i
           end
       end
  else LogFailed i (encodeError w) :: pause env total i.

(** [for (let i = 0; i < TOTAL_SWAPS; i++)], by the number of iterations
    that remain. *)
Fixpoint swapLoop (env : Env) (amountInUnits total : Z) (w : World)
         (remaining i : nat) : list Action :=
  match remaining with
  | O => []
  | S r =>
      iteration env amountInUnits total w i
      ++ swapLoop env amountInUnits total w r (S i)
  end.

(** The number of iterations of the loop: none for [NaN] or a
    non-positive count. *)
Definition iterations (total : option Z) : nat :=
  match total with
  | Some n => Z.to_nat n
  | None => O
  end.

(** The whole script: the trace of its calls and how it ends. *)
Definition main (env : Env) (w : World) : list Action * Outcome :=
  if JS.falsy (PRIVATE_KEY env) then ([], Exit 1)
  else
    match newWallet w with
    | Err e => ([], Uncaught e)
    | Ok _ =>
        match Ethers.parseUnits (AMOUNT env) Ethers.usdc with
        | Err e => ([], Uncaught e)
        | Ok amountInUnits =>
            match approvalStep amountInUnits (TOTAL_SWAPS env) w with
            | (tr, Err _) => (tr, Exit 1)
            | (tr, Ok _) =>
                (tr ++ swapLoop env amountInUnits
                                (default 0 (TOTAL_SWAPS env)) w
                                (iterations (TOTAL_SWAPS env)) 0,
                 Exit 0)
            end
        end
    end.

End Batch.

(** * The wallet-backed service, [services/ethereumService.ts] *)
Module Service.

(** [interface PendingTransaction]: the [promise] is named by the number of
    the swap whose tracking promise it is. *)
Record PendingTransaction : Type := mkPending { id : string; promise : nat }.

(** The fields of [EthereumService] that outlive a call.  The source
    fixes [MAX_PENDING_TRANSACTIONS = 1]; the listener list is never
    written and is left out. *)
Record t : Type := mkService {
  pendingTransactions : gmap string PendingTransaction;
  contractCache : gset string;
  MAX_PENDING_TRANSACTIONS : nat
}.

Definition create (cap : nat) : t := mkService ∅ ∅ cap.

(** The size of the map.  The handlers the source attaches here delete
    an entry once its promise has settled, which the tracking promise's
    own handlers have done by then (see [settle]). *)
Definition getPendingTransactionCount (svc : t) : nat :=
  size (pendingTransactions svc).

(** The loop condition of [waitForTransactionSlot]. *)
Definition mustWait (svc : t) : bool :=
  (MAX_PENDING_TRANSACTIONS svc <=? getPendingTransactionCount svc)%nat.

Definition getOrCreateContract (key : string) (svc : t) : t :=
  mkService (pendingTransactions svc) ({[key]} ∪ contractCache svc)
            (MAX_PENDING_TRANSACTIONS svc).

Definition cleanup (svc : t) : t :=
  mkService ∅ ∅ (MAX_PENDING_TRANSACTIONS svc).

(** [this.pendingTransactions.set(txId, { id: txId, promise })] *)
Definition track (txId : string) (p : nat) (svc : t) : t :=
  mkService (<[txId := mkPending txId p]> (pendingTransactions svc))
            (contractCache svc) (MAX_PENDING_TRANSACTIONS svc).

(** [this.pendingTransactions.delete(txId)], run by the [then] and the
    [catch] handler of the tracking promise. *)
Definition settle (txId : string) (svc : t) : t :=
  mkService (delete txId (pendingTransactions svc))
            (contractCache svc) (MAX_PENDING_TRANSACTIONS svc).

Definition usdcKey : string := "0x833589fcd6edb6e08f4c7c32d4f71b54bda02913-signer".
Definition routerKey : string := "0x26261513f42d602997386198f608d907c406311c-signer".

End Service.

(** * The interactive loop, [startAutomatedSwaps] in [App.tsx] *)
Module App.
Import Service.

(** [interface SwapConfig]; [totalSwaps] is an integer, possibly
    negative. *)
Record SwapConfig : Type := mkConfig { amountPerSwap : string; totalSwaps : Z }.

Inductive Status : Type := pending | success | error.

(** The message templates of [addLog]. *)
Inductive LogLine : Type :=
| MStarting                       (* Starting N swaps of A USDC... *)
| MChecking                       (* Checking USDC allowance... *)
| MApproved                       (* USDC approved for swapping *)
| MStoppedByUser                  (* Operation stopped by user *)
| MInitiating (i : nat)           (* [i+1/N] Initiating swap... *)
| MSent (i : nat)                 (* [i+1/N] Transaction sent *)
| MFailed (i : nat) (msg : string)(* [i+1/N] Failed: msg *)
| MRejected                       (* Transaction rejected by user. Stopping loop. *)
| MCritical (msg : string)        (* Critical error: msg *)
| MFinished                       (* All tasks finished *)
| MStopping.                      (* Stopping... waiting for current transaction to finish. *)

(** [interface TransactionLog], without the random id and the timestamp. *)
Record TransactionLog : Type := mkLog {
  status : Status;
  line : LogLine;
  hash : option string
}.

(** How the loop was left. *)
Inductive Ending : Type :=
| Exhausted        (* the loop condition became false *)
| StopRequested    (* [break] on [stopRequested.current] *)
| UserRejected     (* [break] on a rejection by the user *)
| Critical.        (* the outer [catch] *)

(** The spec's Stopped: the loop was left by a [break]. *)
Definition Stopped (how : Ending) : Prop :=
  how = StopRequested \/ how = UserRejected.

(** Where the run is suspended: the promise or timer it awaits, with the
    local [amountInUnits] where the code after the await still reads it. *)
Inductive Stage : Type :=
| Idle
| ApproveAddress (amountInUnits : Z)  (* approveUSDC: signer.getAddress() *)
| ApproveAllowance (amountInUnits : Z)
                                     (* approveUSDC: usdcContract.allowance(...) *)
| ApproveSend                        (* approveUSDC: usdcContract.approve(...) *)
| ApproveWait                        (* approveUSDC: tx.wait() *)
| SlotWait (i : nat)                 (* waitForTransactionSlot: the 200 ms timer *)
| SwapAddress (i : nat) (amountInUnits : Z)
                                     (* swapUSDCtoETH: signer.getAddress() *)
| InFlight (i : nat) (txId : string) (* the tracking promise of swap i *)
| Delay (i : nat)                    (* the 15 s timer after a sent swap *)
| Ended (how : Ending).

(** What the run draws from its surroundings without awaiting it:
    [randoms] are the values of [Math.random().toString(36).substr(2, 9)]
    in the order they are drawn, [coderError] is what [coder.encode]
    throws when the amount is not a [uint256]. *)
Record Outside : Type := mkOutside {
  randoms : nat -> string;
  coderError : Error
}.

(** The state of a connected application: [wallet.address] and the
    service's signer are set by [connect] before a run can start and
    nothing unsets them.  [trace] records the calls of the current run;
    [submitted] and [confirmed] record, for the swaps, which hashes the
    wallet has handed to the network and which of them the chain has
    included: the program reads neither. *)
Record State : Type := mkState {
  config : SwapConfig;
  outside : Outside;
  service : Service.t;
  stage : Stage;
  stopRequested : bool;
  logs : list TransactionLog;          (* newest first, as [unshift] builds it *)
  trace : list Action;                 (* oldest first *)
  drawn : nat;
  submitted : list string;
  confirmed : list string
}.

(** What the run reacts to. *)
Inductive Event : Type :=
| Start                                (* click on Start Task *)
| Stop                                 (* click on Stop Execution *)
| Unmount                              (* the effect cleanup of the component *)
| AddressSettled (r : Result string)   (* signer.getAddress() *)
| AllowanceSettled (r : Result Z)      (* usdcContract.allowance(...) *)
| ApproveSettled (r : Result string)   (* usdcContract.approve(...) *)
| ApproveMined (r : Result unit)       (* tx.wait() of the approval *)
| SlotTimer                            (* 200 ms have passed *)
| Dispatched (r : Result string)       (* router.execute(...): sent, or failed *)
| DelayTimer                           (* 15000 ms have passed *)
| Mined (h : string).                  (* the chain includes a submitted swap *)

Definition init (cap : nat) (cfg : SwapConfig) (out : Outside) : State :=
  mkState cfg out (Service.create cap) Idle false [] [] 0 [] [].

Definition setStage (st : Stage) (s : State) : State :=
  mkState (config s) (outside s) (service s) st (stopRequested s) (logs s)
          (trace s) (drawn s) (submitted s) (confirmed s).

Definition setService (svc : Service.t) (s : State) : State :=
  mkState (config s) (outside s) svc (stage s) (stopRequested s) (logs s)
          (trace s) (drawn s) (submitted s) (confirmed s).

Definition addLog (st : Status) (l : LogLine) (h : option string) (s : State)
  : State :=
  mkState (config s) (outside s) (service s) (stage s) (stopRequested s)
          (mkLog st l h :: logs s) (trace s) (drawn s) (submitted s)
          (confirmed s).

(** A call that leaves the program. *)
Definition call (a : Action) (s : State) : State :=
  mkState (config s) (outside s) (service s) (stage s) (stopRequested s)
          (logs s) (trace s ++ [a]) (drawn s) (submitted s) (confirmed s).

(** The [finally] block: the summary line, then [ethService.cleanup()]. *)
Definition finish (how : Ending) (s : State) : State :=
  let s1 := addLog pending MFinished None s in
  setStage (Ended how) (setService (Service.cleanup (service s1)) s1).

(** The outer [catch], then [finally]. *)
Definition critical (e : Error) (s : State) : State :=
  finish Critical (addLog error (MCritical (message e)) None s).

(** Line 142: the test on the lower-cased message. *)
Definition isUserRejection (e : Error) : bool :=
  JS.includes (JS.toLowerCase (message e)) "user rejected"
  || JS.includes (JS.toLowerCase (message e)) "4001".

(** The inner [catch] of iteration [i]; [next] is the rest of the loop
    from index [i + 1]. *)
Definition catchSwap (next : State -> State) (i : nat) (e : Error) (s : State)
  : State :=
  let s1 := addLog error (MFailed i (message e)) None s in
  if isUserRejection e
  then finish UserRejected (addLog error MRejected None s1)
  else next s1.

(** [swapUSDCtoETH] for iteration [i], from the test of
    [waitForTransactionSlot] (at its entry, or again when the 200 ms timer
    fires) up to [await signer.getAddress()]: while the count has reached
    the capacity the timer is set again; afterwards the amount is parsed
    and the address requested.  An exception goes to the [catch] of the
    loop, whose continuation is [next]. *)
Definition swapUSDCtoETH (next : State -> State) (i : nat) (s : State)
  : State :=
  if Service.mustWait (service s)
  then setStage (SlotWait i) (call (Sleep (Some 200)) s)
  else
    match Ethers.parseUnits (amountPerSwap (config s)) Ethers.usdc with
    | Err e => catchSwap next i e s
    | Ok amountInUnits => setStage (SwapAddress i amountInUnits) s
    end.

(** The loop from its head at index [i], with [remaining] iterations to
    go, up to the next suspension. *)
Fixpoint loopFrom (remaining i : nat) (s : State) : State :=
  match remaining with
  | O => finish Exhausted s
  | S r =>
      if stopRequested s
      then finish StopRequested (addLog error MStoppedByUser None s)
      else swapUSDCtoETH (loopFrom r (S i)) i
             (addLog pending (MInitiating i) None s)
  end.

(** [for (let i = ...; i < config.totalSwaps; i++)] entered at index [i]. *)
Definition loopHead (i : nat) (s : State) : State :=
  loopFrom (Z.to_nat (totalSwaps (config s) - Z.of_nat i)) i s.

(** [startAutomatedSwaps] up to the first await inside [approveUSDC]. *)
Definition start (s : State) : State :=
  let s0 := mkState (config s) (outside s) (service s) (stage s) false [] []
                    (drawn s) (submitted s) (confirmed s) in
  let s1 := addLog pending MChecking None (addLog pending MStarting None s0) in
  let s2 := setService (Service.getOrCreateContract Service.usdcKey (service s1)) s1 in
  match Ethers.parseUnits (amountPerSwap (config s)) Ethers.usdc with
  | Err e => critical e s2
  | Ok amountInUnits => setStage (ApproveAddress amountInUnits) s2
  end.

(** [approveUSDC] has returned: the success line, then the loop. *)
Definition approved (s : State) : State :=
  loopHead 0 (addLog success MApproved None s).

(** The rest of [swapUSDCtoETH] once the inputs are encoded: the call to
    [router.execute], a fresh [txId], and the entry in the map. *)
Definition dispatch (i : nat) (s : State) : State :=
  let txId := randoms (outside s) (drawn s) in
  let s1 := setService (Service.getOrCreateContract Service.routerKey (service s)) s in
  let s2 := call (Execute i noOverrides) s1 in
  mkState (config s2) (outside s2) (Service.track txId i (service s2))
          (InFlight i txId) (stopRequested s2) (logs s2) (trace s2)
          (S (drawn s2)) (submitted s2) (confirmed s2).

Definition requestStop (s : State) : State :=
  mkState (config s) (outside s) (service s) (stage s) true (logs s)
          (trace s) (drawn s) (submitted s) (confirmed s).

Definition submit (h : string) (s : State) : State :=
  mkState (config s) (outside s) (service s) (stage s) (stopRequested s)
          (logs s) (trace s) (drawn s) (h :: submitted s) (confirmed s).

Definition confirm (h : string) (s : State) : State :=
  mkState (config s) (outside s) (service s) (stage s) (stopRequested s)
          (logs s) (trace s) (drawn s) (submitted s) (h :: confirmed s).

Definition running (st : Stage) : bool :=
  match st with
  | Idle | Ended _ => false
  | _ => true
  end.

(** One reaction: the code that runs from the event up to the next
    suspension.  [None]: the event cannot occur in this stage.  The form
    offers Start only while no run is in progress and Stop only while one
    is, so there is one run at a time and each call of [swapUSDCtoETH] is
    awaited before the next one is made. *)
Definition step (s : State) (ev : Event) : option State :=
  match ev, stage s with
  | Start, (Idle | Ended _) => Some (start s)
  | Stop, st =>
      if running st
      then Some (addLog pending MStopping None (requestStop s))
      else None
  | Unmount, _ => Some (setService (Service.cleanup (service s)) s)
  | Mined h, _ =>
      if bool_decide (h ∈ submitted s) then Some (confirm h s) else None
  | AddressSettled r, ApproveAddress amountInUnits =>
      match r with
      | Err e => Some (critical e s)
      | Ok _ =>
          Some (setStage (ApproveAllowance amountInUnits) (call Allowance s))
      end
  | AllowanceSettled r, ApproveAllowance amountInUnits =>
      match r with
      | Err e => Some (critical e s)
      | Ok allowance =>
          if amountInUnits <=? allowance then Some (approved s)
          else Some (setStage ApproveSend (call (Approve Ethers.MaxUint256) s))
      end
  | ApproveSettled r, ApproveSend =>
      match r with
      | Err e => Some (critical e s)
      | Ok _ => Some (setStage ApproveWait (call WaitApprove s))
      end
  | ApproveMined r, ApproveWait =>
      match r with
      | Err e => Some (critical e s)
      | Ok _ => Some (approved s)
      end
  | SlotTimer, SlotWait i =>
      Some (swapUSDCtoETH (loopHead (S i)) i s)
  | AddressSettled r, SwapAddress i amountInUnits =>
      match r with
      | Err e => Some (catchSwap (loopHead (S i)) i e s)
      | Ok _ =>
          if Ethers.fitsUint256 amountInUnits then Some (dispatch i s)
          else Some (catchSwap (loopHead (S i)) i (coderError (outside s)) s)
      end
  | Dispatched r, InFlight i txId =>
      let s1 := setService (Service.settle txId (service s)) s in
      match r with
      | Err e => Some (catchSwap (loopHead (S i)) i e s1)
      | Ok h =>
          Some (setStage (Delay i)
                  (call (Sleep (Some 15000))
                     (addLog success (MSent i) (Some h) (submit h s1))))
      end
  | DelayTimer, Delay i => Some (loopHead (S i) s)
  | _, _ => None
  end.

(** A history of events, each enabled when it occurs. *)
Fixpoint run (s : State) (evs : list Event) : option State :=
  match evs with
  | [] => Some s
  | ev :: evs' =>
      match step s ev with
      | Some s' => run s' evs'
      | None => None
      end
  end.

(** ** What holds of every state a history can reach *)

Definition pendingOf (s : State) : gmap string PendingTransaction :=
  pendingTransactions (service s).

Definition capacity (s : State) : nat :=
  MAX_PENDING_TRANSACTIONS (service s).

Definition reachable (cap : nat) (cfg : SwapConfig) (out : Outside)
           (s : State) : Prop :=
  exists evs, run (init cap cfg out) evs = Some s.

Definition isFailedLine (t : TransactionLog) : bool :=
  match line t with MFailed _ _ => true | _ => false end.

Definition isApprovedLine (t : TransactionLog) : bool :=
  match line t with MApproved => true | _ => false end.

(** The log of the run has a "[i/N] Failed: ..." line: some call of
    [swapUSDCtoETH] was rejected. *)
Definition failedLogged (s : State) : bool := existsb isFailedLine (logs s).

(** The log of the run has the line "USDC approved for swapping":
    [approveUSDC] returned. *)
Definition approvedLogged (s : State) : bool := existsb isApprovedLine (logs s).

(** The number of iterations of the loop. *)
Definition count (s : State) : nat := Z.to_nat (totalSwaps (config s)).

(** The call [swapUSDCtoETH] of index [i] is rejected with [e] by the
    event [ev]: the dispatch fails, the address request fails, or the
    address arrives and the amount cannot be encoded. *)
Definition failsAt (s : State) (i : nat) (ev : Event) (e : Error) : Prop :=
  (exists txId, stage s = InFlight i txId /\ ev = Dispatched (Err e)) \/
  (exists a, stage s = SwapAddress i a /\ ev = AddressSettled (Err e)) \/
  (exists a r, stage s = SwapAddress i a /\ ev = AddressSettled (Ok r) /\
               Ethers.fitsUint256 a = false /\ e = coderError (outside s)).

(** What a reaction leaves alone. *)
Definition Frame (s s' : State) : Prop :=
  config s' = config s /\ outside s' = outside s /\
  capacity s' = capacity s /\
  (forall j, In (WaitSwap j) (trace s') -> In (WaitSwap j) (trace s)).

(** The amount held by a suspended call is the parsed configuration. *)
Definition AmountInv (s : State) : Prop :=
  match stage s with
  | Idle | Ended _ => True
  | ApproveAddress a | ApproveAllowance a | SwapAddress _ a =>
      Ethers.parseUnits (amountPerSwap (config s)) Ethers.usdc = Ok a
  | _ => exists a, Ethers.parseUnits (amountPerSwap (config s)) Ethers.usdc = Ok a
  end.

(** The loop head neither approves nor submits, and it only adds lines. *)
Definition Grows (s s' : State) : Prop :=
  approvals (trace s') = approvals (trace s) /\
  attempts (trace s') = attempts (trace s) /\
  exists l, logs s' = l ++ logs s.

Definition parsed (s : State) : Prop :=
  exists a, Ethers.parseUnits (amountPerSwap (config s)) Ethers.usdc = Ok a.

(** The entries the map may hold, stage by stage. *)
Definition SlotInv (s : State) : Prop :=
  match stage s with
  | InFlight _ txId => dom (pendingOf s) ⊆ {[txId]} /\ (0 < capacity s)%nat
  | SwapAddress _ _ => pendingOf s = ∅ /\ (0 < capacity s)%nat
  | _ => pendingOf s = ∅
  end.

(** What the trace and the log hold when the loop is entered at [i]. *)
Definition LoopPre (i : nat) (s : State) : Prop :=
  (approvals (trace s) <= 1)%nat /\
  approvedLogged s = true /\
  (i <= count s)%nat /\
  Forall (fun j => (j < i)%nat) (attempts (trace s)) /\
  (failedLogged s = false -> attempts (trace s) = seq 0 i).

(** What the trace and the log hold, stage by stage. *)
Definition RunInv (s : State) : Prop :=
  match stage s with
  | Idle => trace s = []
  | ApproveAddress _ | ApproveAllowance _ =>
      approvals (trace s) = 0%nat /\ attempts (trace s) = [] /\
      approvedLogged s = false
  | ApproveSend | ApproveWait =>
      approvals (trace s) = 1%nat /\ attempts (trace s) = [] /\
      approvedLogged s = false
  | SlotWait i | SwapAddress i _ =>
      (i < count s)%nat /\ LoopPre i s
  | InFlight i _ | Delay i =>
      (i < count s)%nat /\ LoopPre (S i) s
  | Ended how =>
      (approvals (trace s) <= 1)%nat /\
      match how with
      | Exhausted =>
          approvedLogged s = true /\
          (failedLogged s = false -> attempts (trace s) = seq 0 (count s))
      | StopRequested => approvedLogged s = true /\ stopRequested s = true
      | UserRejected => approvedLogged s = true /\ failedLogged s = true
      | Critical => approvedLogged s = false /\ attempts (trace s) = []
      end
  end.

(** Everything above, for a machine started from [init cap cfg out]. *)
Record Inv (cap : nat) (cfg : SwapConfig) (out : Outside) (s : State)
  : Prop := mkInv {
  inv_config : config s = cfg;
  inv_outside : outside s = out;
  inv_capacity : capacity s = cap;
  inv_nowait : forall j, ~ In (WaitSwap j) (trace s);
  inv_amount : AmountInv s;
  inv_slot : SlotInv s;
  inv_run : RunInv s
}.

(** ** Two sentences of the specification, as they are written *)

(** "An entry is removed only when the outcome of its transaction,
    confirmed on-chain or failed, is known": whenever a reaction removes
    an entry, either the dispatch has failed or the hash it returned is
    among the confirmed ones. *)
Definition RemovedOnlyOnOutcome (s0 : State) : Prop :=
  forall evs s ev s' txId,
    run s0 evs = Some s -> step s ev = Some s' ->
    txId ∈ dom (pendingOf s) -> txId ∉ dom (pendingOf s') ->
    (exists e, ev = Dispatched (Err e)) \/
    (exists h, ev = Dispatched (Ok h) /\ h ∈ confirmed s').

(** "With [totalSwaps = N], no failed swap dispatch and no stop request,
    exactly [N] submissions are attempted and the pending set is empty at
    the end of the run." *)
Definition AllSwapsAttempted (s0 : State) (N : nat) : Prop :=
  forall evs s how,
    run s0 evs = Some s -> stage s = Ended how ->
    failedLogged s = false -> stopRequested s = false ->
    attempts (trace s) = seq 0 N /\ pendingOf s = ∅.

(** The history in which every awaited call succeeds: the allowance is
    [allowance], swap [i] is sent with hash [hashes i]. *)
Fixpoint happySwaps (hashes : nat -> string) (n i : nat) : list Event :=
  match n with
  | O => []
  | S n' =>
      AddressSettled (Ok "0xowner") :: Dispatched (Ok (hashes i))
        :: DelayTimer :: happySwaps hashes n' (S i)
  end.

Definition happyRun (allowance : Z) (hashes : nat -> string) (N : nat)
  : list Event :=
  Start :: AddressSettled (Ok "0xowner") :: AllowanceSettled (Ok allowance)
    :: happySwaps hashes N 0.

End App.

(** * Concrete inputs used by the examples below *)
Module Sample.

(** The interactive form as it is first shown, with two swaps. *)
Definition config : App.SwapConfig := App.mkConfig "0.01" 2.

Definition outside : App.Outside :=
  App.mkOutside (fun n => match n with O => "k3j9x0q2a" | _ => "p7m1c4z8w" end)
                (mkError "value out-of-bounds").

Definition hashes (i : nat) : string :=
  match i with O => "0xaa01" | _ => "0xbb02" end.

(** The service as the source builds it, with capacity 1. *)
Definition initial : App.State := App.init 1 config outside.

(** The first [n] events of the run in which everything succeeds, with
    an allowance of exactly one swap (10000 units). *)
Definition history (n : nat) : list App.Event :=
  firstn n (App.happyRun 10000 hashes 2).

(** The state a history leads to. *)
Definition after (evs : list App.Event) : App.State :=
  default initial (App.run initial evs).

(** Swap 0 has been handed to the wallet. *)
Definition inFlight : App.State := after (history 4).

(** The wallet has sent swap 0. *)
Definition sent : App.State := after (history 5).

Definition rejected : Error :=
  mkError "MetaMask Tx Signature: User denied transaction signature. user rejected action (code 4001)".

Definition refused : Error := mkError "insufficient funds for gas".

(** A batch environment: three swaps in slow gas mode, everything else
    by default. *)
Definition env : Batch.Env :=
  {[ "PRIVATE_KEY" := "0x01"; "TOTAL_SWAPS" := "3"; "GAS_MODE" := "slow" ]}.

(** A chain with a base fee of 10 gwei on which the allowance is zero,
    the estimate is 150001 gas, and the second swap is refused. *)
Definition world : Batch.World :=
  Batch.mkWorld (Ok "0xowner") (mkError "value out-of-bounds")
    (Ok 0) (Ok "0xapprove") (Ok tt)
    (fun _ => Ok 150001)
    (fun _ => Ok (Some (Batch.mkBlock (Some 10000000000))))
    (fun _ => Err (mkError "fee data unavailable"))
    (fun i => if (i =? 1)%nat then Err (mkError "nonce too low") else Ok "0xswap")
    (fun _ => Ok tt).

(** The same chain when the estimate fails. *)
Definition worldNoEstimate : Batch.World :=
  Batch.mkWorld (Ok "0xowner") (mkError "value out-of-bounds")
    (Ok 0) (Ok "0xapprove") (Ok tt)
    (fun _ => Err (mkError "execution reverted"))
    (fun _ => Ok (Some (Batch.mkBlock (Some 10000000000))))
    (fun _ => Err (mkError "fee data unavailable"))
    (fun _ => Ok "0xswap")
    (fun _ => Ok tt).

(** The same chain when the allowance covers exactly one swap. *)
Definition worldOneSwap : Batch.World :=
  Batch.mkWorld (Ok "0xowner") (mkError "value out-of-bounds")
    (Ok 10000) (Ok "0xapprove") (Ok tt)
    (fun _ => Ok 150001)
    (fun _ => Ok (Some (Batch.mkBlock (Some 10000000000))))
    (fun _ => Err (mkError "fee data unavailable"))
    (fun _ => Ok "0xswap")
    (fun _ => Ok tt).

(** The same chain when the allowance cannot be read. *)
Definition worldNoAllowance : Batch.World :=
  Batch.mkWorld (Ok "0xowner") (mkError "value out-of-bounds")
    (Err (mkError "could not detect network")) (Ok "0xapprove") (Ok tt)
    (fun _ => Ok 150001)
    (fun _ => Ok (Some (Batch.mkBlock (Some 10000000000))))
    (fun _ => Err (mkError "fee data unavailable"))
    (fun _ => Ok "0xswap")
    (fun _ => Ok tt).

End Sample.

(** * The reactions of the interactive loop, one by one *)
Module Reaction.
Import Service App.

(** The loop head at index [i], on a state whose amount parses: the four
    ways [loopHead] can go, each with the state it leads to. *)
Inductive Entered (i : nat) (s : State) : State -> Prop :=
| EnterExhausted :
    totalSwaps (config s) <= Z.of_nat i ->
    Entered i s (finish Exhausted s)
| EnterStopped :
    Z.of_nat i < totalSwaps (config s) -> stopRequested s = true ->
    Entered i s (finish StopRequested (addLog error MStoppedByUser None s))
| EnterWaits :
    Z.of_nat i < totalSwaps (config s) -> stopRequested s = false ->
    mustWait (service s) = true ->
    Entered i s (setStage (SlotWait i)
                   (call (Sleep (Some 200))
                      (addLog pending (MInitiating i) None s)))
| EnterSwap a :
    Z.of_nat i < totalSwaps (config s) -> stopRequested s = false ->
    mustWait (service s) = false ->
    Ethers.parseUnits (amountPerSwap (config s)) Ethers.usdc = Ok a ->
    Entered i s (setStage (SwapAddress i a)
                   (addLog pending (MInitiating i) None s)).

(** The inner [catch] of iteration [i]. *)
Inductive Caught (i : nat) (e : Error) (s : State) : State -> Prop :=
| CaughtRejection :
    isUserRejection e = true ->
    Caught i e s
      (finish UserRejected
         (addLog error MRejected None
            (addLog error (MFailed i (message e)) None s)))
| CaughtOther s' :
    isUserRejection e = false ->
    Entered (S i) (addLog error (MFailed i (message e)) None s) s' ->
    Caught i e s s'.

(** The state in which the [catch] of a failed call starts: a failed
    dispatch has removed its entry, the other failures touch nothing. *)
Definition settled (s : State) : State :=
  match stage s with
  | InFlight _ txId => setService (settle txId (service s)) s
  | _ => s
  end.

(** An awaited call of [approveUSDC] is rejected with [e]. *)
Definition approvalFails (s : State) (ev : Event) (e : Error) : Prop :=
  (exists a, stage s = ApproveAddress a /\ ev = AddressSettled (Err e)) \/
  (exists a, stage s = ApproveAllowance a /\ ev = AllowanceSettled (Err e)) \/
  (stage s = ApproveSend /\ ev = ApproveSettled (Err e)) \/
  (stage s = ApproveWait /\ ev = ApproveMined (Err e)).

(** [step] as a relation. *)
Inductive Reaction (s : State) : Event -> State -> Prop :=
| RStart :
    running (stage s) = false -> Reaction s Start (start s)
| RStop :
    running (stage s) = true ->
    Reaction s Stop (addLog pending MStopping None (requestStop s))
| RUnmount :
    Reaction s Unmount (setService (cleanup (service s)) s)
| RMined h :
    h ∈ submitted s -> Reaction s (Mined h) (confirm h s)
| RApproveAddress a r :
    stage s = ApproveAddress a ->
    Reaction s (AddressSettled (Ok r))
             (setStage (ApproveAllowance a) (call Allowance s))
| RApprovalFails ev e :
    approvalFails s ev e -> Reaction s ev (critical e s)
| RAllowanceEnough a allowance s' :
    stage s = ApproveAllowance a -> a <= allowance ->
    Entered 0 (addLog success MApproved None s) s' ->
    Reaction s (AllowanceSettled (Ok allowance)) s'
| RAllowanceShort a allowance :
    stage s = ApproveAllowance a -> allowance < a ->
    Reaction s (AllowanceSettled (Ok allowance))
             (setStage ApproveSend (call (Approve Ethers.MaxUint256) s))
| RApproveSent h :
    stage s = ApproveSend ->
    Reaction s (ApproveSettled (Ok h)) (setStage ApproveWait (call WaitApprove s))
| RApproveMined u s' :
    stage s = ApproveWait ->
    Entered 0 (addLog success MApproved None s) s' ->
    Reaction s (ApproveMined (Ok u)) s'
| RSlotBusy i :
    stage s = SlotWait i -> mustWait (service s) = true ->
    Reaction s SlotTimer (setStage (SlotWait i) (call (Sleep (Some 200)) s))
| RSlotFree i a :
    stage s = SlotWait i -> mustWait (service s) = false ->
    Ethers.parseUnits (amountPerSwap (config s)) Ethers.usdc = Ok a ->
    Reaction s SlotTimer (setStage (SwapAddress i a) s)
| RDispatch i a r :
    stage s = SwapAddress i a -> Ethers.fitsUint256 a = true ->
    Reaction s (AddressSettled (Ok r)) (dispatch i s)
| RFails i ev e s' :
    failsAt s i ev e -> Caught i e (settled s) s' -> Reaction s ev s'
| RSent i txId h :
    stage s = InFlight i txId ->
    Reaction s (Dispatched (Ok h))
             (setStage (Delay i)
                (call (Sleep (Some 15000))
                   (addLog success (MSent i) (Some h)
                      (submit h (setService (settle txId (service s)) s)))))
| RDelay i s' :
    stage s = Delay i -> Entered (S i) s s' -> Reaction s DelayTimer s'.

End Reaction.

(** Tactics that break a reaction down to the states it can lead to. *)
Ltac fails_cases H :=
  let txId := fresh "txId" in
  let a := fresh "a" in
  let r := fresh "r" in
  let Hst := fresh "Hst" in
  let Hfit := fresh "Hfit" in
  destruct H as [(txId & Hst & ->)|[(a & Hst & ->)|(a & r & Hst & -> & Hfit & ->)]];
  unfold Reaction.settled in *; rewrite Hst in *.

Ltac approval_cases H :=
  let a := fresh "a" in
  let Hst := fresh "Hst" in
  destruct H as [(a & Hst & ->)|[(a & Hst & ->)|[(Hst & ->)|(Hst & ->)]]].

Ltac entered_cases :=
  repeat match goal with
         | H : Reaction.Caught _ _ _ _ |- _ => destruct H
         | H : Reaction.Entered _ _ _ |- _ => destruct H
         end.

Ltac log_shape l :=
  first [ exists l; simpl; by eauto
        | eexists (_ :: l); simpl; by eauto
        | eexists (_ :: _ :: l); simpl; by eauto
        | eexists (_ :: _ :: _ :: l); simpl; by eauto
        | exists l; split; [reflexivity|simpl; by eauto 6]
        | eexists (_ :: l); split; [reflexivity|simpl; by eauto 6]
        | eexists (_ :: _ :: l); split; [reflexivity|simpl; by eauto 6]
        | eexists (_ :: _ :: _ :: l); split; [reflexivity|simpl; by eauto 6] ].

Ltac trace_shape p l :=
  first [ exists p, l; rewrite ?app_nil_r; by repeat split
        | exists p, (l ++ [Sleep (Some 200)]); rewrite app_assoc;
          repeat split; try assumption;
          apply Forall_app; split; [assumption|by repeat constructor]
        | exists p, (l ++ [Sleep (Some 15000)]); rewrite app_assoc;
          repeat split; try assumption;
          apply Forall_app; split; [assumption|by repeat constructor] ].

(** * What the extra properties of the interactive loop speak of *)
Module Loop.
Import Service App.

(** The 200 ms timer of [waitForTransactionSlot]. *)
Definition slotTimer : Action := Sleep (Some 200).

(** [waitForTransactionSlot] has never had to wait. *)
Definition NeverWaits (s : State) : Prop :=
  (forall i, stage s <> SlotWait i) /\ ~ In slotTimer (trace s).

(** The swap whose call of [swapUSDCtoETH] has begun and has not yet
    reached [router.execute]. *)
Definition underWay (st : Stage) : option nat :=
  match st with
  | SlotWait i | SwapAddress i _ => Some i
  | _ => None
  end.

(** The indices of [l] are at least [lo] and strictly increase. *)
Fixpoint ascendingFrom (lo : nat) (l : list nat) : bool :=
  match l with
  | [] => true
  | x :: l' => (lo <=? x)%nat && ascendingFrom (S x) l'
  end.

(** Every submission of the trace carries no overrides and was made for
    an amount that parses and fits a [uint256]. *)
Definition SubmitsValid (s : State) : Prop :=
  forall i ov, In (Execute i ov) (trace s) ->
    ov = noOverrides /\
    exists a, Ethers.parseUnits (amountPerSwap (config s)) Ethers.usdc = Ok a /\
              Ethers.fitsUint256 a = true.

(** The lines a run leaves just before the summary line, newest first,
    by the way the loop was left. *)
Definition closing (how : Ending) (ls : list TransactionLog) : Prop :=
  match how with
  | Exhausted => True
  | StopRequested => exists l, ls = mkLog error MStoppedByUser None :: l
  | UserRejected =>
      exists i msg l,
        ls = mkLog error MRejected None :: mkLog error (MFailed i msg) None :: l
  | Critical => exists msg l, ls = mkLog error (MCritical msg) None :: l
  end.

(** The two lines every run begins with, newest first. *)
Definition opening : list TransactionLog :=
  [mkLog pending MChecking None; mkLog pending MStarting None].

(** The shape of the log, stage by stage, and what the [finally] block
    has left of the service. *)
Definition LogInv (s : State) : Prop :=
  match stage s with
  | Idle => logs s = []
  | Ended how =>
      (exists l, logs s = mkLog pending MFinished None :: l ++ opening /\
                 closing how (l ++ opening)) /\
      contractCache (service s) = ∅ /\ pendingOf s = ∅
  | _ => exists l, logs s = l ++ opening
  end.

(** The calls the loop itself makes. *)
Definition isLoopCall (a : Action) : bool :=
  match a with
  | Execute _ _ | Sleep _ => true
  | _ => false
  end.

(** The calls of an [approveUSDC] that has returned: the allowance was
    enough, or an unlimited approval was sent and its receipt awaited. *)
Definition approvedBy (p : list Action) : Prop :=
  p = [Allowance] \/
  p = [Allowance; Approve Ethers.MaxUint256; WaitApprove].

(** The calls of an [approveUSDC] that was rejected on the way. *)
Definition approvalCutShort (p : list Action) : Prop :=
  p = [] \/ p = [Allowance] \/ p = [Allowance; Approve Ethers.MaxUint256] \/
  p = [Allowance; Approve Ethers.MaxUint256; WaitApprove].

(** The trace, stage by stage: the calls of [approveUSDC], then those of
    the loop. *)
Definition TraceInv (s : State) : Prop :=
  match stage s with
  | Idle | ApproveAddress _ => trace s = []
  | ApproveAllowance _ => trace s = [Allowance]
  | ApproveSend => trace s = [Allowance; Approve Ethers.MaxUint256]
  | ApproveWait =>
      trace s = [Allowance; Approve Ethers.MaxUint256; WaitApprove]
  | Ended Critical => approvalCutShort (trace s)
  | _ =>
      exists p l, trace s = p ++ l /\ approvedBy p /\
                  Forall (fun a => isLoopCall a = true) l
  end.

(** The state without the entries of the two maps of the service:
    everything the user sees of a run, and the capacity. *)
Definition forget (s : State) : State :=
  setService (mkService ∅ ∅ (capacity s)) s.

Definition isSentLine (t : TransactionLog) : bool :=
  match line t with MSent _ => true | _ => false end.

(** The swaps the log of the run reports as sent or as failed. *)
Definition settledSwaps (s : State) : nat :=
  length (List.filter isSentLine (logs s))
  + length (List.filter isFailedLine (logs s)).

(** The log accounts for the swaps, stage by stage. *)
Definition Accounted (s : State) : Prop :=
  match stage s with
  | SlotWait i | SwapAddress i _ | InFlight i _ =>
      settledSwaps s = i /\ (i < count s)%nat
  | Delay i => settledSwaps s = S i /\ (i < count s)%nat
  | Ended Exhausted => settledSwaps s = count s
  | Ended StopRequested | Ended UserRejected => (settledSwaps s <= count s)%nat
  | _ => settledSwaps s = 0%nat
  end.

End Loop.

(** * What the extra properties of the batch sender speak of *)
Module BatchTrace.

Definition isSleep (a : Action) : bool :=
  match a with Sleep _ => true | _ => false end.

(** The pauses of a trace, in order. *)
Definition sleeps (tr : list Action) : list Action := List.filter isSleep tr.

(** The last call of a trace is a pause. *)
Fixpoint endsWithSleep (tr : list Action) : bool :=
  match tr with
  | [] => false
  | [a] => isSleep a
  | _ :: tr' => endsWithSleep tr'
  end.

(** The calls that ask the chain for fees. *)
Definition isFeeQuery (a : Action) : bool :=
  match a with GetBlock _ | GetFeeData _ => true | _ => false end.

End BatchTrace.

(** * Detection, connection and the contract cache,
      [services/ethereumService.ts] *)
Module Connection.

(** [err.code]: a wallet reports a number, ethers.js a name. *)
Inductive Code : Type :=
| Num (n : Z)
| Name (s : string).

(** What a rejected request of the wallet carries: [err.code] and
    [err.message], either of which may be missing. *)
Record RpcError : Type := mkRpcError {
  code : option Code;
  rpcMessage : option string
}.

(** [err.code === n] *)
Definition hasCode (n : Z) (err : RpcError) : bool :=
  match code err with
  | Some (Num m) => m =? n
  | _ => false
  end.

Inductive Reply (A : Type) : Type :=
| Fulfilled (a : A)
| Rejected (err : RpcError).
Arguments Fulfilled {A} a.
Arguments Rejected {A} err.

(** What a contract object sends its calls through. *)
Inductive Runner : Type :=
| ByProvider
| BySigner (account : string).

(** [new ethers.Contract(address, abi, runner)] *)
Record Contract : Type := mkContract {
  address : string;
  abi : list string;
  runner : Runner
}.

(** The fields of [EthereumService] that detection, connection and the
    cache read and write: [provider] is whether [this.provider] is set,
    [signer] the account of [this.signer]. *)
Record t : Type := mkConnection {
  provider : bool;
  signer : option string;
  contractCache : gmap string Contract
}.

Definition BASE_CHAIN_ID : N := 8453.
Definition USDC_ADDRESS : string := "0x833589fcd6edb6e08f4c7c32d4f71b54bda02913".
Definition UNISWAP_ROUTER_ADDRESS : string :=
  "0x26261513f42d602997386198f608d907c406311c".
Definition ERC20_ABI : list string :=
  ["function balanceOf(address owner) view returns (uint256)";
   "function decimals() view returns (uint8)";
   "function approve(address spender, uint256 amount) returns (bool)";
   "function allowance(address owner, address spender) view returns (uint256)"].
Definition ROUTER_ABI : list string :=
  ["function execute(bytes commands, bytes[] inputs, uint256 deadline) payable"].

(** [tryInitProvider], given whether [window.ethereum] is there. *)
Definition tryInitProvider (ethereum : bool) (svc : t) : bool * t :=
  if ethereum
  then (true, mkConnection true (signer svc) (contractCache svc))
  else (false, svc).

(** [new EthereumService()] *)
Definition create (ethereum : bool) : t :=
  snd (tryInitProvider ethereum (mkConnection false None ∅)).

(** What the page shows to the detection: [ethereum 0] is whether
    [window.ethereum] is there when [waitForEthereum] is called, and for
    [k >= 1], [ethereum k] is whether it is there at the [k]-th callback of
    the 100 ms interval and [elapsed k] is [Date.now() - start] at that
    callback. *)
Record Page : Type := mkPage {
  ethereum : nat -> bool;
  elapsed : nat -> Z;
  isIframe : bool
}.

(** The callbacks of the interval from the [k]-th on; [None] when none
    of the next [fuel] callbacks resolves the promise. *)
Fixpoint poll (timeout : Z) (page : Page) (fuel k : nat) (svc : t)
  : option (bool * t) :=
  match fuel with
  | O => None
  | S fuel' =>
      let '(found, svc1) := tryInitProvider (ethereum page k) svc in
      if found then Some (true, svc1)
      else if timeout <? elapsed page k then Some (false, svc1)
      else poll timeout page fuel' (S k) svc1
  end.

(** The least index from [k] on, among the next [n], at which the page
    shows the wallet; [k + n] when there is none. *)
Fixpoint firstShown (page : Page) (n k : nat) : nat :=
  match n with
  | O => k
  | S n' => if ethereum page k then k else firstShown page n' (S k)
  end.

(** [waitForEthereum(timeout)] *)
Definition waitForEthereum (timeout : Z) (page : Page) (fuel : nat) (svc : t)
  : option (bool * t) :=
  let '(found, svc1) := tryInitProvider (ethereum page 0) svc in
  if found then Some (true, svc1) else poll timeout page fuel 1 svc1.

(** The key of a cache entry: the suffix says whether a third argument
    was given, whatever it is. *)
Definition cacheKey (address : string) (signerOrProvider : option Runner)
  : string :=
  address +:+ "-" +:+
  match signerOrProvider with Some _ => "signer" | None => "provider" end.

(** [getOrCreateContract(address, abi, signerOrProvider)] *)
Definition getOrCreateContract (address : string) (abi : list string)
           (signerOrProvider : option Runner) (svc : t)
  : Result Contract * t :=
  let key := cacheKey address signerOrProvider in
  match contractCache svc !! key with
  | Some contract => (Ok contract, svc)
  | None =>
      let provider :=
        match signerOrProvider with
        | Some r => Some r
        | None => if provider svc then Some ByProvider else None
        end in
      match provider with
      | None => (Err (mkError "No provider available"), svc)
      | Some r =>
          let contract := mkContract address abi r in
          (Ok contract,
           mkConnection (Connection.provider svc) (signer svc)
                        (<[key := contract]> (contractCache svc)))
      end
  end.

(** [cleanup()], as far as these fields go. *)
Definition cleanup (svc : t) : t :=
  mkConnection (provider svc) (signer svc) ∅.

(** The requests [connect] makes of the wallet, in order. *)
Inductive Request : Type :=
| RequestAccounts                 (* provider.send('eth_requestAccounts', []) *)
| GetSigner                       (* provider.getSigner() *)
| SwitchChain (chainId : string)  (* wallet_switchEthereumChain *)
| AddChain (chainId : string).    (* wallet_addEthereumChain *)

(** How the wallet answers them. *)
Record Wallet : Type := mkWallet {
  requestAccounts : Reply (list string);
  getSigner : Reply string;
  switchChain : Reply unit;
  addChain : Reply unit
}.

(** [`0x${BASE_CHAIN_ID.toString(16)}`] *)
Definition chainIdHex : string :=
  "0x" +:+ HexadecimalString.NilZero.string_of_uint (N.to_hex_uint BASE_CHAIN_ID).

Definition notDetected (page : Page) : Error :=
  mkError
    ("MetaMask not detected." +:+
     if isIframe page
     then " Warning: You are running in an iframe. Some browsers block wallet injection in frames for security. Please try opening the app in a new tab."
     else " Please ensure the MetaMask extension is installed, enabled, and that you have granted permission to this site.").

(** The outer [catch] of [connect]. *)
Definition rethrow (err : RpcError) : Error :=
  if hasCode 4001 err then mkError "Connection rejected by user."
  else mkError (JS.orElse (rpcMessage err) "Failed to connect to MetaMask").

Definition setSigner (account : string) (svc : t) : t :=
  mkConnection (provider svc) (Some account) (contractCache svc).

(** [connect] from the answer of [waitForEthereum] on: the requests
    made, the address returned ([accounts[0]], [None] when the list is
    empty) or the error thrown, and the service afterwards. *)
Definition connectFrom (isAvailable : bool) (page : Page) (w : Wallet)
           (svc : t) : list Request * Result (option string) * t :=
  if negb isAvailable || negb (provider svc)
  then ([], Err (notDetected page), svc)
  else
    match requestAccounts w with
    | Rejected err => ([RequestAccounts], Err (rethrow err), svc)
    | Fulfilled accounts =>
        match getSigner w with
        | Rejected err => ([RequestAccounts; GetSigner], Err (rethrow err), svc)
        | Fulfilled account =>
            let svc1 := setSigner account svc in
            match switchChain w with
            | Fulfilled _ =>
                ([RequestAccounts; GetSigner; SwitchChain chainIdHex],
                 Ok (head accounts), svc1)
            | Rejected err =>
                if hasCode 4902 err then
                  match addChain w with
                  | Fulfilled _ =>
                      ([RequestAccounts; GetSigner; SwitchChain chainIdHex;
                        AddChain chainIdHex],
                       Ok (head accounts), svc1)
                  | Rejected err' =>
                      ([RequestAccounts; GetSigner; SwitchChain chainIdHex;
                        AddChain chainIdHex],
                       Err (rethrow err'), svc1)
                  end
                else
                  ([RequestAccounts; GetSigner; SwitchChain chainIdHex],
                   Err (rethrow err), svc1)
            end
        end
    end.

(** [connect()]: the detection with its default timeout, then the rest;
    [None] while the detection has not resolved. *)
Definition connect (page : Page) (fuel : nat) (w : Wallet) (svc : t)
  : option (list Request * Result (option string) * t) :=
  match waitForEthereum 3000 page fuel svc with
  | Some (isAvailable, svc1) => Some (connectFrom isAvailable page w svc1)
  | None => None
  end.

(** The contract [getBalances] reads the USDC balance through, when the
    provider is set: [this.provider] is passed as third argument. *)
Definition getBalancesContract (svc : t) : Result Contract * t :=
  getOrCreateContract USDC_ADDRESS ERC20_ABI (Some ByProvider) svc.

(** The first lines of [approveUSDC]: the guard on the signer and the
    contract the allowance is read and the approval sent through. *)
Definition approveUSDCContract (svc : t) : Result Contract * t :=
  match signer svc with
  | None => (Err (mkError "Wallet not connected"), svc)
  | Some account =>
      getOrCreateContract USDC_ADDRESS ERC20_ABI (Some (BySigner account)) svc
  end.

(** The guard of [swapUSDCtoETH] and the router it submits through. *)
Definition swapRouter (svc : t) : Result Contract * t :=
  match signer svc with
  | None => (Err (mkError "Wallet not connected"), svc)
  | Some account =>
      getOrCreateContract UNISWAP_ROUTER_ADDRESS ROUTER_ABI
                          (Some (BySigner account)) svc
  end.

End Connection.

(** * The activity log as it is shown, [addLog] in [App.tsx] *)
Module Display.
Import App.

(** [allLogsRef.current], every line logged since the last start, and the
    [logs] state the page renders; both newest first. *)
Record t : Type := mkDisplay {
  allLogs : list TransactionLog;
  logs : list TransactionLog
}.

(** The page as it is first rendered. *)
Definition initial : t := mkDisplay [] [].

(** [addLog]: the new line goes to the front of all lines, and the six
    newest of them are shown. *)
Definition addLog (newLog : TransactionLog) (d : t) : t :=
  let all := newLog :: allLogs d in
  mkDisplay all (take 6 all).

(** The button "Clear History": [setLogs([])]. *)
Definition clearHistory (d : t) : t := mkDisplay (allLogs d) [].

(** Lines 109-110, at the start of a run. *)
Definition reset (d : t) : t := mkDisplay [] [].

Inductive Op : Type :=
| Add (newLog : TransactionLog)
| Clear
| Reset.

Definition apply (d : t) (op : Op) : t :=
  match op with
  | Add newLog => addLog newLog d
  | Clear => clearHistory d
  | Reset => reset d
  end.

Definition run (d : t) (ops : list Op) : t := foldl apply d ops.

Definition isClear (op : Op) : bool :=
  match op with Clear => true | _ => false end.

End Display.

(** * Balances and the connection of the wallet, [getBalances] in
      [services/ethereumService.ts] and [connectWallet] in [App.tsx] *)
Module Wallet.
Import Connection.

(** What [getBalances] returns. *)
Record Balances : Type := mkBalances { usdc : string; eth : string }.

(** The answers of the chain to [usdcContract.balanceOf(address)] and
    [provider.getBalance(address)]. *)
Record Chain : Type := mkChain {
  balanceOf : Result Z;
  getBalance : Result Z
}.

(** [interface WalletState] *)
Record WalletState : Type := mkWalletState {
  address : option string;
  chainId : option Z;
  usdcBalance : string;
  ethBalance : string;
  isConnecting : bool
}.

(** The line [connectWallet] logs. *)
Inductive Notice : Type :=
| Connected (address : option string)     (* Connected to <address>, success *)
| ConnectionFailed (msg : string).        (* Connection failed: <msg>, error *)

(** The wallet as the page first has it. *)
Definition disconnected : WalletState := mkWalletState None None "0" "0" false.

Section Formatting.
(** [ethers.formatUnits]; [formatEther] is [formatUnits] with 18. *)
Variable formatUnits : Z -> nat -> string.

(** [getBalances(address)], given whether [window.ethereum] is there
    should the provider have to be set first.  A query that fails counts
    as [0n]. *)
Definition getBalances (ethereum : bool) (chain : Chain) (svc : t)
  : Balances * t :=
  let '(found, svc1) :=
    if provider svc then (true, svc) else tryInitProvider ethereum svc in
  if negb found then (mkBalances "0" "0", svc1)
  else if negb (provider svc1) then (mkBalances "0" "0", svc1)
  else
    match getOrCreateContract USDC_ADDRESS ERC20_ABI (Some ByProvider) svc1 with
    | (Err _, svc2) => (mkBalances "0" "0", svc2)
    | (Ok _, svc2) =>
        let usdcBal := match balanceOf chain with Ok b => b | Err _ => 0 end in
        let ethBal := match getBalance chain with Ok b => b | Err _ => 0 end in
        (mkBalances (formatUnits usdcBal 6) (formatUnits ethBal 18), svc2)
    end.

(** [connectWallet]: the wallet state, the line logged and the service
    once it is over; [None] while the detection has not resolved. *)
Definition connectWallet (page : Page) (fuel : nat) (w : Connection.Wallet)
           (chain : Chain) (svc : t) (wallet : WalletState)
  : option (WalletState * Notice * t) :=
  match connect page fuel w svc with
  | None => None
  | Some (_, Ok account, svc1) =>
      let '(balances, svc2) := getBalances (ethereum page 0) chain svc1 in
      Some (mkWalletState account (Some 8453) (usdc balances) (eth balances)
                          false,
            Connected account, svc2)
  | Some (_, Err e, svc1) =>
      Some (mkWalletState (address wallet) (chainId wallet)
                          (usdcBalance wallet) (ethBalance wallet) false,
            ConnectionFailed (message e), svc1)
  end.

End Formatting.

End Wallet.

(** * Further concrete inputs *)
Module Scenario.

(** Swap 0 is with the wallet when the user clicks "Stop Execution". *)
Definition stopClicked : App.State :=
  Sample.after (Sample.history 4 ++ [App.Stop]).

(** What follows: the wallet sends swap 0 and the delay passes. *)
Definition afterStop : list App.Event :=
  [App.Dispatched (Ok "0xaa01"); App.DelayTimer].

Definition stopObeyed : App.State :=
  Sample.after (Sample.history 4 ++ App.Stop :: afterStop).

(** The run of two swaps in which everything succeeds, to its end. *)
Definition finished : App.State :=
  Sample.after (App.happyRun 10000 Sample.hashes 2).

(** The same run with the component unmounted while swap 0 is with the
    wallet. *)
Definition unmounted : App.State :=
  Sample.after (Sample.history 4
                  ++ App.Unmount :: drop 4 (App.happyRun 10000 Sample.hashes 2)).

(** The form with an amount of seven decimals, one more than USDC has. *)
Definition tooFine : App.SwapConfig := App.mkConfig "0.0000001" 2.

(** The state after a click on "Start Task" with that amount. *)
Definition refusedAtOnce : App.State :=
  default (App.init 1 tooFine Sample.outside)
          (App.run (App.init 1 tooFine Sample.outside) [App.Start]).

(** A chain whose blocks carry no base fee and whose fee data has a gas
    price of 2 gwei only. *)
Definition worldNoBaseFee : Batch.World :=
  Batch.mkWorld (Ok "0xowner") (mkError "value out-of-bounds")
    (Ok 0) (Ok "0xapprove") (Ok tt)
    (fun _ => Ok 150001)
    (fun _ => Ok (Some (Batch.mkBlock None)))
    (fun _ => Ok (Batch.mkFeeData None (Some 2000000000)))
    (fun _ => Ok "0xswap")
    (fun _ => Ok tt).

(** A swap count that is not a number, and one of zero. *)
Definition envNoCount : Batch.Env :=
  {[ "PRIVATE_KEY" := "0x01"; "TOTAL_SWAPS" := "many" ]}.
Definition envZero : Batch.Env :=
  {[ "PRIVATE_KEY" := "0x01"; "TOTAL_SWAPS" := "0" ]}.

(** A negative amount, with an allowance that is there already. *)
Definition envNegative : Batch.Env :=
  {[ "PRIVATE_KEY" := "0x01"; "TOTAL_SWAPS" := "2"; "AMOUNT" := "-1" ]}.

(** A page in which the wallet is there from the start, and a service
    that has detected it. *)
Definition page : Connection.Page :=
  Connection.mkPage (fun _ => true) (fun k => 100 * Z.of_nat k) false.

Definition detected : Connection.t := Connection.create true.

(** A wallet that grants the accounts and refuses to switch chains. *)
Definition refusingWallet : Connection.Wallet :=
  Connection.mkWallet
    (Connection.Fulfilled ["0xowner"]) (Connection.Fulfilled "0xowner")
    (Connection.Rejected
       (Connection.mkRpcError (Some (Connection.Num 4001))
                              (Some "User rejected the request.")))
    (Connection.Fulfilled tt).

(** The service once that wallet's signer is set. *)
Definition connected : Connection.t := Connection.setSigner "0xowner" detected.

(** A wallet that grants everything it is asked. *)
Definition grantingWallet : Connection.Wallet :=
  Connection.mkWallet
    (Connection.Fulfilled ["0xowner"]) (Connection.Fulfilled "0xowner")
    (Connection.Fulfilled tt) (Connection.Fulfilled tt).

(** A chain on which the USDC balance cannot be read and the account
    holds one ether. *)
Definition chainNoUsdc : Wallet.Chain :=
  Wallet.mkChain (Err (mkError "missing revert data"))
                 (Ok 1000000000000000000).

(** In the examples an amount is shown in base units, in place of
    [formatUnits]. *)
Definition baseUnits (v : Z) (_ : nat) : string :=
  DecimalString.NilZero.string_of_int (Z.to_int v).

(** The wallet shown, the line logged and the service after a click on
    "Connect" with that wallet and chain. *)
Definition afterConnect : Wallet.WalletState * Wallet.Notice * Connection.t :=
  default (Wallet.disconnected, Wallet.ConnectionFailed "", detected)
          (Wallet.connectWallet baseUnits page 0 grantingWallet chainNoUsdc
                                detected Wallet.disconnected).

End Scenario.

(** * Facts about traces *)

Lemma attempts_app tr1 tr2 : attempts (tr1 ++ tr2) = attempts tr1 ++ attempts tr2.
Proof.
  induction tr1 as [|a tr1 IH]; [reflexivity|].
  destruct a; simpl; rewrite ?IH; reflexivity.
Qed.

Lemma approvals_app tr1 tr2 :
  approvals (tr1 ++ tr2) = (approvals tr1 + approvals tr2)%nat.
Proof. unfold approvals. rewrite List.filter_app, length_app. reflexivity. Qed.

Lemma approvals_snoc tr a :
  approvals (tr ++ [a]) = (approvals tr + if isApprove a then 1 else 0)%nat.
Proof. rewrite approvals_app. unfold approvals. simpl. by destruct (isApprove a). Qed.

Lemma attempts_snoc tr a :
  attempts (tr ++ [a]) =
  attempts tr ++ match a with Execute i _ => [i] | _ => [] end.
Proof. rewrite attempts_app. by destruct a. Qed.

(** A trace splits in one way only at its first submission. *)
Lemma first_execute_unique pre : forall pre' i i' ov ov' post post',
  attempts pre = [] -> attempts pre' = [] ->
  pre ++ Execute i ov :: post = pre' ++ Execute i' ov' :: post' ->
  pre = pre' /\ i = i' /\ ov = ov' /\ post = post'.
Proof.
  induction pre as [|a pre IH]; intros [|a' pre'] i i' ov ov' post post' H1 H2 Heq;
    simpl in Heq.
  - by simplify_eq.
  - by simplify_eq.
  - by simplify_eq.
  - injection Heq as -> Heq.
    assert (attempts pre = [] /\ attempts pre' = []) as [H1' H2']
      by (destruct a'; simpl in *; done).
    destruct (IH _ _ _ _ _ _ _ H1' H2' Heq) as (-> & -> & -> & ->). done.
Qed.

Lemma Forall_lt_weaken i (l : list nat) :
  Forall (fun j => (j < i)%nat) l -> Forall (fun j => (j < S i)%nat) l.
Proof.
  intros H. eapply Forall_impl; [exact H|]. intros j Hj. simpl in Hj. lia.
Qed.

(** * The batch sender *)
Section BatchFacts.
Import Batch.
Variables (env : Env) (w : World).

Lemma slowGas_gasLimit i ov : gasLimit (snd (slowGas env w i ov)) = gasLimit ov.
Proof. unfold slowGas. repeat case_match; reflexivity. Qed.

Lemma slowGas_quiet i ov : attempts (fst (slowGas env w i ov)) = [].
Proof. unfold slowGas. repeat case_match; reflexivity. Qed.

Lemma pause_quiet total i : attempts (pause env total i) = [].
Proof. unfold pause. case_match; reflexivity. Qed.

Lemma attempts_iteration amount total i :
  attempts (iteration env amount total w i) =
  if Ethers.fitsUint256 amount then [i] else [].
Proof.
  unfold iteration. destruct (Ethers.fitsUint256 amount); simpl.
  - rewrite attempts_app, slowGas_quiet. simpl.
    repeat case_match; simpl; rewrite pause_quiet; reflexivity.
  - apply pause_quiet.
Qed.

Lemma attempts_swapLoop amount total r i :
  attempts (swapLoop env amount total w r i) =
  if Ethers.fitsUint256 amount then seq i r else [].
Proof.
  revert i. induction r as [|r IH]; intros i.
  - by destruct (Ethers.fitsUint256 amount).
  - cbn [swapLoop]. rewrite attempts_app, attempts_iteration, IH.
    by destruct (Ethers.fitsUint256 amount).
Qed.

(** An iteration that cannot encode its amount logs a failure. *)
Lemma iteration_unencodable amount total i :
  Ethers.fitsUint256 amount = false ->
  In (LogFailed i (encodeError w)) (iteration env amount total w i).
Proof. intros H. unfold iteration. rewrite H. by left. Qed.

(** The submission of an iteration carries the overrides computed for
    it, and a sent swap is awaited before the iteration ends. *)
Lemma iteration_execute amount total i j ov pre post :
  iteration env amount total w i = pre ++ Execute j ov :: post ->
  j = i /\ ov = overridesOf env w i /\ attempts pre = [] /\
  (isOk (execute w i) = true -> exists post', post = WaitSwap i :: post').
Proof.
  intros Heq.
  assert (attempts (iteration env amount total w i)
          = attempts pre ++ j :: attempts post) as Hatt
    by (rewrite Heq, attempts_app; reflexivity).
  rewrite attempts_iteration in Hatt.
  unfold iteration in Heq.
  destruct (Ethers.fitsUint256 amount); [|by destruct (attempts pre)].
  assert (attempts pre = [] /\ j = i) as [Hpre ->].
  { destruct (attempts pre) as [|k l]; simpl in Hatt.
    - split; congruence.
    - destruct l; discriminate. }
  rewrite app_assoc in Heq.
  apply first_execute_unique in Heq as (_ & _ & <- & <-);
    [|by rewrite attempts_app, slowGas_quiet|exact Hpre].
  split; [reflexivity|]. split; [reflexivity|]. split; [exact Hpre|].
  intros Hok. destruct (execute w i); [|discriminate].
  destruct (wait w i); eauto.
Qed.

Lemma iteration_waits amount total i :
  Ethers.fitsUint256 amount = true -> isOk (execute w i) = true ->
  In (WaitSwap i) (iteration env amount total w i).
Proof.
  intros Hfit Hok. unfold iteration. rewrite Hfit.
  rewrite !in_app_iff. right. right. right.
  destruct (execute w i); [|discriminate].
  destruct (wait w i); by left.
Qed.

(** Every submission of the loop: its index, its overrides, the wait
    that follows it and the waits that precede it. *)
Lemma swapLoop_execute amount total r : forall i0 tr1 tr2 j ov,
  swapLoop env amount total w r i0 = tr1 ++ Execute j ov :: tr2 ->
  (i0 <= j < i0 + r)%nat /\ ov = overridesOf env w j /\
  (isOk (execute w j) = true -> exists tr2', tr2 = WaitSwap j :: tr2') /\
  (forall i, (i0 <= i < j)%nat -> isOk (execute w i) = true ->
             In (WaitSwap i) tr1).
Proof.
  induction r as [|r IH]; intros i0 tr1 tr2 j ov Heq; cbn [swapLoop] in Heq.
  - by destruct tr1.
  - assert (Ethers.fitsUint256 amount = true) as Hfit.
    { destruct (Ethers.fitsUint256 amount) eqn:Hfit; [reflexivity|].
      apply (f_equal attempts) in Heq.
      rewrite !attempts_app, attempts_iteration, attempts_swapLoop, Hfit in Heq.
      simpl in Heq. by destruct (attempts tr1). }
    apply List.app_eq_app in Heq as [l [[Hit Hrest]|[Htr1 Hrest]]].
    + destruct l as [|a l]; simpl in Hrest.
      * rewrite app_nil_r in Hit. subst tr1. symmetry in Hrest.
        apply (IH (S i0) [] tr2 j ov) in Hrest as (Hj & Hov & Hnext & Hprev).
        split; [lia|]. split; [exact Hov|]. split; [exact Hnext|].
        intros i Hi Hok. destruct (decide (i = i0)) as [->|Hne].
        -- by apply iteration_waits.
        -- exfalso. eapply (Hprev i); [lia|exact Hok].
      * injection Hrest as <- ->.
        apply iteration_execute in Hit as (-> & Hov & _ & Hnext).
        split; [lia|]. split; [exact Hov|]. split.
        -- intros Hok. destruct (Hnext Hok) as [post' ->]. by eexists.
        -- intros i Hi. lia.
    + subst tr1.
      apply IH in Hrest as (Hj & Hov & Hnext & Hprev).
      split; [lia|]. split; [exact Hov|]. split; [exact Hnext|].
      intros i Hi Hok. apply in_app_iff.
      destruct (decide (i = i0)) as [->|Hne].
      * left. by apply iteration_waits.
      * right. apply Hprev; [lia|exact Hok].
Qed.

Lemma approvalStep_quiet amount total :
  attempts (fst (approvalStep amount total w)) = [].
Proof. unfold approvalStep. repeat case_match; reflexivity. Qed.

(** The same for the whole script. *)
Lemma main_execute tr1 tr2 j ov :
  fst (main env w) = tr1 ++ Execute j ov :: tr2 ->
  (j < iterations (TOTAL_SWAPS env))%nat /\ ov = overridesOf env w j /\
  (isOk (execute w j) = true -> exists tr2', tr2 = WaitSwap j :: tr2') /\
  (forall i, (i < j)%nat -> isOk (execute w i) = true -> In (WaitSwap i) tr1).
Proof.
  unfold main.
  destruct (JS.falsy _); [by destruct tr1|].
  destruct (newWallet w); [|by destruct tr1].
  destruct (Ethers.parseUnits _ _) as [amount|]; [|by destruct tr1].
  pose proof (approvalStep_quiet amount (TOTAL_SWAPS env)) as Hquiet.
  destruct (approvalStep _ _ _) as [tr [[]|e]]; simpl in *; intros Heq.
  - apply List.app_eq_app in Heq as [l [[Htr Hrest]|[Htr1 Hrest]]].
    + destruct l as [|x l]; simpl in Hrest.
      * symmetry in Hrest.
        apply (swapLoop_execute _ _ _ 0%nat []) in Hrest as (Hj & Hov & Hnext & Hprev).
        split; [lia|]. split; [exact Hov|]. split; [exact Hnext|].
        intros i Hi Hok. exfalso. eapply (Hprev i); [lia|exact Hok].
      * injection Hrest as <- _. subst tr.
        rewrite attempts_app in Hquiet. by destruct (attempts tr1).
    + subst tr1.
      apply swapLoop_execute in Hrest as (Hj & Hov & Hnext & Hprev).
      split; [lia|]. split; [exact Hov|]. split; [exact Hnext|].
      intros i Hi Hok. apply in_app_iff. right. apply Hprev; [lia|exact Hok].
  - subst tr. rewrite attempts_app in Hquiet. by destruct (attempts tr1).
Qed.

Lemma swapLoop_In x amount total r : forall i0 i,
  (i0 <= i < i0 + r)%nat -> In x (iteration env amount total w i) ->
  In x (swapLoop env amount total w r i0).
Proof.
  induction r as [|r IH]; intros i0 i Hi Hx; [lia|].
  cbn [swapLoop]. apply in_app_iff.
  destruct (decide (i = i0)) as [->|Hne]; [by left|].
  right. apply (IH (S i0) i); [lia|exact Hx].
Qed.

Lemma iteration_logs_failure amount total i e :
  Ethers.fitsUint256 amount = true -> execute w i = Err e ->
  In (LogFailed i e) (iteration env amount total w i).
Proof.
  intros Hfit He. unfold iteration. rewrite Hfit, He.
  rewrite !in_app_iff. right. right. right. by left.
Qed.

(** When the approval step ends well. *)
Lemma approvalSucceeds_iff amount total :
  approvalSucceeds amount total w = true <->
  exists currentAllowance n,
    allowance w = Ok currentAllowance /\ total = Some n /\
    (amount * n <= currentAllowance \/
     isOk (approve w) = true /\ isOk (approveWait w) = true).
Proof.
  unfold approvalSucceeds, approvalStep.
  destruct (allowance w) as [cur|]; [|split; [discriminate|by intros (?&?&?&?)]].
  destruct total as [n|]; [|split; [discriminate|by intros (?&?&?&?&?)]].
  destruct (cur <? amount * n) eqn:Hlt.
  - apply Z.ltb_lt in Hlt.
    destruct (approve w), (approveWait w); simpl; split;
      try discriminate; try (intros (?&?&?&?&[?|[? ?]]); simplify_eq; (lia || done)).
    all: intros _; exists cur, n; repeat split; by right.
  - apply Z.ltb_ge in Hlt. split; [|done].
    intros _. exists cur, n. repeat split. by left.
Qed.
End BatchFacts.

(** * The interactive loop *)
Section AppFacts.
Import Service App.

(** ** What no reaction changes *)

Lemma Frame_refl s : Frame s s.
Proof. by repeat split. Qed.

Lemma Frame_trans s1 s2 s3 : Frame s1 s2 -> Frame s2 s3 -> Frame s1 s3.
Proof.
  intros (Hc & Ho & Hm & Hw) (Hc' & Ho' & Hm' & Hw').
  repeat split; [congruence..|]. intros j Hj. by apply Hw, Hw'.
Qed.

Lemma Frame_same_trace s s' :
  config s' = config s -> outside s' = outside s ->
  capacity s' = capacity s -> trace s' = trace s -> Frame s s'.
Proof. intros Hc Ho Hm Ht. repeat split; try assumption. by rewrite Ht. Qed.

Lemma Frame_snoc a s s' :
  config s' = config s -> outside s' = outside s ->
  capacity s' = capacity s -> trace s' = trace s ++ [a] ->
  (forall j, a <> WaitSwap j) -> Frame s s'.
Proof.
  intros Hc Ho Hm Ht Ha. repeat split; try assumption. rewrite Ht.
  intros j [Hj|[Hj|[]]]%in_app_iff; [exact Hj|]. by destruct (Ha j).
Qed.

Lemma finish_frame how s : Frame s (finish how s).
Proof. by apply Frame_same_trace. Qed.

Lemma addLog_frame st l h s : Frame s (addLog st l h s).
Proof. by apply Frame_same_trace. Qed.

Lemma catchSwap_frame next i e s :
  (forall s', Frame s' (next s')) -> Frame s (catchSwap next i e s).
Proof.
  intros Hnext. unfold catchSwap. destruct (isUserRejection e).
  - by apply Frame_same_trace.
  - eapply Frame_trans; [|apply Hnext]. apply addLog_frame.
Qed.

Lemma swapUSDCtoETH_frame next i s :
  (forall s', Frame s' (next s')) -> Frame s (swapUSDCtoETH next i s).
Proof.
  intros Hnext. unfold swapUSDCtoETH.
  destruct (mustWait (service s)).
  - by eapply Frame_snoc.
  - destruct (Ethers.parseUnits _ _); [by apply Frame_same_trace|].
    by apply catchSwap_frame.
Qed.

Lemma loopFrom_frame r : forall i s, Frame s (loopFrom r i s).
Proof.
  induction r as [|r IH]; intros i s; simpl.
  - apply finish_frame.
  - destruct (stopRequested s); [by apply Frame_same_trace|].
    eapply Frame_trans; [apply addLog_frame|].
    apply swapUSDCtoETH_frame. intros s'. apply IH.
Qed.

Lemma loopHead_frame i s : Frame s (loopHead i s).
Proof. apply loopFrom_frame. Qed.

Lemma critical_frame e s : Frame s (critical e s).
Proof. by apply Frame_same_trace. Qed.

Lemma step_frame s ev s' :
  step s ev = Some s' ->
  config s' = config s /\ outside s' = outside s /\
  capacity s' = capacity s /\
  (forall j, In (WaitSwap j) (trace s') ->
             ev <> Start /\ In (WaitSwap j) (trace s)).
Proof.
  intros Hstep.
  assert (ev = Start /\ s' = start s \/ ev <> Start /\ Frame s s')
    as [[-> ->]|[Hne (Hc & Ho & Hm & Hw)]]; [|..|by eauto 6].
  2:{ unfold start.
      destruct (Ethers.parseUnits _ _); (do 3 (split; [reflexivity|]));
        intros j []. }
  destruct ev; unfold step in Hstep;
    try (right; split; [discriminate|]).
  - destruct (stage s); simplify_eq; by left.
  - destruct (running (stage s)); simplify_eq. by apply Frame_same_trace.
  - assert (s' = setService (cleanup (service s)) s) as ->
      by (destruct (stage s); congruence).
    by apply Frame_same_trace.
  - destruct (stage s); simplify_eq; destruct r; simplify_eq.
    + by eapply Frame_snoc.
    + apply critical_frame.
    + destruct (Ethers.fitsUint256 _); simplify_eq.
      * by eapply Frame_snoc.
      * apply catchSwap_frame. intros; apply loopHead_frame.
    + apply catchSwap_frame. intros; apply loopHead_frame.
  - destruct (stage s); simplify_eq.
    destruct r; [destruct (_ <=? _)|]; simplify_eq.
    + eapply Frame_trans; [apply addLog_frame|apply loopHead_frame].
    + by eapply Frame_snoc.
    + apply critical_frame.
  - destruct (stage s); simplify_eq. destruct r; simplify_eq.
    + by eapply Frame_snoc.
    + apply critical_frame.
  - destruct (stage s); simplify_eq. destruct r; simplify_eq.
    + eapply Frame_trans; [apply addLog_frame|apply loopHead_frame].
    + apply critical_frame.
  - destruct (stage s); simplify_eq.
    apply swapUSDCtoETH_frame. intros; apply loopHead_frame.
  - destruct (stage s); simplify_eq. destruct r; simplify_eq.
    + by eapply Frame_snoc.
    + eapply Frame_trans; [|apply catchSwap_frame; intros; apply loopHead_frame].
      by apply Frame_same_trace.
  - destruct (stage s); simplify_eq. apply loopHead_frame.
  - assert (s' = confirm h s) as ->
      by (destruct (stage s); case_bool_decide; congruence).
    by apply Frame_same_trace.
Qed.

(** ** The amount held across an await *)

Lemma AmountInv_parsed s : AmountInv s -> running (stage s) = true -> parsed s.
Proof.
  unfold AmountInv, parsed. destruct (stage s); intros H Hr;
    try discriminate; eauto.
Qed.

Lemma AmountInv_transfer s s' :
  stage s' = stage s -> config s' = config s -> AmountInv s -> AmountInv s'.
Proof. unfold AmountInv. by intros -> ->. Qed.

Lemma catchSwap_amount next i e s :
  (forall s', config s' = config s -> AmountInv (next s')) ->
  AmountInv (catchSwap next i e s).
Proof.
  intros Hnext. unfold catchSwap.
  destruct (isUserRejection e); [exact I|]. by apply Hnext.
Qed.

Lemma swapUSDCtoETH_amount next i s :
  parsed s -> AmountInv (swapUSDCtoETH next i s).
Proof.
  intros [a Ha]. unfold swapUSDCtoETH.
  destruct (mustWait (service s)); [by exists a|].
  rewrite Ha. exact Ha.
Qed.

Lemma loopFrom_amount r i s : parsed s -> AmountInv (loopFrom r i s).
Proof.
  intros Hp. destruct r as [|r]; simpl; [exact I|].
  destruct (stopRequested s); [exact I|].
  by apply swapUSDCtoETH_amount.
Qed.

Lemma loopHead_amount i s : parsed s -> AmountInv (loopHead i s).
Proof. apply loopFrom_amount. Qed.

Lemma step_amount s ev s' : AmountInv s -> step s ev = Some s' -> AmountInv s'.
Proof.
  intros Hinv Hstep.
  destruct ev; unfold step in Hstep.
  - assert (s' = start s) as -> by (destruct (stage s); congruence).
    unfold start. by destruct (Ethers.parseUnits _ _) eqn:Hp.
  - destruct (running (stage s)); simplify_eq.
    by eapply AmountInv_transfer; [..|exact Hinv].
  - assert (s' = setService (cleanup (service s)) s) as ->
      by (destruct (stage s); congruence).
    by eapply AmountInv_transfer; [..|exact Hinv].
  - pose proof (AmountInv_parsed s Hinv) as Hp. unfold AmountInv in Hinv.
    destruct (stage s); simplify_eq; destruct r; simplify_eq;
      try exact Hinv; try exact I.
    + destruct (Ethers.fitsUint256 _); simplify_eq; [by apply Hp|].
      apply catchSwap_amount. intros s0 Hc. apply loopHead_amount.
      unfold parsed. rewrite Hc. by apply Hp.
    + apply catchSwap_amount. intros s0 Hc. apply loopHead_amount.
      unfold parsed. rewrite Hc. by apply Hp.
  - pose proof (AmountInv_parsed s Hinv) as Hp.
    destruct (stage s); simplify_eq.
    destruct r; [destruct (_ <=? _)|]; simplify_eq;
      [by apply loopHead_amount, Hp|by apply Hp|exact I].
  - pose proof (AmountInv_parsed s Hinv) as Hp.
    destruct (stage s); simplify_eq.
    destruct r; simplify_eq; [by apply Hp|exact I].
  - pose proof (AmountInv_parsed s Hinv) as Hp.
    destruct (stage s); simplify_eq.
    destruct r; simplify_eq; [by apply loopHead_amount, Hp|exact I].
  - pose proof (AmountInv_parsed s Hinv) as Hp.
    destruct (stage s); simplify_eq.
    by apply swapUSDCtoETH_amount, Hp.
  - pose proof (AmountInv_parsed s Hinv) as Hp.
    destruct (stage s); simplify_eq.
    destruct r; simplify_eq; [by apply Hp|].
    apply catchSwap_amount. intros s0 Hc. apply loopHead_amount.
    unfold parsed. rewrite Hc. by apply Hp.
  - pose proof (AmountInv_parsed s Hinv) as Hp.
    destruct (stage s); simplify_eq. by apply loopHead_amount, Hp.
  - assert (s' = confirm h s) as ->
      by (destruct (stage s); case_bool_decide; congruence).
    by eapply AmountInv_transfer; [..|exact Hinv].
Qed.

(** ** The entries of the map *)

Lemma finish_slot how s : SlotInv (finish how s).
Proof. reflexivity. Qed.

Lemma catchSwap_slot next i e s :
  (forall s', pendingOf s' = ∅ -> SlotInv (next s')) ->
  pendingOf s = ∅ -> SlotInv (catchSwap next i e s).
Proof.
  intros Hnext Hs. unfold catchSwap.
  destruct (isUserRejection e); [apply finish_slot|].
  apply Hnext. exact Hs.
Qed.

Lemma mustWait_false s :
  mustWait (service s) = false <->
  (getPendingTransactionCount (service s) < capacity s)%nat.
Proof. unfold mustWait, capacity. apply Nat.leb_gt. Qed.

Lemma swapUSDCtoETH_slot next i s :
  (forall s', pendingOf s' = ∅ -> SlotInv (next s')) ->
  pendingOf s = ∅ -> SlotInv (swapUSDCtoETH next i s).
Proof.
  intros Hnext Hs. unfold swapUSDCtoETH.
  destruct (mustWait (service s)) eqn:Hw.
  - exact Hs.
  - destruct (Ethers.parseUnits _ _).
    + split; [exact Hs|]. apply mustWait_false in Hw.
      change (capacity (setStage (SwapAddress i a) s)) with (capacity s). lia.
    + apply catchSwap_slot; assumption.
Qed.

Lemma loopFrom_slot r : forall i s, pendingOf s = ∅ -> SlotInv (loopFrom r i s).
Proof.
  induction r as [|r IH]; intros i s Hs; simpl.
  - apply finish_slot.
  - destruct (stopRequested s); [apply finish_slot|].
    apply swapUSDCtoETH_slot; [|exact Hs].
    intros s' Hs'. apply IH. exact Hs'.
Qed.

Lemma loopHead_slot i s : pendingOf s = ∅ -> SlotInv (loopHead i s).
Proof. apply loopFrom_slot. Qed.

Lemma start_slot s : pendingOf s = ∅ -> SlotInv (start s).
Proof.
  intros Hs. unfold start.
  destruct (Ethers.parseUnits _ _); [exact Hs|reflexivity].
Qed.

Lemma SlotInv_transfer s s' :
  stage s' = stage s -> service s' = service s -> SlotInv s -> SlotInv s'.
Proof. unfold SlotInv, pendingOf, capacity. intros -> ->. trivial. Qed.

Lemma unmount_slot s : SlotInv s -> SlotInv (setService (cleanup (service s)) s).
Proof.
  unfold SlotInv, pendingOf, capacity. simpl.
  destruct (stage s); intros H; try reflexivity.
  - split; [reflexivity|apply H].
  - split; [set_solver|apply H].
Qed.

Lemma settle_empty txId s :
  dom (pendingOf s) ⊆ {[txId]} ->
  pendingOf (setService (settle txId (service s)) s) = ∅.
Proof.
  intros Hdom. unfold pendingOf. simpl.
  apply map_empty. intros k. rewrite lookup_delete.
  case_decide; [reflexivity|].
  apply not_elem_of_dom. set_solver.
Qed.

Lemma step_slot s ev s' : SlotInv s -> step s ev = Some s' -> SlotInv s'.
Proof.
  intros Hinv Hstep.
  destruct ev; unfold step in Hstep.
  - destruct (stage s) eqn:Hst; simplify_eq;
      apply start_slot; unfold SlotInv in Hinv; rewrite Hst in Hinv; exact Hinv.
  - destruct (running (stage s)); simplify_eq.
    by eapply SlotInv_transfer; [..|exact Hinv].
  - assert (s' = setService (cleanup (service s)) s) as ->
      by (destruct (stage s); congruence).
    apply unmount_slot, Hinv.
  - unfold SlotInv in Hinv.
    destruct (stage s) eqn:Hst; simplify_eq; destruct r; simplify_eq.
    + exact Hinv.
    + apply finish_slot.
    + destruct Hinv as [Hempty Hcap].
      destruct (Ethers.fitsUint256 _); simplify_eq.
      * unfold dispatch, SlotInv, pendingOf, capacity in *. simpl.
        rewrite Hempty. split; [|exact Hcap].
        by rewrite dom_insert_L, dom_empty_L, (right_id_L ∅ (∪)).
      * apply catchSwap_slot; [intros; by apply loopHead_slot|exact Hempty].
    + apply catchSwap_slot; [intros; by apply loopHead_slot|apply Hinv].
  - unfold SlotInv in Hinv.
    destruct (stage s) eqn:Hst; simplify_eq.
    destruct r; [destruct (_ <=? _)|]; simplify_eq;
      [by apply loopHead_slot|exact Hinv|apply finish_slot].
  - unfold SlotInv in Hinv.
    destruct (stage s) eqn:Hst; simplify_eq.
    destruct r; simplify_eq; [exact Hinv|apply finish_slot].
  - unfold SlotInv in Hinv.
    destruct (stage s) eqn:Hst; simplify_eq.
    destruct r; simplify_eq; [by apply loopHead_slot|apply finish_slot].
  - unfold SlotInv in Hinv.
    destruct (stage s) eqn:Hst; simplify_eq.
    apply swapUSDCtoETH_slot; [intros; by apply loopHead_slot|exact Hinv].
  - unfold SlotInv in Hinv.
    destruct (stage s) eqn:Hst; simplify_eq.
    destruct Hinv as [Hdom Hcap].
    destruct r; simplify_eq.
    + apply (settle_empty txId s Hdom).
    + apply catchSwap_slot; [intros; by apply loopHead_slot|].
      apply settle_empty, Hdom.
  - unfold SlotInv in Hinv.
    destruct (stage s) eqn:Hst; simplify_eq.
    by apply loopHead_slot.
  - assert (s' = confirm h s) as ->
      by (destruct (stage s); case_bool_decide; congruence).
    by eapply SlotInv_transfer; [..|exact Hinv].
Qed.

(** ** The trace and the log *)

(** A state about to log a failure of swap [i] enters index [i + 1]. *)
Lemma LoopPre_failed i msg s :
  (approvals (trace s) <= 1)%nat -> approvedLogged s = true ->
  (i < count s)%nat ->
  Forall (fun j => (j < S i)%nat) (attempts (trace s)) ->
  LoopPre (S i) (addLog error (MFailed i msg) None s).
Proof.
  intros Happ Hlog Hi Hall.
  split; [exact Happ|]. split; [exact Hlog|]. split; [exact Hi|].
  split; [exact Hall|]. discriminate.
Qed.

Lemma finish_exhausted_run s :
  LoopPre (count s) s -> RunInv (finish Exhausted s).
Proof.
  intros (Happ & Hlog & _ & _ & Hseq). unfold RunInv. simpl.
  repeat split; assumption.
Qed.

Lemma catchSwap_run next i e s :
  (approvals (trace s) <= 1)%nat -> approvedLogged s = true ->
  (i < count s)%nat ->
  Forall (fun j => (j < S i)%nat) (attempts (trace s)) ->
  (forall s', LoopPre (S i) s' -> config s' = config s -> RunInv (next s')) ->
  RunInv (catchSwap next i e s).
Proof.
  intros Happ Hlog Hi Hall Hnext. unfold catchSwap.
  destruct (isUserRejection e).
  - unfold RunInv. simpl. repeat split; assumption.
  - apply Hnext; [|reflexivity]. by apply LoopPre_failed.
Qed.

Lemma swapUSDCtoETH_run next i s :
  (i < count s)%nat -> LoopPre i s ->
  (forall s', LoopPre (S i) s' -> config s' = config s -> RunInv (next s')) ->
  RunInv (swapUSDCtoETH next i s).
Proof.
  intros Hi Hpre Hnext. unfold swapUSDCtoETH.
  destruct (mustWait (service s)).
  - destruct Hpre as (Happ & Hlog & Hle & Hall & Hseq).
    unfold RunInv, LoopPre. simpl.
    rewrite approvals_snoc, attempts_snoc, app_nil_r. simpl.
    repeat split; try assumption. lia.
  - destruct (Ethers.parseUnits _ _).
    + split; assumption.
    + destruct Hpre as (Happ & Hlog & Hle & Hall & Hseq).
      apply catchSwap_run; try assumption. by apply Forall_lt_weaken.
Qed.

Lemma loopFrom_run r : forall i s,
  r = Z.to_nat (totalSwaps (config s) - Z.of_nat i) ->
  LoopPre i s -> RunInv (loopFrom r i s).
Proof.
  induction r as [|r IH]; intros i s Hr Hpre; simpl.
  - apply finish_exhausted_run.
    assert (count s = i) as ->; [|exact Hpre].
    destruct Hpre as (_ & _ & Hle & _). unfold count in *. lia.
  - assert (i < count s)%nat as Hi by (unfold count; lia).
    destruct (stopRequested s) eqn:Hstop.
    + destruct Hpre as (Happ & Hlog & _).
      unfold RunInv. simpl. repeat split; assumption.
    + apply swapUSDCtoETH_run; [exact Hi|exact Hpre|].
      intros s' Hpre' Hcfg. apply IH; [|exact Hpre'].
      rewrite Hcfg. simpl. lia.
Qed.

Lemma loopHead_run i s : LoopPre i s -> RunInv (loopHead i s).
Proof. intros. by apply loopFrom_run. Qed.

Lemma critical_run e s :
  (approvals (trace s) <= 1)%nat -> attempts (trace s) = [] ->
  approvedLogged s = false -> RunInv (critical e s).
Proof. intros. unfold RunInv. simpl. repeat split; assumption. Qed.

Lemma approved_run s :
  (approvals (trace s) <= 1)%nat -> attempts (trace s) = [] ->
  RunInv (approved s).
Proof.
  intros Happ Hatt. apply loopHead_run.
  unfold LoopPre. simpl. rewrite Hatt.
  repeat split; [exact Happ|lia|constructor].
Qed.

Lemma start_run s : RunInv (start s).
Proof.
  unfold start. destruct (Ethers.parseUnits _ _).
  - unfold RunInv. simpl. repeat split.
  - apply critical_run; simpl; [unfold approvals; simpl; lia|reflexivity..].
Qed.

(** Reactions that touch neither the stage, the trace nor the lines that
    matter keep the invariant. *)
Lemma RunInv_transfer s s' :
  stage s' = stage s -> config s' = config s -> trace s' = trace s ->
  approvedLogged s' = approvedLogged s -> failedLogged s' = failedLogged s ->
  (stopRequested s = true -> stopRequested s' = true) ->
  RunInv s -> RunInv s'.
Proof.
  unfold RunInv, LoopPre, count. intros -> -> -> -> -> Hstop.
  destruct (stage s); try tauto.
  destruct how; tauto.
Qed.

Lemma step_run s ev s' : RunInv s -> step s ev = Some s' -> RunInv s'.
Proof.
  intros Hinv Hstep.
  destruct ev; unfold step in Hstep.
  - destruct (stage s); simplify_eq; apply start_run.
  - destruct (running (stage s)); simplify_eq.
    by eapply RunInv_transfer; [..|exact Hinv].
  - assert (s' = setService (cleanup (service s)) s) as ->
      by (destruct (stage s); congruence).
    by eapply RunInv_transfer; [..|exact Hinv].
  - unfold RunInv in Hinv.
    destruct (stage s) eqn:Hst; simplify_eq; destruct r; simplify_eq.
    + destruct Hinv as (Happ & Hatt & Hlog).
      unfold RunInv. simpl. rewrite approvals_snoc, attempts_snoc, Happ, Hatt.
      repeat split. exact Hlog.
    + destruct Hinv as (Happ & Hatt & Hlog). apply critical_run; [lia|done..].
    + destruct Hinv as (Hi & Happ & Hlog & Hle & Hall & Hseq).
      destruct (Ethers.fitsUint256 _); simplify_eq.
      * unfold RunInv, LoopPre, dispatch. simpl.
        rewrite approvals_snoc, attempts_snoc. simpl.
        repeat split; [exact Hi|lia|exact Hlog|exact Hi| |].
        -- apply Forall_app. split; [by apply Forall_lt_weaken|].
           constructor; [lia|constructor].
        -- intros Hnf. rewrite (Hseq Hnf).
           change (0%nat :: seq 1 i) with (seq 0 (S i)). by rewrite seq_S.
      * apply catchSwap_run; try assumption; [by apply Forall_lt_weaken|].
        intros s0 Hpre _. by apply loopHead_run.
    + destruct Hinv as (Hi & Happ & Hlog & Hle & Hall & Hseq).
      apply catchSwap_run; try assumption; [by apply Forall_lt_weaken|].
      intros s0 Hpre _. by apply loopHead_run.
  - unfold RunInv in Hinv.
    destruct (stage s) eqn:Hst; simplify_eq.
    destruct Hinv as (Happ & Hatt & Hlog).
    destruct r as [allowance|e]; [destruct (_ <=? allowance)|]; simplify_eq.
    + apply approved_run; [lia|exact Hatt].
    + unfold RunInv. simpl. rewrite approvals_snoc, attempts_snoc, Happ, Hatt.
      repeat split. exact Hlog.
    + apply critical_run; [lia|done..].
  - unfold RunInv in Hinv.
    destruct (stage s) eqn:Hst; simplify_eq.
    destruct Hinv as (Happ & Hatt & Hlog).
    destruct r; simplify_eq.
    + unfold RunInv. simpl. rewrite approvals_snoc, attempts_snoc, Happ, Hatt.
      repeat split. exact Hlog.
    + apply critical_run; [lia|done..].
  - unfold RunInv in Hinv.
    destruct (stage s) eqn:Hst; simplify_eq.
    destruct Hinv as (Happ & Hatt & Hlog).
    destruct r; simplify_eq.
    + apply approved_run; [lia|exact Hatt].
    + apply critical_run; [lia|done..].
  - unfold RunInv in Hinv.
    destruct (stage s) eqn:Hst; simplify_eq.
    destruct Hinv as [Hi Hpre].
    apply swapUSDCtoETH_run; [exact Hi|exact Hpre|].
    intros s0 Hpre0 _. by apply loopHead_run.
  - unfold RunInv in Hinv.
    destruct (stage s) eqn:Hst; simplify_eq.
    destruct Hinv as (Hi & Happ & Hlog & Hle & Hall & Hseq).
    destruct r; simplify_eq.
    + unfold RunInv, LoopPre. simpl.
      rewrite approvals_snoc, attempts_snoc, app_nil_r. simpl.
      repeat split; try assumption. lia.
    + apply catchSwap_run; try assumption.
      intros s0 Hpre0 _. by apply loopHead_run.
  - unfold RunInv in Hinv.
    destruct (stage s) eqn:Hst; simplify_eq.
    destruct Hinv as [Hi Hpre]. by apply loopHead_run.
  - assert (s' = confirm h s) as ->
      by (destruct (stage s); case_bool_decide; congruence).
    by eapply RunInv_transfer; [..|exact Hinv].
Qed.


(** ** What the loop head does *)

Lemma loopHead_exhausted i s :
  totalSwaps (config s) <= Z.of_nat i -> loopHead i s = finish Exhausted s.
Proof.
  intros Hi. unfold loopHead.
  by replace (Z.to_nat (totalSwaps (config s) - Z.of_nat i)) with O by lia.
Qed.

Lemma loopHead_stopped i s :
  Z.of_nat i < totalSwaps (config s) -> stopRequested s = true ->
  loopHead i s = finish StopRequested (addLog error MStoppedByUser None s).
Proof.
  intros Hi Hstop. unfold loopHead.
  destruct (Z.to_nat (totalSwaps (config s) - Z.of_nat i)) as [|r] eqn:Hr; [lia|].
  simpl. by rewrite Hstop.
Qed.

Lemma loopHead_waits i s :
  Z.of_nat i < totalSwaps (config s) -> stopRequested s = false ->
  mustWait (service s) = true ->
  loopHead i s
  = setStage (SlotWait i)
      (call (Sleep (Some 200)) (addLog pending (MInitiating i) None s)).
Proof.
  intros Hi Hstop Hwait. unfold loopHead.
  destruct (Z.to_nat (totalSwaps (config s) - Z.of_nat i)) as [|r] eqn:Hr; [lia|].
  simpl. rewrite Hstop. unfold swapUSDCtoETH. simpl. by rewrite Hwait.
Qed.

Lemma loopHead_enters i s a :
  Z.of_nat i < totalSwaps (config s) -> stopRequested s = false ->
  mustWait (service s) = false ->
  Ethers.parseUnits (amountPerSwap (config s)) Ethers.usdc = Ok a ->
  loopHead i s
  = setStage (SwapAddress i a) (addLog pending (MInitiating i) None s).
Proof.
  intros Hi Hstop Hwait Ha. unfold loopHead.
  destruct (Z.to_nat (totalSwaps (config s) - Z.of_nat i)) as [|r] eqn:Hr; [lia|].
  simpl. rewrite Hstop. unfold swapUSDCtoETH. simpl.
  by rewrite Hwait, Ha.
Qed.

Lemma mustWait_empty s :
  pendingOf s = ∅ -> (0 < capacity s)%nat -> mustWait (service s) = false.
Proof.
  intros Hempty Hcap. apply mustWait_false.
  unfold getPendingTransactionCount. fold (pendingOf s).
  rewrite Hempty, map_size_empty. exact Hcap.
Qed.

(** ** How entries come and go *)

Lemma finish_empty how s : pendingOf (finish how s) = ∅.
Proof. reflexivity. Qed.

Lemma catchSwap_empty next i e s :
  (forall s', pendingOf s' = ∅ -> pendingOf (next s') = ∅) ->
  pendingOf s = ∅ -> pendingOf (catchSwap next i e s) = ∅.
Proof.
  intros Hnext Hs. unfold catchSwap.
  destruct (isUserRejection e); [reflexivity|]. by apply Hnext.
Qed.

Lemma swapUSDCtoETH_empty next i s :
  (forall s', pendingOf s' = ∅ -> pendingOf (next s') = ∅) ->
  pendingOf s = ∅ -> pendingOf (swapUSDCtoETH next i s) = ∅.
Proof.
  intros Hnext Hs. unfold swapUSDCtoETH.
  destruct (mustWait (service s)); [exact Hs|].
  destruct (Ethers.parseUnits _ _); [exact Hs|]. by apply catchSwap_empty.
Qed.

Lemma loopFrom_empty r : forall i s,
  pendingOf s = ∅ -> pendingOf (loopFrom r i s) = ∅.
Proof.
  induction r as [|r IH]; intros i s Hs; simpl; [reflexivity|].
  destruct (stopRequested s); [reflexivity|].
  apply swapUSDCtoETH_empty; [|exact Hs]. intros s'. apply IH.
Qed.

Lemma loopHead_empty i s : pendingOf s = ∅ -> pendingOf (loopHead i s) = ∅.
Proof. apply loopFrom_empty. Qed.

(** A reaction either leaves no entry that was not there, or it is the
    one that calls [router.execute]. *)
Lemma step_adds s ev s' :
  SlotInv s -> step s ev = Some s' ->
  dom (pendingOf s') ⊆ dom (pendingOf s) \/
  exists i a r, stage s = SwapAddress i a /\ ev = AddressSettled (Ok r) /\
                Ethers.fitsUint256 a = true /\ s' = dispatch i s.
Proof.
  intros Hinv Hstep.
  destruct ev; unfold step in Hstep.
  - left. assert (s' = start s) as -> by (destruct (stage s); congruence).
    unfold start. by destruct (Ethers.parseUnits _ _).
  - left. destruct (running (stage s)); by simplify_eq.
  - left. assert (s' = setService (cleanup (service s)) s) as ->
      by (destruct (stage s); congruence).
    unfold pendingOf. simpl. set_solver.
  - unfold SlotInv in Hinv.
    destruct (stage s) eqn:Hst; simplify_eq; destruct r; simplify_eq.
    + by left.
    + left. unfold critical. rewrite finish_empty. set_solver.
    + destruct (Ethers.fitsUint256 _) eqn:Hfit; simplify_eq.
      * right. by eauto 8.
      * left. rewrite catchSwap_empty; [set_solver| |apply Hinv].
        intros; by apply loopHead_empty.
    + left. rewrite catchSwap_empty; [set_solver| |apply Hinv].
      intros; by apply loopHead_empty.
  - left. unfold SlotInv in Hinv.
    destruct (stage s) eqn:Hst; simplify_eq.
    destruct r; [destruct (_ <=? _)|]; simplify_eq.
    + unfold approved. rewrite loopHead_empty; [set_solver|exact Hinv].
    + done.
    + unfold critical. rewrite finish_empty. set_solver.
  - left. destruct (stage s); simplify_eq. destruct r; simplify_eq; [done|].
    unfold critical. rewrite finish_empty. set_solver.
  - left. unfold SlotInv in Hinv.
    destruct (stage s) eqn:Hst; simplify_eq. destruct r; simplify_eq.
    + unfold approved. rewrite loopHead_empty; [set_solver|exact Hinv].
    + unfold critical. rewrite finish_empty. set_solver.
  - left. unfold SlotInv in Hinv.
    destruct (stage s) eqn:Hst; simplify_eq.
    rewrite swapUSDCtoETH_empty; [set_solver| |exact Hinv].
    intros; by apply loopHead_empty.
  - left. unfold SlotInv in Hinv.
    destruct (stage s) eqn:Hst; simplify_eq.
    destruct Hinv as [Hdom _]. destruct r; simplify_eq.
    + unfold pendingOf. simpl. rewrite dom_delete_L.
      by apply subseteq_difference_l.
    + rewrite catchSwap_empty; [set_solver| |by apply settle_empty].
      intros; by apply loopHead_empty.
  - left. unfold SlotInv in Hinv.
    destruct (stage s) eqn:Hst; simplify_eq.
    rewrite loopHead_empty; [set_solver|exact Hinv].
  - left. assert (s' = confirm h s) as ->
      by (destruct (stage s); case_bool_decide; congruence).
    done.
Qed.

(** An entry is in the map only while its swap is in flight. *)
Lemma SlotInv_in_flight s txId :
  SlotInv s -> txId ∈ dom (pendingOf s) -> exists i, stage s = InFlight i txId.
Proof.
  unfold SlotInv. intros Hinv Hin.
  destruct (stage s) eqn:Hst;
    try (rewrite Hinv, dom_empty_L in Hin; set_solver).
  - destruct Hinv as [Hinv _]. rewrite Hinv, dom_empty_L in Hin. set_solver.
  - destruct Hinv as [Hdom _]. eexists. f_equal. set_solver.
Qed.

(** An entry goes away only when its dispatch settles or the component
    unmounts. *)
Lemma step_removes s ev s' txId :
  SlotInv s -> step s ev = Some s' ->
  txId ∈ dom (pendingOf s) -> txId ∉ dom (pendingOf s') ->
  exists i, stage s = InFlight i txId /\
            (ev = Unmount \/ exists r, ev = Dispatched r).
Proof.
  intros Hinv Hstep Hin Hout.
  destruct (SlotInv_in_flight _ _ Hinv Hin) as [i Hst].
  exists i. split; [exact Hst|].
  destruct ev; unfold step in Hstep; try rewrite Hst in Hstep;
    simpl in Hstep; simplify_eq; try (by left); try (by right; eauto).
  case_bool_decide; simplify_eq. by destruct Hout.
Qed.


Lemma SlotInv_size s :
  SlotInv s -> (getPendingTransactionCount (service s) <= capacity s)%nat.
Proof.
  unfold SlotInv, getPendingTransactionCount. fold (pendingOf s).
  destruct (stage s); intros Hinv;
    try (rewrite Hinv, map_size_empty; lia).
  - destruct Hinv as [-> _]. rewrite map_size_empty. lia.
  - destruct Hinv as [Hdom Hcap].
    rewrite <- size_dom. apply subseteq_size in Hdom.
    rewrite size_singleton in Hdom. lia.
Qed.

(** After the run has ended only a new start changes its trace, its log
    or its stage. *)
Lemma ended_stays how evs : forall s s',
  stage s = Ended how -> ~ In Start evs -> run s evs = Some s' ->
  stage s' = Ended how /\ trace s' = trace s /\ logs s' = logs s.
Proof.
  induction evs as [|ev evs IH]; intros s s' Hst Hns Hrun; simpl in Hrun.
  - by simplify_eq.
  - destruct (step s ev) as [s1|] eqn:Hstep; [|discriminate].
    assert (stage s1 = Ended how /\ trace s1 = trace s /\ logs s1 = logs s)
      as (Hst1 & Ht1 & Hl1).
    { destruct ev; unfold step in Hstep; try rewrite Hst in Hstep;
        simpl in Hstep; simplify_eq; try done.
      - destruct Hns. by left.
      - case_bool_decide; by simplify_eq. }
    destruct (IH s1 s' Hst1) as (? & ? & ?); [|exact Hrun|].
    + intros Hin. apply Hns. by right.
    + repeat split; congruence.
Qed.

(** ** The test on the message *)

Lemma startsWith_lower s : forall t,
  JS.startsWith s t = true ->
  JS.startsWith (JS.toLowerCase s) (JS.toLowerCase t) = true.
Proof.
  induction s as [|a s IH]; intros [|b t]; simpl; try done.
  destruct (Ascii.eqb a b) eqn:Hab; [|done].
  apply Ascii.eqb_eq in Hab as ->. rewrite Ascii.eqb_refl. apply IH.
Qed.

Lemma includes_lower s t :
  JS.includes s t = true ->
  JS.includes (JS.toLowerCase s) (JS.toLowerCase t) = true.
Proof.
  induction s as [|a s IH]; simpl.
  - rewrite !orb_false_r. apply (startsWith_lower "").
  - intros [H|H]%orb_true_iff; apply orb_true_iff.
    + left. by apply (startsWith_lower (String a s)).
    + right. by apply IH.
Qed.

Lemma isUserRejection_contains e :
  JS.includes (message e) "user rejected" = true \/
  JS.includes (message e) "4001" = true ->
  isUserRejection e = true.
Proof.
  unfold isUserRejection.
  intros [H|H]; apply includes_lower in H; apply orb_true_iff;
    [by left|by right].
Qed.


(** ** What the loop head adds to the trace and the log *)

Lemma Grows_refl s : Grows s s.
Proof. repeat split. by exists []. Qed.

Lemma Grows_trans s1 s2 s3 : Grows s1 s2 -> Grows s2 s3 -> Grows s1 s3.
Proof.
  intros (Ha & Hb & l & Hl) (Ha' & Hb' & l' & Hl').
  repeat split; [congruence..|]. exists (l' ++ l). by rewrite Hl', Hl, app_assoc.
Qed.

Lemma addLog_grows st l h s : Grows s (addLog st l h s).
Proof. repeat split. by exists [mkLog st l h]. Qed.

Lemma finish_grows how s : Grows s (finish how s).
Proof. repeat split. by exists [mkLog pending MFinished None]. Qed.

Lemma catchSwap_grows next i e s :
  (forall s', Grows s' (next s')) -> Grows s (catchSwap next i e s).
Proof.
  intros Hnext. unfold catchSwap. destruct (isUserRejection e).
  - eapply Grows_trans; [apply addLog_grows|].
    eapply Grows_trans; [apply addLog_grows|apply finish_grows].
  - eapply Grows_trans; [apply addLog_grows|apply Hnext].
Qed.

Lemma swapUSDCtoETH_grows next i s :
  (forall s', Grows s' (next s')) -> Grows s (swapUSDCtoETH next i s).
Proof.
  intros Hnext. unfold swapUSDCtoETH.
  destruct (mustWait (service s)).
  - split; [|split; [|by exists []]]; simpl.
    + rewrite approvals_snoc. simpl. lia.
    + by rewrite attempts_snoc, app_nil_r.
  - destruct (Ethers.parseUnits _ _); [repeat split; by exists []|].
    by apply catchSwap_grows.
Qed.

Lemma loopFrom_grows r : forall i s, Grows s (loopFrom r i s).
Proof.
  induction r as [|r IH]; intros i s; simpl; [apply finish_grows|].
  destruct (stopRequested s).
  - eapply Grows_trans; [apply addLog_grows|apply finish_grows].
  - eapply Grows_trans; [apply addLog_grows|].
    apply swapUSDCtoETH_grows. intros s'. apply IH.
Qed.

Lemma loopHead_grows i s : Grows s (loopHead i s).
Proof. apply loopFrom_grows. Qed.

Lemma Grows_approved s s' :
  Grows s s' -> approvedLogged s = true -> approvedLogged s' = true.
Proof.
  intros (_ & _ & l & Hl) H. unfold approvedLogged in *.
  rewrite Hl, existsb_app, H. apply orb_true_r.
Qed.

Lemma Grows_In s s' x : Grows s s' -> In x (logs s) -> In x (logs s').
Proof. intros (_ & _ & l & ->) H. apply in_app_iff. by right. Qed.

(** ** Single reactions *)

Lemma step_swap_address s i a r :
  stage s = SwapAddress i a -> Ethers.fitsUint256 a = true ->
  step s (AddressSettled (Ok r)) = Some (dispatch i s).
Proof. intros Hst Hfit. unfold step. by rewrite Hst, Hfit. Qed.

Lemma step_dispatched_ok s i txId h :
  stage s = InFlight i txId ->
  step s (Dispatched (Ok h))
  = Some (setStage (Delay i)
            (call (Sleep (Some 15000))
               (addLog success (MSent i) (Some h)
                  (submit h (setService (settle txId (service s)) s))))).
Proof. intros Hst. unfold step. by rewrite Hst. Qed.

Lemma step_delay s i :
  stage s = Delay i -> step s DelayTimer = Some (loopHead (S i) s).
Proof. intros Hst. unfold step. by rewrite Hst. Qed.

Lemma step_fails s i ev e :
  failsAt s i ev e ->
  exists s1, step s ev = Some (catchSwap (loopHead (S i)) i e s1) /\
             Frame s s1 /\ logs s1 = logs s /\ trace s1 = trace s /\
             stopRequested s1 = stopRequested s /\
             (SlotInv s -> pendingOf s1 = ∅ /\ (0 < capacity s1)%nat).
Proof.
  intros [(txId & Hst & ->)|[(a & Hst & ->)|(a & r & Hst & -> & Hfit & ->)]];
    unfold step; rewrite Hst.
  - eexists. split; [reflexivity|]. split; [by apply Frame_same_trace|].
    do 3 (split; [reflexivity|]). unfold SlotInv. rewrite Hst.
    intros [Hdom Hcap]. split; [by apply settle_empty|exact Hcap].
  - exists s. split; [reflexivity|]. split; [apply Frame_refl|].
    do 3 (split; [reflexivity|]). unfold SlotInv. by rewrite Hst.
  - exists s. rewrite Hfit. split; [reflexivity|]. split; [apply Frame_refl|].
    do 3 (split; [reflexivity|]). unfold SlotInv. by rewrite Hst.
Qed.

(** ** The run in which everything succeeds *)

Lemma happy_loop hashes a n : forall i s,
  pendingOf s = ∅ -> (0 < capacity s)%nat -> stopRequested s = false ->
  Ethers.parseUnits (amountPerSwap (config s)) Ethers.usdc = Ok a ->
  Ethers.fitsUint256 a = true ->
  totalSwaps (config s) = Z.of_nat (i + n) ->
  exists s', run (loopHead i s) (happySwaps hashes n i) = Some s' /\
             stage s' = Ended Exhausted /\
             approvedLogged s' = approvedLogged s /\
             failedLogged s' = failedLogged s /\
             stopRequested s' = false.
Proof.
  induction n as [|n IH]; intros i s Hempty Hcap Hstop Ha Hfit Htotal.
  - rewrite loopHead_exhausted by lia. by eexists.
  - rewrite (loopHead_enters i s a); [|lia|exact Hstop| |exact Ha];
      [|by apply mustWait_empty].
    cbn [happySwaps run].
    erewrite step_swap_address; [|reflexivity|exact Hfit].
    erewrite step_dispatched_ok; [|reflexivity].
    erewrite step_delay; [|reflexivity].
    match goal with |- context [loopHead (S i) ?s3] =>
      destruct (IH (S i) s3) as (s' & Hrun & Hst & Hal & Hfl & Hsr) end.
    + unfold pendingOf. simpl. fold (pendingOf s). rewrite Hempty.
      rewrite delete_insert_eq. apply delete_empty.
    + exact Hcap.
    + exact Hstop.
    + exact Ha.
    + exact Hfit.
    + simpl. lia.
    + exists s'. by repeat split.
Qed.

(** ** Every reachable state *)

Lemma init_inv cap cfg out : Inv cap cfg out (init cap cfg out).
Proof. by split; try done; intros j []. Qed.

Lemma step_inv cap cfg out s ev s' :
  Inv cap cfg out s -> step s ev = Some s' -> Inv cap cfg out s'.
Proof.
  intros [Hc Ho Hm Hw Ha Hs Hr] Hstep.
  destruct (step_frame _ _ _ Hstep) as (Hc' & Ho' & Hm' & Hw').
  split; try congruence.
  - intros j Hj. by apply (Hw j), Hw'.
  - by eapply step_amount.
  - by eapply step_slot.
  - by eapply step_run.
Qed.

Lemma run_inv cap cfg out evs : forall s s',
  Inv cap cfg out s -> run s evs = Some s' -> Inv cap cfg out s'.
Proof.
  induction evs as [|ev evs IH]; intros s s' Hinv Hrun; simpl in Hrun.
  - by simplify_eq.
  - destruct (step s ev) as [s1|] eqn:Hstep; [|discriminate].
    eapply IH; [|exact Hrun]. by eapply step_inv.
Qed.

Lemma reachable_inv cap cfg out s :
  reachable cap cfg out s -> Inv cap cfg out s.
Proof. intros [evs Hrun]. eapply run_inv; [apply init_inv|exact Hrun]. Qed.
End AppFacts.

(** * The claims about the batch sender *)

(** C2.  In slow gas mode, when the latest block carries a base fee (the
    script's own test: the block exists and its [baseFeePerGas] is neither
    [null] nor [0n]) and the two configured values parse, every submission
    of the script carries [maxPriorityFeePerGas] equal to the configured
    priority and [maxFeePerGas] equal to base fee + configured addition +
    priority, all in wei.  With nothing configured the priority is
    0.1 gwei = 100000000 wei, and with a base fee of 10 gwei and the default
    addition of 1 gwei the maximum fee is 11.1 gwei = 11100000000 wei. *)
Theorem slow_gas_fees env w tr1 tr2 i ov baseFee priority extra :
  fst (Batch.main env w) = tr1 ++ Execute i ov :: tr2 ->
  Batch.SLOW_GAS env = true ->
  Batch.getBlock w i = Ok (Some (Batch.mkBlock (Some baseFee))) ->
  baseFee <> 0 ->
  Ethers.parseUnits (Batch.priorityGwei env) Ethers.gwei = Ok priority ->
  Ethers.parseUnits (Batch.MAXFEE_ADD_GWEI env) Ethers.gwei = Ok extra ->
  maxPriorityFeePerGas ov = Some priority /\
  maxFeePerGas ov = Some (baseFee + extra + priority) /\
  (env !! "PRIORITY_GWEI" = None -> priority = 100000000) /\
  (env !! "PRIORITY_GWEI" = None -> env !! "MAXFEE_ADD_GWEI" = None ->
   baseFee = 10000000000 ->
   maxFeePerGas ov = Some 11100000000 /\
   maxPriorityFeePerGas ov = Some 100000000).
Proof.
  intros Htr Hslow Hblock Hbase Hprio Hextra.
  apply main_execute in Htr as (_ & -> & _).
  assert (maxPriorityFeePerGas (Batch.overridesOf env w i) = Some priority /\
          maxFeePerGas (Batch.overridesOf env w i)
          = Some (baseFee + extra + priority)) as [Hp Hm].
  { unfold Batch.overridesOf, Batch.slowGas.
    rewrite Hslow, Hblock, Hprio, Hextra. simpl.
    destruct baseFee; [done|by split..]. }
  split; [exact Hp|]. split; [exact Hm|].
  assert (env !! "PRIORITY_GWEI" = None -> priority = 100000000) as Hdefault.
  { intros Hnone. unfold Batch.priorityGwei in Hprio. rewrite Hnone in Hprio.
    vm_compute in Hprio. by injection Hprio as <-. }
  split; [exact Hdefault|].
  intros Hnone Hnone' ->. rewrite Hp, Hm, (Hdefault Hnone).
  unfold Batch.MAXFEE_ADD_GWEI in Hextra. rewrite Hnone' in Hextra.
  vm_compute in Hextra. injection Hextra as <-. by split.
Qed.

Lemma slow_gas_fees_witness :
  let tr := fst (Batch.main Sample.env Sample.world) in
  let ov := Batch.overridesOf Sample.env Sample.world 0 in
  tr = take 5 tr ++ Execute 0 ov :: drop 6 tr /\
  maxPriorityFeePerGas ov = Some 100000000 /\
  maxFeePerGas ov = Some 11100000000.
Proof.
  intros tr ov.
  assert (tr = take 5 tr ++ Execute 0 ov :: drop 6 tr) as Htr
    by (vm_compute; reflexivity).
  split; [exact Htr|].
  destruct (slow_gas_fees Sample.env Sample.world (take 5 tr) (drop 6 tr) 0 ov
              10000000000 100000000 1000000000)
    as (_ & _ & _ & Hdefault);
    [exact Htr | reflexivity | reflexivity | discriminate
    | vm_compute; reflexivity | vm_compute; reflexivity |].
  destruct Hdefault as [Hmax Hprio]; [reflexivity..|].
  split; [exact Hprio|exact Hmax].
Defined.



(** C6.  The batch script exits with code 1, before any call, when
    [PRIVATE_KEY] is missing from the environment (or empty); it exits with
    code 1 when the approval step fails; and when the approval step
    succeeds it exits with code 0 after the loop, whatever the outcome of
    each swap: a swap that cannot be sent is logged and the loop goes on,
    so that every index is submitted when the amount can be encoded. *)
Theorem batch_exit_codes env w :
  (env !! "PRIVATE_KEY" = None \/ env !! "PRIVATE_KEY" = Some "" ->
   Batch.main env w = ([], Batch.Exit 1)) /\
  (forall owner amount,
     JS.falsy (Batch.PRIVATE_KEY env) = false ->
     Batch.newWallet w = Ok owner ->
     Ethers.parseUnits (Batch.AMOUNT env) Ethers.usdc = Ok amount ->
     (Batch.approvalSucceeds amount (Batch.TOTAL_SWAPS env) w = false ->
      snd (Batch.main env w) = Batch.Exit 1 /\
      attempts (fst (Batch.main env w)) = []) /\
     (Batch.approvalSucceeds amount (Batch.TOTAL_SWAPS env) w = true ->
      snd (Batch.main env w) = Batch.Exit 0 /\
      (Ethers.fitsUint256 amount = true ->
       attempts (fst (Batch.main env w))
       = seq 0 (Batch.iterations (Batch.TOTAL_SWAPS env)) /\
       forall i e, (i < Batch.iterations (Batch.TOTAL_SWAPS env))%nat ->
                   Batch.execute w i = Err e ->
                   In (LogFailed i e) (fst (Batch.main env w))))).
Proof.
  split.
  - intros Hkey. unfold Batch.main, Batch.PRIVATE_KEY.
    by destruct Hkey as [-> | ->].
  - intros owner amount Hkey Hwallet Hamount.
    unfold Batch.main, Batch.approvalSucceeds.
    rewrite Hkey, Hwallet, Hamount.
    pose proof (approvalStep_quiet w amount (Batch.TOTAL_SWAPS env)) as Hquiet.
    destruct (Batch.approvalStep _ _ _) as [tr [[]|e]]; simpl in *.
    + split; [discriminate|]. intros _. split; [reflexivity|].
      intros Hfit. split.
      * by rewrite attempts_app, Hquiet, attempts_swapLoop, Hfit.
      * intros i e Hi He. apply in_app_iff. right.
        apply (swapLoop_In _ _ _ _ _ _ 0%nat i); [lia|].
        by apply iteration_logs_failure.
    + split; [by intros _|discriminate].
Qed.

Lemma batch_exit_codes_witness :
  Batch.main (delete "PRIVATE_KEY" Sample.env) Sample.world = ([], Batch.Exit 1) /\
  snd (Batch.main Sample.env Sample.worldNoAllowance) = Batch.Exit 1 /\
  snd (Batch.main Sample.env Sample.world) = Batch.Exit 0 /\
  attempts (fst (Batch.main Sample.env Sample.world)) = [0; 1; 2]%nat /\
  In (LogFailed 1 (mkError "nonce too low")) (fst (Batch.main Sample.env Sample.world)).
Proof.
  split.
  - apply (batch_exit_codes (delete "PRIVATE_KEY" Sample.env) Sample.world).
    left. reflexivity.
  - destruct (batch_exit_codes Sample.env Sample.worldNoAllowance) as [_ Hbad].
    destruct (Hbad "0xowner" 10000) as [Hfail _]; [reflexivity..|].
    split; [apply Hfail; reflexivity|].
    destruct (batch_exit_codes Sample.env Sample.world) as [_ Hgood].
    destruct (Hgood "0xowner" 10000) as [_ Hok]; [reflexivity..|].
    destruct Hok as [Hexit Hloop]; [reflexivity|].
    split; [exact Hexit|].
    destruct Hloop as [Hatt Hlog]; [reflexivity|].
    split; [exact Hatt|].
    apply Hlog; [vm_compute; lia|reflexivity].
Defined.

(** * The claims about the interactive loop *)

(** C1.  In every state a run of the interactive service can reach, the
    capacity is the configured one and the number of pending transactions
    does not exceed it.  A reaction adds an entry only when it is the
    continuation of [swapUSDCtoETH] after [waitForTransactionSlot] has
    returned, and then the count is strictly below the capacity; the slot
    wait never lets a call through while the count has reached the
    capacity, it sets its timer again. *)
Theorem pending_never_exceeds_capacity cap cfg out evs s :
  App.run (App.init cap cfg out) evs = Some s ->
  Service.MAX_PENDING_TRANSACTIONS (App.service s) = cap /\
  (Service.getPendingTransactionCount (App.service s) <= cap)%nat /\
  (forall ev s' txId,
     App.step s ev = Some s' ->
     txId ∉ dom (App.pendingOf s) -> txId ∈ dom (App.pendingOf s') ->
     (Service.getPendingTransactionCount (App.service s) < cap)%nat /\
     exists i a r, App.stage s = App.SwapAddress i a /\
                   ev = App.AddressSettled (Ok r) /\ s' = App.dispatch i s) /\
  (forall i a, App.stage s = App.SwapAddress i a ->
               Service.mustWait (App.service s) = false) /\
  (forall i, App.stage s = App.SlotWait i ->
             Service.mustWait (App.service s) = true ->
             exists s', App.step s App.SlotTimer = Some s' /\
                        App.stage s' = App.SlotWait i /\
                        App.pendingOf s' = App.pendingOf s).
Proof.
  intros Hrun.
  destruct (reachable_inv cap cfg out s) as [_ _ Hcap _ _ Hslot _];
    [by exists evs|].
  split; [exact Hcap|]. split; [rewrite <- Hcap; by apply SlotInv_size|].
  split; [|split].
  - intros ev s' txId Hstep Hnew Hin.
    destruct (step_adds _ _ _ Hslot Hstep) as [Hsub|(i & a & r & Hst & -> & _ & ->)].
    + destruct Hnew. by apply Hsub.
    + unfold App.SlotInv in Hslot. rewrite Hst in Hslot.
      destruct Hslot as [Hempty Hpos]. split; [|by eauto 6].
      unfold Service.getPendingTransactionCount. fold (App.pendingOf s).
      rewrite Hempty, map_size_empty, <- Hcap. exact Hpos.
  - intros i a Hst. unfold App.SlotInv in Hslot. rewrite Hst in Hslot.
    destruct Hslot as [Hempty Hpos]. by apply mustWait_empty.
  - intros i Hst Hwait. eexists. unfold App.step. rewrite Hst.
    split; [reflexivity|]. unfold App.swapUSDCtoETH. by rewrite Hwait.
Qed.

Lemma pending_never_exceeds_capacity_witness :
  App.stage Sample.inFlight = App.InFlight 0 "k3j9x0q2a" /\
  (Service.getPendingTransactionCount (App.service Sample.inFlight) <= 1)%nat.
Proof.
  assert (App.run (App.init 1 Sample.config Sample.outside) (Sample.history 4)
          = Some Sample.inFlight) as Hrun by (vm_compute; reflexivity).
  split; [vm_compute; reflexivity|].
  exact (proj1 (proj2 (pending_never_exceeds_capacity
                         1 Sample.config Sample.outside (Sample.history 4)
                         Sample.inFlight Hrun))).
Defined.




(** C4.  When the call of [swapUSDCtoETH] for index [i] is rejected, the
    failure is recorded with status [error].  If the error is classified
    as a rejection by the user (its lower-cased message contains
    "user rejected" or "4001", which holds in particular when the message
    itself contains one of them), the run ends, left by the [break]: no
    call is made any more, no index above [i] has been or will be
    submitted, and only a new start changes that.  Any other failure
    passes control to the loop head at index [i + 1]: when swaps remain
    and no stop was requested, swap [i + 1] is initiated at once. *)
Theorem user_rejection_stops_the_loop cap cfg out evs s i ev e :
  App.run (App.init cap cfg out) evs = Some s ->
  App.failsAt s i ev e ->
  exists s',
    App.step s ev = Some s' /\
    In (App.mkLog App.error (App.MFailed i (message e)) None) (App.logs s') /\
    (JS.includes (message e) "user rejected" = true \/
     JS.includes (message e) "4001" = true ->
     App.isUserRejection e = true) /\
    (App.isUserRejection e = true ->
     App.stage s' = App.Ended App.UserRejected /\
     App.Stopped App.UserRejected /\
     App.trace s' = App.trace s /\
     Forall (fun j => (j <= i)%nat) (attempts (App.trace s')) /\
     forall evs' s'',
       ~ In App.Start evs' -> App.run s' evs' = Some s'' ->
       App.stage s'' = App.Ended App.UserRejected /\
       App.trace s'' = App.trace s') /\
    (App.isUserRejection e = false ->
     (Z.of_nat (S i) < App.totalSwaps cfg -> App.stopRequested s = false ->
      exists a,
        App.stage s' = App.SwapAddress (S i) a /\
        App.trace s' = App.trace s /\
        App.logs s'
        = App.mkLog App.pending (App.MInitiating (S i)) None
            :: App.mkLog App.error (App.MFailed i (message e)) None
            :: App.logs s) /\
     (App.totalSwaps cfg <= Z.of_nat (S i) ->
      App.stage s' = App.Ended App.Exhausted /\ App.trace s' = App.trace s)).
Proof.
  intros Hrun Hfail.
  destruct (reachable_inv cap cfg out s) as [Hcfg _ _ _ Hamount Hslot Hrinv];
    [by exists evs|].
  assert (App.running (App.stage s) = true) as Hrunning
    by (destruct Hfail as [(? & -> & _)|[(? & -> & _)|(? & ? & -> & _)]];
        reflexivity).
  destruct (AmountInv_parsed _ Hamount Hrunning) as [a Ha].
  assert (Forall (fun j => (j <= i)%nat) (attempts (App.trace s))) as Hall.
  { unfold App.RunInv in Hrinv.
    destruct Hfail as [(? & Hst & _)|[(? & Hst & _)|(? & ? & Hst & _)]];
      rewrite Hst in Hrinv;
      destruct Hrinv as (_ & _ & _ & _ & Hall & _);
      (eapply Forall_impl; [exact Hall|]); simpl; lia. }
  destruct (step_fails _ _ _ _ Hfail)
    as (s1 & Hstep & (Hc1 & _) & Hl1 & Ht1 & Hs1 & Hp1).
  destruct (Hp1 Hslot) as [Hempty Hpos].
  eexists. split; [exact Hstep|]. unfold App.catchSwap.
  split; [|split; [apply isUserRejection_contains|]].
  { destruct (App.isUserRejection e).
    - simpl. rewrite Hl1. by right; right; left.
    - eapply Grows_In; [apply loopHead_grows|]. simpl. by left. }
  destruct (App.isUserRejection e);
    [split; [intros _|discriminate]|split; [discriminate|intros _]].
  - split; [reflexivity|]. split; [by right|]. split; [exact Ht1|].
    split; [simpl; by rewrite Ht1|].
    intros evs' s'' Hns Hrun'.
    pose proof (fun H => ended_stays App.UserRejected evs' _ s'' H Hns Hrun')
      as Hend.
    destruct (Hend eq_refl) as (Hst'' & Htr'' & _).
    split; [exact Hst''|exact Htr''].
  - split.
    + intros Hlt Hstop. exists a.
      rewrite (loopHead_enters _ _ a); simpl;
        [|by rewrite Hc1, Hcfg|by rewrite Hs1|by apply mustWait_empty
         |by rewrite Hc1].
      by rewrite Ht1, Hl1.
    + intros Hle. rewrite loopHead_exhausted by (simpl; by rewrite Hc1, Hcfg).
      split; [reflexivity|exact Ht1].
Qed.

Lemma user_rejection_stops_the_loop_witness :
  (exists s',
     App.step Sample.inFlight (App.Dispatched (Err Sample.rejected)) = Some s' /\
     App.stage s' = App.Ended App.UserRejected /\
     Forall (fun j => (j <= 0)%nat) (attempts (App.trace s'))) /\
  (exists s' a,
     App.step Sample.inFlight (App.Dispatched (Err Sample.refused)) = Some s' /\
     App.stage s' = App.SwapAddress 1 a).
Proof.
  assert (App.run (App.init 1 Sample.config Sample.outside) (Sample.history 4)
          = Some Sample.inFlight) as Hrun by (vm_compute; reflexivity).
  assert (App.stage Sample.inFlight = App.InFlight 0 "k3j9x0q2a") as Hst
    by (vm_compute; reflexivity).
  assert (App.stopRequested Sample.inFlight = false) as Hstop
    by (vm_compute; reflexivity).
  assert (App.isUserRejection Sample.rejected = true) as Hyes
    by (vm_compute; reflexivity).
  assert (App.isUserRejection Sample.refused = false) as Hno
    by (vm_compute; reflexivity).
  assert (forall e, App.failsAt Sample.inFlight 0 (App.Dispatched (Err e)) e)
    as Hfails by (intros e; left; exists "k3j9x0q2a"; split; [exact Hst|reflexivity]).
  split.
  - destruct (user_rejection_stops_the_loop
                1 Sample.config Sample.outside (Sample.history 4)
                Sample.inFlight 0%nat (App.Dispatched (Err Sample.rejected))
                Sample.rejected Hrun (Hfails Sample.rejected))
      as (s' & Hstep & _ & _ & Hrej & _).
    destruct (Hrej Hyes) as (Hend & _ & _ & Hall & _).
    exists s'. split; [exact Hstep|]. split; [exact Hend|exact Hall].
  - destruct (user_rejection_stops_the_loop
                1 Sample.config Sample.outside (Sample.history 4)
                Sample.inFlight 0%nat (App.Dispatched (Err Sample.refused))
                Sample.refused Hrun (Hfails Sample.refused))
      as (s' & Hstep & _ & _ & _ & Hother).
    destruct (Hother Hno) as [Hnext _].
    assert (Z.of_nat 1 < App.totalSwaps Sample.config) as Hlt
      by (vm_compute; reflexivity).
    destruct (Hnext Hlt Hstop) as (a & Hstage & _).
    exists s', a. split; [exact Hstep|exact Hstage].
Defined.

(** * The claims about both programs *)

(** C7.  The batch script awaits the receipt of every swap it has sent
    before it goes on: in its trace each submission that was sent is
    followed at once by [tx.wait()], and every sent swap of a lower index
    has been awaited before a later submission.  The interactive loop
    never awaits the receipt of a swap: once the wallet has sent swap [i]
    the run sleeps its fixed 15000 ms, whatever the chain has confirmed, and
    the timer leads to the loop head at [i + 1], where, with swaps left, no
    stop requested and the pending map empty, the next call proceeds
    without any further call or wait. *)
Theorem batch_awaits_receipts_interactive_does_not :
  (forall env w tr1 tr2 j ov,
     fst (Batch.main env w) = tr1 ++ Execute j ov :: tr2 ->
     (isOk (Batch.execute w j) = true ->
      exists tr2', tr2 = WaitSwap j :: tr2') /\
     (forall i, (i < j)%nat -> isOk (Batch.execute w i) = true ->
                In (WaitSwap i) tr1)) /\
  (forall cap cfg out evs s,
     App.run (App.init cap cfg out) evs = Some s ->
     (forall j, ~ In (WaitSwap j) (App.trace s)) /\
     (forall i txId h,
        App.stage s = App.InFlight i txId ->
        exists s1,
          App.step s (App.Dispatched (Ok h)) = Some s1 /\
          App.stage s1 = App.Delay i /\
          App.trace s1 = App.trace s ++ [Sleep (Some 15000)] /\
          App.confirmed s1 = App.confirmed s /\
          App.step s1 App.DelayTimer = Some (App.loopHead (S i) s1) /\
          (Z.of_nat (S i) < App.totalSwaps cfg ->
           App.stopRequested s = false ->
           exists a,
             App.stage (App.loopHead (S i) s1) = App.SwapAddress (S i) a /\
             App.trace (App.loopHead (S i) s1) = App.trace s1))).
Proof.
  split.
  - intros env w tr1 tr2 j ov Htr.
    by apply main_execute in Htr as (_ & _ & Hnext & Hprev).
  - intros cap cfg out evs s Hrun.
    destruct (reachable_inv cap cfg out s) as [Hcfg _ _ Hnowait Hamount Hslot _];
      [by exists evs|].
    split; [exact Hnowait|].
    intros i txId h Hst.
    eexists. split; [by apply step_dispatched_ok|].
    do 3 (split; [reflexivity|]).
    split; [by apply step_delay|].
    intros Hlt Hstop.
    destruct (AmountInv_parsed _ Hamount) as [a Ha]; [by rewrite Hst|].
    unfold App.SlotInv in Hslot. rewrite Hst in Hslot.
    destruct Hslot as [Hdom Hpos].
    exists a. rewrite (loopHead_enters _ _ a).
    + by split.
    + simpl. by rewrite Hcfg.
    + exact Hstop.
    + apply mustWait_empty; [exact (settle_empty txId s Hdom)|exact Hpos].
    + exact Ha.
Qed.

Lemma batch_awaits_receipts_interactive_does_not_witness :
  In (WaitSwap 0) (take 10 (fst (Batch.main Sample.env Sample.world))) /\
  (exists s1 a,
     App.step Sample.inFlight (App.Dispatched (Ok "0xaa01")) = Some s1 /\
     App.stage (App.loopHead 1 s1) = App.SwapAddress 1 a).
Proof.
  destruct batch_awaits_receipts_interactive_does_not as [Hbatch Happ].
  split.
  - assert (fst (Batch.main Sample.env Sample.world)
            = take 10 (fst (Batch.main Sample.env Sample.world))
              ++ Execute 1 (Batch.overridesOf Sample.env Sample.world 1)
              :: drop 11 (fst (Batch.main Sample.env Sample.world))) as Htr
      by (vm_compute; reflexivity).
    destruct (Hbatch Sample.env Sample.world _ _ _ _ Htr) as [_ Hprev].
    apply (Hprev 0%nat); [lia|reflexivity].
  - assert (App.run (App.init 1 Sample.config Sample.outside) (Sample.history 4)
            = Some Sample.inFlight) as Hrun by (vm_compute; reflexivity).
    assert (App.stage Sample.inFlight = App.InFlight 0 "k3j9x0q2a") as Hst
      by (vm_compute; reflexivity).
    assert (App.stopRequested Sample.inFlight = false) as Hstop
      by (vm_compute; reflexivity).
    assert (Z.of_nat 1 < App.totalSwaps Sample.config) as Hlt
      by (vm_compute; reflexivity).
    destruct (Happ 1%nat Sample.config Sample.outside (Sample.history 4)
                Sample.inFlight Hrun) as [_ Hloop].
    destruct (Hloop 0%nat "k3j9x0q2a" "0xaa01" Hst)
      as (s1 & Hstep & _ & _ & _ & _ & Hnext).
    destruct (Hnext Hlt Hstop) as (a & Hstage & _).
    exists s1, a. split; [exact Hstep|exact Hstage].
Defined.

(** C9, as the code has it.  With [totalSwaps = N]: in the interactive
    loop, a run that has ended, whose allowance step succeeded, in which
    no swap call failed and no stop was requested, has left the loop by
    exhaustion, has submitted exactly the indices [0 .. N-1] in order, and
    has an empty pending map; such a run exists whenever the capacity is
    positive and the amount is a well-formed [uint256]: the history in
    which every awaited call succeeds ends that way.  In the batch script,
    a run that exits with code 0 (so its allowance step succeeded) and
    logs no failed swap has submitted exactly the indices [0 .. N-1]. *)
Theorem all_swaps_submitted_once_approved cap cfg out N :
  App.totalSwaps cfg = Z.of_nat N ->
  (forall evs s how,
     App.run (App.init cap cfg out) evs = Some s ->
     App.stage s = App.Ended how ->
     App.approvedLogged s = true -> App.failedLogged s = false ->
     App.stopRequested s = false ->
     how = App.Exhausted /\ attempts (App.trace s) = seq 0 N /\
     App.pendingOf s = ∅) /\
  (forall a hashes,
     (0 < cap)%nat ->
     Ethers.parseUnits (App.amountPerSwap cfg) Ethers.usdc = Ok a ->
     Ethers.fitsUint256 a = true ->
     exists s,
       App.run (App.init cap cfg out) (App.happyRun a hashes N) = Some s /\
       App.stage s = App.Ended App.Exhausted /\
       App.approvedLogged s = true /\ App.failedLogged s = false /\
       App.stopRequested s = false) /\
  (forall env w,
     Batch.TOTAL_SWAPS env = Some (Z.of_nat N) ->
     snd (Batch.main env w) = Batch.Exit 0 ->
     (forall i e, ~ In (LogFailed i e) (fst (Batch.main env w))) ->
     attempts (fst (Batch.main env w)) = seq 0 N).
Proof.
  intros Htotal. split; [|split].
  - intros evs s how Hrun Hst Happroved Hfailed Hstop.
    destruct (reachable_inv cap cfg out s) as [Hcfg _ _ _ _ Hslot Hrinv];
      [by exists evs|].
    unfold App.SlotInv in Hslot. unfold App.RunInv in Hrinv.
    rewrite Hst in Hslot, Hrinv. destruct Hrinv as [_ Hhow].
    destruct how.
    + destruct Hhow as [_ Hseq]. split; [reflexivity|]. split; [|exact Hslot].
      rewrite (Hseq Hfailed). unfold App.count. rewrite Hcfg, Htotal.
      by rewrite Nat2Z.id.
    + destruct Hhow as [_ Hs]. congruence.
    + destruct Hhow as [_ Hf]. congruence.
    + destruct Hhow as [Ha _]. congruence.
  - intros a hashes Hcap Ha Hfit. unfold App.happyRun. cbn [App.run].
    assert (App.step (App.init cap cfg out) App.Start
            = Some (App.start (App.init cap cfg out))) as -> by reflexivity.
    unfold App.start. cbn [App.config App.init]. rewrite Ha.
    match goal with |- context [App.step ?s0 (App.AddressSettled _)] =>
      assert (App.step s0 (App.AddressSettled (Ok "0xowner"))
              = Some (App.setStage (App.ApproveAllowance a) (App.call Allowance s0)))
        as -> by reflexivity end.
    match goal with |- context [App.step ?s0 (App.AllowanceSettled _)] =>
      assert (App.step s0 (App.AllowanceSettled (Ok a)) = Some (App.approved s0))
        as -> by (unfold App.step; simpl; by rewrite Z.leb_refl) end.
    unfold App.approved.
    match goal with |- context [App.loopHead 0 ?s0] =>
      destruct (happy_loop hashes a N 0%nat s0)
        as (s' & Hrun & Hst & Hal & Hfl & Hsr) end; try done.
    exists s'. by repeat split.
  - intros env w Hn Hexit Hnolog. unfold Batch.main in *.
    destruct (JS.falsy _); [discriminate|].
    destruct (Batch.newWallet w); [|discriminate].
    destruct (Ethers.parseUnits _ _) as [amount|]; [|discriminate].
    pose proof (approvalStep_quiet w amount (Batch.TOTAL_SWAPS env)) as Hquiet.
    destruct (Batch.approvalStep _ _ _) as [tr [[]|e]]; [|discriminate].
    simpl in *. rewrite attempts_app, Hquiet, attempts_swapLoop, Hn. simpl.
    rewrite Nat2Z.id.
    destruct (Ethers.fitsUint256 amount) eqn:Hfit; [reflexivity|].
    destruct N as [|N]; [reflexivity|]. exfalso.
    apply (Hnolog 0%nat (Batch.encodeError w)). apply in_app_iff. right.
    rewrite Hn. simpl. rewrite Nat2Z.id. cbn [Batch.swapLoop].
    apply in_app_iff. left. by apply iteration_unencodable.
Qed.

Lemma all_swaps_submitted_once_approved_witness :
  exists s,
    App.run (App.init 1 Sample.config Sample.outside)
            (App.happyRun 10000 Sample.hashes 2) = Some s /\
    App.stage s = App.Ended App.Exhausted /\
    attempts (App.trace s) = [0; 1]%nat /\ App.pendingOf s = ∅.
Proof.
  destruct (all_swaps_submitted_once_approved 1 Sample.config Sample.outside 2
              eq_refl) as (Hall & Hsome & _).
  assert (Ethers.parseUnits (App.amountPerSwap Sample.config) Ethers.usdc
          = Ok 10000) as Ha by (vm_compute; reflexivity).
  destruct (Hsome 10000 Sample.hashes (Nat.lt_0_1) Ha eq_refl)
    as (s & Hrun & Hst & Happroved & Hfailed & Hstop).
  destruct (Hall _ s App.Exhausted Hrun Hst Happroved Hfailed Hstop)
    as (_ & Hatt & Hempty).
  exists s. split; [exact Hrun|]. split; [exact Hst|].
  split; [exact Hatt|exact Hempty].
Defined.

(** C9, as it is written, fails.  With two swaps configured, when the
    allowance cannot be read the run ends after the allowance query: no
    swap call has failed and no stop was requested, yet nothing has been
    submitted.  The batch script behaves alike: it exits with code 1
    without a single submission and without a failed swap. *)
Lemma nothing_submitted_when_approval_fails :
  App.run Sample.initial
    [App.Start; App.AddressSettled (Ok "0xowner");
     App.AllowanceSettled (Err (mkError "could not detect network"))]
  = Some (Sample.after
            [App.Start; App.AddressSettled (Ok "0xowner");
             App.AllowanceSettled (Err (mkError "could not detect network"))]) /\
  attempts (App.trace (Sample.after
            [App.Start; App.AddressSettled (Ok "0xowner");
             App.AllowanceSettled (Err (mkError "could not detect network"))]))
  = [] /\
  attempts (fst (Batch.main Sample.env Sample.worldNoAllowance)) = [] /\
  Batch.TOTAL_SWAPS Sample.env = Some 3 /\
  ~ App.AllSwapsAttempted Sample.initial 2.
Proof.
  split; [vm_compute; reflexivity|]. split; [vm_compute; reflexivity|].
  split; [vm_compute; reflexivity|]. split; [vm_compute; reflexivity|].
  intros Hclaim.
  destruct (Hclaim
              [App.Start; App.AddressSettled (Ok "0xowner");
               App.AllowanceSettled (Err (mkError "could not detect network"))]
              (Sample.after
                 [App.Start; App.AddressSettled (Ok "0xowner");
                  App.AllowanceSettled (Err (mkError "could not detect network"))])
              App.Critical) as [Hatt _]; try (vm_compute; reflexivity).
  vm_compute in Hatt. discriminate Hatt.
Qed.

(** C10.  In the interactive service the allowance is compared with the
    amount of one swap only.  Whenever the allowance that comes back is at
    least that amount (the configured amount in 6-decimal units), even
    though it is below the amount times [totalSwaps], the reaction issues
    no approval: the success line is logged and control passes to the loop
    head at index 0; with a non-negative amount, no stop requested and a
    positive capacity, swap 0 is initiated at once. *)
Theorem interactive_allowance_covers_one_swap cap cfg out evs s a allowance :
  App.run (App.init cap cfg out) evs = Some s ->
  App.stage s = App.ApproveAllowance a ->
  a <= allowance -> allowance < a * App.totalSwaps cfg ->
  Ethers.parseUnits (App.amountPerSwap cfg) Ethers.usdc = Ok a /\
  exists s',
    App.step s (App.AllowanceSettled (Ok allowance)) = Some s' /\
    s' = App.loopHead 0 (App.addLog App.success App.MApproved None s) /\
    approvals (App.trace s') = 0%nat /\
    App.approvedLogged s' = true /\
    (0 <= a -> App.stopRequested s = false -> (0 < cap)%nat ->
     App.stage s' = App.SwapAddress 0 a /\
     App.trace s' = App.trace s /\
     In (App.mkLog App.pending (App.MInitiating 0) None) (App.logs s')).
Proof.
  intros Hrun Hst Hge Hlt.
  destruct (reachable_inv cap cfg out s) as [Hcfg _ Hcap _ Hamount Hslot Hrinv];
    [by exists evs|].
  unfold App.AmountInv in Hamount. unfold App.SlotInv in Hslot.
  unfold App.RunInv in Hrinv. rewrite Hst in Hamount, Hslot, Hrinv.
  destruct Hrinv as (Happ & _ & _).
  split; [by rewrite <- Hcfg|].
  eexists. split.
  { unfold App.step. rewrite Hst.
    by replace (a <=? allowance) with true by (symmetry; by apply Z.leb_le). }
  split; [reflexivity|]. unfold App.approved.
  pose proof (loopHead_grows 0 (App.addLog App.success App.MApproved None s))
    as Hgrows.
  split; [|split].
  - destruct Hgrows as (-> & _). exact Happ.
  - by apply (Grows_approved _ _ Hgrows).
  - intros Ha Hstop Hpos.
    rewrite (loopHead_enters _ _ a); simpl; try done.
    + split; [reflexivity|]. split; [reflexivity|by left].
    + rewrite Hcfg. nia.
    + apply mustWait_empty; [exact Hslot|]. by rewrite Hcap.
Qed.

Lemma interactive_allowance_covers_one_swap_witness :
  exists s',
    App.step (Sample.after (Sample.history 2)) (App.AllowanceSettled (Ok 10000))
    = Some s' /\
    approvals (App.trace s') = 0%nat /\
    App.stage s' = App.SwapAddress 0 10000.
Proof.
  assert (App.run (App.init 1 Sample.config Sample.outside) (Sample.history 2)
          = Some (Sample.after (Sample.history 2))) as Hrun
    by (vm_compute; reflexivity).
  assert (App.stage (Sample.after (Sample.history 2))
          = App.ApproveAllowance 10000) as Hst by (vm_compute; reflexivity).
  assert (App.stopRequested (Sample.after (Sample.history 2)) = false) as Hstop
    by (vm_compute; reflexivity).
  assert (10000 < 10000 * App.totalSwaps Sample.config) as Hlt
    by (vm_compute; reflexivity).
  destruct (interactive_allowance_covers_one_swap
              1 Sample.config Sample.outside (Sample.history 2)
              (Sample.after (Sample.history 2)) 10000 10000
              Hrun Hst (Z.le_refl 10000) Hlt)
    as (_ & s' & Hstep & _ & Happ & _ & Hnext).
  assert (0 <= 10000) as Hpos by (vm_compute; discriminate).
  destruct (Hnext Hpos Hstop Nat.lt_0_1) as (Hstage & _).
  exists s'. split; [exact Hstep|]. split; [exact Happ|exact Hstage].
Defined.

(** C5, where the code departs from it.  The interactive service with the
    form's amount 0.01 (10000 units), two swaps and an allowance of 10000:
    the cumulative amount 20000 is not covered, yet no approval is issued
    and swap 0 is initiated.  On the same figures the batch script, which
    multiplies by the number of swaps, issues its one approval of
    [MaxUint256] and awaits it. *)
Theorem interactive_approval_ignores_total :
  App.run Sample.initial (Sample.history 3) = Some (Sample.after (Sample.history 3)) /\
  Sample.history 3
  = [App.Start; App.AddressSettled (Ok "0xowner"); App.AllowanceSettled (Ok 10000)] /\
  10000 < 10000 * App.totalSwaps Sample.config /\
  approvals (App.trace (Sample.after (Sample.history 3))) = 0%nat /\
  App.stage (Sample.after (Sample.history 3)) = App.SwapAddress 0 10000 /\
  fst (Batch.approvalStep 10000 (Some 2) Sample.worldOneSwap)
  = [Allowance; Approve Ethers.MaxUint256; WaitApprove].
Proof.
  do 5 (split; [vm_compute; reflexivity|]). vm_compute. reflexivity.
Qed.

(** What holds of both programs: no run issues more than one approval. *)
Lemma interactive_at_most_one_approval cap cfg out evs s :
  App.run (App.init cap cfg out) evs = Some s ->
  (approvals (App.trace s) <= 1)%nat.
Proof.
  intros Hrun.
  destruct (reachable_inv cap cfg out s) as [_ _ _ _ _ _ Hrinv];
    [by exists evs|].
  unfold App.RunInv, App.LoopPre in Hrinv.
  destruct (App.stage s); try (destruct Hrinv as (H & _); lia);
    try (destruct Hrinv as (_ & H & _); lia).
  rewrite Hrinv. unfold approvals. simpl. lia.
Qed.

Lemma batch_at_most_one_approval env w :
  (approvals (fst (Batch.main env w)) <= 1)%nat.
Proof.
  unfold Batch.main.
  destruct (JS.falsy _); [unfold approvals; simpl; lia|].
  destruct (Batch.newWallet w); [|unfold approvals; simpl; lia].
  destruct (Ethers.parseUnits _ _) as [amount|]; [|unfold approvals; simpl; lia].
  assert (forall r i, approvals (Batch.swapLoop env amount
                        (default 0 (Batch.TOTAL_SWAPS env)) w r i) = 0%nat)
    as Hloop.
  { induction r as [|r IH]; intros i; [reflexivity|].
    cbn [Batch.swapLoop]. rewrite approvals_app, IH.
    unfold Batch.iteration, Batch.slowGas, Batch.pause.
    repeat case_match; reflexivity. }
  assert (approvals (Batch.approvalStep amount (Batch.TOTAL_SWAPS env) w).1
          <= 1)%nat as Hstep.
  { unfold Batch.approvalStep.
    repeat case_match; unfold approvals; simpl; lia. }
  destruct (Batch.approvalStep _ _ _) as [tr [[]|e]]; [|exact Hstep].
  cbn [fst] in *. rewrite approvals_app, Hloop. lia.
Qed.

(** The batch script compares the allowance with the amount times the
    number of swaps; when it suffices nothing is approved, otherwise
    exactly one approval of [MaxUint256] is sent and awaited, and in
    either case all of this precedes the loop. *)
Lemma batch_allowance_manager amount n w currentAllowance :
  Batch.allowance w = Ok currentAllowance ->
  (amount * n <= currentAllowance ->
   Batch.approvalStep amount (Some n) w = ([Allowance], Ok tt)) /\
  (currentAllowance < amount * n ->
   isOk (Batch.approve w) = true -> isOk (Batch.approveWait w) = true ->
   Batch.approvalStep amount (Some n) w
   = ([Allowance; Approve Ethers.MaxUint256; WaitApprove], Ok tt)) /\
  (approvals (fst (Batch.approvalStep amount (Some n) w)) <= 1)%nat.
Proof.
  intros Hal. unfold Batch.approvalStep. rewrite Hal. split; [|split].
  - intros Hle. by replace (currentAllowance <? amount * n) with false
      by (symmetry; by apply Z.ltb_ge).
  - intros Hlt Happrove Hwait.
    replace (currentAllowance <? amount * n) with true
      by (symmetry; by apply Z.ltb_lt).
    destruct (Batch.approve w); [|discriminate].
    by destruct (Batch.approveWait w) as [[]|]; [|discriminate].
  - repeat case_match; unfold approvals; simpl; lia.
Qed.

(** * More facts about the interactive loop *)

Section ReactionFacts.
Import Service App Reaction.

Lemma loopHead_entered i s : parsed s -> Entered i s (loopHead i s).
Proof.
  intros [a Ha].
  destruct (Z_lt_le_dec (Z.of_nat i) (totalSwaps (config s))) as [Hi|Hi].
  - destruct (stopRequested s) eqn:Hstop.
    + rewrite loopHead_stopped by done. by constructor.
    + destruct (mustWait (service s)) eqn:Hw.
      * rewrite loopHead_waits by done. by constructor.
      * rewrite (loopHead_enters i s a) by done. by econstructor.
  - rewrite loopHead_exhausted by done. by constructor.
Qed.

Lemma catchSwap_caught i e s :
  parsed s -> Caught i e s (catchSwap (loopHead (S i)) i e s).
Proof.
  intros Hp. unfold catchSwap. destruct (isUserRejection e) eqn:He.
  - by constructor.
  - constructor; [exact He|]. by apply loopHead_entered.
Qed.

Lemma step_reaction s ev s' :
  AmountInv s -> step s ev = Some s' -> Reaction s ev s'.
Proof.
  intros Hinv Hstep.
  pose proof (AmountInv_parsed s Hinv) as Hp.
  destruct ev; unfold step in Hstep.
  - destruct (stage s) eqn:Hst; simplify_eq; constructor; by rewrite Hst.
  - destruct (running (stage s)) eqn:Hr; simplify_eq. by constructor.
  - assert (s' = setService (cleanup (service s)) s) as ->
      by (destruct (stage s); congruence).
    constructor.
  - destruct (stage s) eqn:Hst; simplify_eq; destruct r; simplify_eq.
    + by econstructor.
    + constructor. left. by eauto.
    + destruct (Ethers.fitsUint256 _) eqn:Hfit; simplify_eq.
      * by econstructor.
      * eapply (RFails _ i).
        -- right. right. by eauto 8.
        -- unfold settled. rewrite Hst. apply catchSwap_caught. by apply Hp.
    + eapply (RFails _ i).
      * right. left. by eauto.
      * unfold settled. rewrite Hst. apply catchSwap_caught. by apply Hp.
  - destruct (stage s) eqn:Hst; simplify_eq.
    destruct r as [allowance|e]; [destruct (_ <=? allowance) eqn:Hle|]; simplify_eq.
    + apply Z.leb_le in Hle. eapply RAllowanceEnough; [done|exact Hle|].
      apply loopHead_entered. by apply Hp.
    + apply Z.leb_gt in Hle. by econstructor.
    + constructor. right. left. by eauto.
  - destruct (stage s) eqn:Hst; simplify_eq. destruct r; simplify_eq.
    + by constructor.
    + constructor. right. right. left. by eauto.
  - destruct (stage s) eqn:Hst; simplify_eq. destruct r; simplify_eq.
    + eapply RApproveMined; [done|]. apply loopHead_entered. by apply Hp.
    + constructor. right. right. right. by eauto.
  - destruct (stage s) eqn:Hst; simplify_eq.
    destruct Hp as [a Ha]; [done|].
    unfold swapUSDCtoETH. destruct (mustWait (service s)) eqn:Hw.
    + by constructor.
    + rewrite Ha. by econstructor.
  - destruct (stage s) eqn:Hst; simplify_eq. destruct r; simplify_eq.
    + by constructor.
    + eapply (RFails _ i).
      * left. by eauto.
      * unfold settled. rewrite Hst. apply catchSwap_caught. by apply Hp.
  - destruct (stage s) eqn:Hst; simplify_eq.
    eapply RDelay; [done|]. apply loopHead_entered. by apply Hp.
  - assert (s' = confirm h s /\ h ∈ submitted s) as [-> Hh]
      by (destruct (stage s); case_bool_decide; by simplify_eq).
    by constructor.
Qed.

End ReactionFacts.

Section MoreAppFacts.
Import Service App Reaction Loop.

Lemma mustWait_free s :
  pendingOf s = ∅ -> (0 < capacity s)%nat -> mustWait (service s) = true -> False.
Proof. intros He Hc Hw. by rewrite (mustWait_empty s He Hc) in Hw. Qed.

Lemma step_never_waits s ev s' :
  AmountInv s -> SlotInv s -> (0 < capacity s)%nat ->
  NeverWaits s -> step s ev = Some s' -> NeverWaits s'.
Proof.
  intros Ha Hs Hcap [Hst Htr] Hstep.
  apply step_reaction in Hstep; [|exact Ha].
  unfold SlotInv in Hs.
  destruct Hstep as [Hr| | | | | ev e Hf | | | | | | | | i ev e s' Hf Hc | |];
    try match goal with H : stage s = _ |- _ => rewrite H in Hs end.
  all: try (approval_cases Hf).
  all: try (fails_cases Hf; rewrite ?Hst0 in Hs).
  all: entered_cases.
  all: try (exfalso; eapply mustWait_free; [| |eassumption]; simpl;
            first [exact Hs|apply Hs|apply settle_empty, Hs|exact Hcap]).
  all: try (by destruct (Hst i)).
  all: unfold NeverWaits, slotTimer in *; simpl;
    try (split; [try discriminate|]).
  all: try exact Htr.
  all: try (rewrite in_app_iff; simpl; intros [?|[?|[]]]; by simplify_eq).
  all: try (intros i0; unfold start; destruct (Ethers.parseUnits _ _); discriminate).
  all: try (unfold start; destruct (Ethers.parseUnits _ _); simpl; tauto).
  all: try exact Hst.
Qed.

(** An invariant of the reactions holds of every state a history reaches. *)
Lemma run_invariant (P : State -> Prop) cap cfg out :
  P (init cap cfg out) ->
  (forall s ev s', Inv cap cfg out s -> P s -> step s ev = Some s' -> P s') ->
  forall evs s, run (init cap cfg out) evs = Some s -> P s.
Proof.
  intros H0 Hstep evs.
  assert (forall s0 s, Inv cap cfg out s0 -> P s0 -> run s0 evs = Some s -> P s)
    as Hgen.
  { induction evs as [|ev evs IH]; intros s0 s Hinv HP Hrun; simpl in Hrun.
    - by simplify_eq.
    - destruct (step s0 ev) as [s1|] eqn:Hs; [|discriminate].
      apply (IH s1 s); [by eapply step_inv|by eapply Hstep|exact Hrun]. }
  intros s. apply Hgen; [apply init_inv|exact H0].
Qed.
End MoreAppFacts.

Section StopFacts.
Import Service App Reaction Loop.

(** Once a stop is requested, a reaction other than a new start keeps the
    request, and it submits only the swap that was under way. *)
Lemma step_after_stop s ev s' :
  AmountInv s -> stopRequested s = true -> ev <> Start ->
  step s ev = Some s' ->
  stopRequested s' = true /\
  (attempts (trace s') = attempts (trace s) /\
   (underWay (stage s') = None \/ underWay (stage s') = underWay (stage s)) \/
   exists i, underWay (stage s) = Some i /\
             attempts (trace s') = attempts (trace s) ++ [i] /\
             underWay (stage s') = None).
Proof.
  intros Ha Hstop Hne Hstep.
  apply step_reaction in Hstep; [|exact Ha].
  destruct Hstep as [Hr| | | | | ev e Hf | | | | | | | | i ev e s' Hf Hc | |];
    try done.
  all: try (approval_cases Hf).
  all: try (fails_cases Hf).
  all: entered_cases; simpl in *; try congruence.
  all: try match goal with H : stage _ = _ |- _ => rewrite H end; simpl.
  all: rewrite ?attempts_snoc, ?app_nil_r.
  all: try (split; [assumption|]; left; split; [reflexivity|]; by (left + right)).
  - split; [reflexivity|]. left. split; [reflexivity|by right].
  - split; [assumption|]. right. by exists i.
Qed.

Lemma run_after_stop evs : forall s s',
  AmountInv s -> stopRequested s = true -> ~ In Start evs ->
  run s evs = Some s' ->
  stopRequested s' = true /\
  (attempts (trace s') = attempts (trace s) /\
   (underWay (stage s') = None \/ underWay (stage s') = underWay (stage s)) \/
   exists i, underWay (stage s) = Some i /\
             attempts (trace s') = attempts (trace s) ++ [i] /\
             underWay (stage s') = None).
Proof.
  induction evs as [|ev evs IH]; intros s s' Ha Hstop Hns Hrun; simpl in Hrun.
  - simplify_eq. split; [exact Hstop|]. left. split; [reflexivity|by right].
  - destruct (step s ev) as [s1|] eqn:Hstep; [|discriminate].
    destruct (step_after_stop s ev s1 Ha Hstop) as [Hstop1 H1];
      [intros ->; apply Hns; by left|exact Hstep|].
    destruct (IH s1 s') as [Hstop' H'];
      [by eapply step_amount|exact Hstop1|intros ?; apply Hns; by right
      |exact Hrun|].
    split; [exact Hstop'|].
    destruct H1 as [[Ht1 Hu1]|(i & Hu & Ht1 & Hu1)];
      destruct H' as [[Ht' Hu']|(j & Hu2 & Ht' & Hu')].
    + left. split; [congruence|]. destruct Hu' as [?|?], Hu1 as [?|?];
        ((left; congruence) || (right; congruence)).
    + destruct Hu1 as [Hu1|Hu1]; [congruence|].
      right. exists j. repeat split; congruence.
    + right. exists i. destruct Hu'; repeat split; congruence.
    + congruence.
Qed.
End StopFacts.

Section SubmissionFacts.
Import Service App Reaction Loop.

Lemma attempts_nil_In tr i ov : attempts tr = [] -> ~ In (Execute i ov) tr.
Proof.
  induction tr as [|a tr IH]; [intros _ []|].
  destruct a; simpl; try discriminate; intros H [Heq|Hin];
    try discriminate; by apply IH.
Qed.

(** What a reaction does to the trace: a new start empties it, the
    reaction that calls [router.execute] appends that call, and every
    other reaction appends calls that submit nothing. *)
Lemma step_trace s ev s' :
  AmountInv s -> step s ev = Some s' ->
  (ev = Start /\ trace s' = []) \/
  (exists l, trace s' = trace s ++ l /\ attempts l = [] /\ approvals l = 0%nat
             /\ ev <> Start) \/
  (exists l, trace s' = trace s ++ l /\ attempts l = []
             /\ (exists a, stage s = ApproveAllowance a)
             /\ l = [Approve Ethers.MaxUint256]) \/
  (exists i a, stage s = SwapAddress i a /\ Ethers.fitsUint256 a = true /\
               trace s' = trace s ++ [Execute i noOverrides]).
Proof.
  intros Ha Hstep.
  apply step_reaction in Hstep; [|exact Ha].
  destruct Hstep as [Hr| | | | | ev e Hf | | | | | | | | i ev e s' Hf Hc | |].
  all: try (approval_cases Hf).
  all: try (fails_cases Hf).
  all: entered_cases; simpl.
  all: try (left; split; [reflexivity|];
            unfold start; by destruct (Ethers.parseUnits _ _)).
  all: try (right; right; right; by eauto).
  all: try (right; right; left; eexists; by eauto 6).
  all: right; left.
  all: try (exists []; rewrite app_nil_r; by repeat split).
  all: eexists; by repeat split.
Qed.

Lemma ascendingFrom_snoc l : forall lo i,
  ascendingFrom lo l = true -> Forall (fun j => (j < i)%nat) l -> (lo <= i)%nat ->
  ascendingFrom lo (l ++ [i]) = true.
Proof.
  induction l as [|x l IH]; intros lo i Hs Hall Hlo; simpl in *.
  - rewrite andb_true_r. by apply Nat.leb_le.
  - apply andb_true_iff in Hs as [Hx Hs].
    apply Forall_cons in Hall as [Hxi Hall].
    rewrite Hx. simpl. apply IH; [exact Hs|exact Hall|lia].
Qed.

Lemma ascendingFrom_length l : forall lo n,
  ascendingFrom lo l = true -> Forall (fun j => (j < n)%nat) l ->
  (l = [] \/ lo + length l <= n)%nat.
Proof.
  induction l as [|x l IH]; intros lo n Hs Hall; simpl in *; [by left|right].
  apply andb_true_iff in Hs as [Hx Hs]. apply Nat.leb_le in Hx.
  apply Forall_cons in Hall as [Hxn Hall].
  destruct (IH (S x) n Hs Hall) as [->|Hlen]; simpl; lia.
Qed.

Lemma ascendingFrom_NoDup l : forall lo,
  ascendingFrom lo l = true -> NoDup l /\ Forall (fun j => (lo <= j)%nat) l.
Proof.
  induction l as [|x l IH]; intros lo Hs; simpl in *.
  - split; constructor.
  - apply andb_true_iff in Hs as [Hx Hs]. apply Nat.leb_le in Hx.
    destruct (IH (S x) Hs) as [Hnd Hall]. split.
    + constructor; [|exact Hnd]. intros Hin.
      rewrite Forall_forall in Hall. specialize (Hall x Hin). lia.
    + constructor; [exact Hx|].
      eapply Forall_impl; [exact Hall|]. intros j Hj. simpl in Hj. lia.
Qed.

(** The submissions of a run: in ascending order, each below the number
    of swaps. *)
Lemma step_ascending cap cfg out s ev s' :
  Inv cap cfg out s ->
  ascendingFrom 0 (attempts (trace s)) = true /\
  Forall (fun j => (j < count s)%nat) (attempts (trace s)) ->
  step s ev = Some s' ->
  ascendingFrom 0 (attempts (trace s')) = true /\
  Forall (fun j => (j < count s')%nat) (attempts (trace s')).
Proof.
  intros [Hc _ _ _ Ha _ Hr] [Hasc Hall] Hstep.
  assert (count s' = count s) as ->.
  { unfold count. by destruct (step_frame _ _ _ Hstep) as (-> & _). }
  destruct (step_trace s ev s' Ha Hstep)
    as [[_ ->]|[(l & -> & Hl & _)|[(l & -> & Hl & _)|(i & a & Hst & _ & ->)]]].
  - split; [reflexivity|constructor].
  - by rewrite attempts_app, Hl, app_nil_r.
  - by rewrite attempts_app, Hl, app_nil_r.
  - rewrite attempts_snoc. unfold RunInv in Hr. rewrite Hst in Hr.
    destruct Hr as (Hi & _ & _ & _ & Hlt & _). split.
    + apply ascendingFrom_snoc; [exact Hasc|exact Hlt|lia].
    + apply Forall_app. split; [exact Hall|]. by repeat constructor.
Qed.
End SubmissionFacts.

Section LogFacts.
Import Service App Reaction Loop.

Lemma step_submits_valid s ev s' :
  AmountInv s -> SubmitsValid s -> step s ev = Some s' -> SubmitsValid s'.
Proof.
  intros Ha Hinv Hstep i ov Hin.
  assert (config s' = config s) as ->
    by (by destruct (step_frame _ _ _ Hstep) as (-> & _)).
  destruct (step_trace s ev s' Ha Hstep)
    as [[_ Ht]|[(l & Ht & Hl & _)|[(l & Ht & Hl & _)|(j & a & Hst & Hfit & Ht)]]];
    rewrite Ht in Hin.
  - destruct Hin.
  - apply in_app_iff in Hin as [Hin|Hin]; [by apply (Hinv i ov)|].
    by destruct (attempts_nil_In _ _ _ Hl Hin).
  - apply in_app_iff in Hin as [Hin|Hin]; [by apply (Hinv i ov)|].
    by destruct (attempts_nil_In _ _ _ Hl Hin).
  - apply in_app_iff in Hin as [Hin|[Heq|[]]]; [by apply (Hinv i ov)|].
    simplify_eq. split; [reflexivity|]. exists a. split; [|exact Hfit].
    unfold AmountInv in Ha. by rewrite Hst in Ha.
Qed.

Lemma step_log s ev s' :
  AmountInv s -> SlotInv s -> LogInv s -> step s ev = Some s' -> LogInv s'.
Proof.
  intros Ha Hs Hinv Hstep.
  apply step_reaction in Hstep; [|exact Ha].
  unfold LogInv, SlotInv in *.
  destruct Hstep as [Hr| | | | | ev e Hf | | | | | | | | i ev e s' Hf Hc | |].
  all: try (approval_cases Hf).
  all: try (fails_cases Hf).
  all: entered_cases; simpl.
  all: try match goal with H : stage _ = _ |- _ => rewrite H in * end.
  all: try (destruct Hinv as [l Hl]; rewrite ?Hl).
  all: try (split; [|by split]).
  all: try (log_shape l).
  - unfold start. destruct (Ethers.parseUnits _ _); simpl.
    + by exists [].
    + split; [|by split]. eexists [_]. split; [reflexivity|simpl; by eauto].
  - destruct (stage s); try discriminate; destruct Hinv as [l Hl]; rewrite Hl;
      by eexists (_ :: l).
  - destruct (stage s); try exact Hinv.
    destruct Hinv as (Hl & _ & _). by repeat split.
  - destruct (stage s); exact Hinv.
Qed.
End LogFacts.

Section TraceFacts.
Import Service App Reaction Loop.

Lemma step_trace_shape s ev s' :
  AmountInv s -> TraceInv s -> step s ev = Some s' -> TraceInv s'.
Proof.
  intros Ha Hinv Hstep.
  apply step_reaction in Hstep; [|exact Ha].
  unfold TraceInv in *.
  destruct Hstep as [Hr| | | | | ev e Hf | | | | | | | | i ev e s' Hf Hc | |].
  all: try (approval_cases Hf).
  all: try (fails_cases Hf).
  all: entered_cases; simpl.
  all: try match goal with H : stage _ = _ |- _ => rewrite H in * end.
  all: try (rewrite Hinv; simpl).
  all: try reflexivity.
  all: try (unfold approvalCutShort; tauto).
  all: try (exists [Allowance], []; by repeat split; [left|constructor]).
  all: try (eexists _, []; by repeat split; [right|constructor]).
  all: try (destruct Hinv as (p & l & Hl & Hp & Hall); rewrite ?Hl;
            trace_shape p l).
  - unfold start. destruct (Ethers.parseUnits _ _); simpl; [reflexivity|by left].
  - exists [Allowance], [Sleep (Some 200)].
    repeat split; [by left|by repeat constructor].
  - eexists _, []. rewrite app_nil_r. repeat split; [by right|constructor].
  - eexists _, []. rewrite app_nil_r. repeat split; [by right|constructor].
  - exists [Allowance; Approve Ethers.MaxUint256; WaitApprove], [Sleep (Some 200)].
    repeat split; [by right|by repeat constructor].
  - eexists _, []. rewrite app_nil_r. repeat split; [by right|constructor].
  - destruct Hinv as (p & l & Hl & Hp & Hall). rewrite Hl.
    exists p, (l ++ [Execute i noOverrides]). rewrite app_assoc.
    repeat split; [assumption|].
    apply Forall_app. split; [assumption|by repeat constructor].
Qed.
End TraceFacts.

Section ForgetFacts.
Import Service App Reaction Loop.

Lemma mustWait_forget s :
  pendingOf s = ∅ -> mustWait (service (forget s)) = mustWait (service s).
Proof.
  intros He. unfold mustWait, getPendingTransactionCount. simpl.
  fold (pendingOf s). fold (capacity s). by rewrite He.
Qed.

Lemma forget_catchSwap next i e s :
  (forall s0, pendingOf s0 = ∅ -> forget (next s0) = forget (next (forget s0))) ->
  pendingOf s = ∅ ->
  forget (catchSwap next i e s) = forget (catchSwap next i e (forget s)).
Proof.
  intros Hnext He. unfold catchSwap. destruct (isUserRejection e); [reflexivity|].
  by rewrite Hnext.
Qed.

Lemma forget_swapUSDCtoETH next i s :
  (forall s0, pendingOf s0 = ∅ -> forget (next s0) = forget (next (forget s0))) ->
  pendingOf s = ∅ ->
  forget (swapUSDCtoETH next i s) = forget (swapUSDCtoETH next i (forget s)).
Proof.
  intros Hnext He. unfold swapUSDCtoETH.
  rewrite (mustWait_forget s He).
  destruct (mustWait (service s)); [reflexivity|].
  change (config (forget s)) with (config s).
  destruct (Ethers.parseUnits _ _); [reflexivity|].
  by apply forget_catchSwap.
Qed.

Lemma forget_loopFrom r : forall i s,
  pendingOf s = ∅ -> forget (loopFrom r i s) = forget (loopFrom r i (forget s)).
Proof.
  induction r as [|r IH]; intros i s He; simpl; [reflexivity|].
  change (stopRequested (forget s)) with (stopRequested s).
  destruct (stopRequested s); [reflexivity|].
  rewrite forget_swapUSDCtoETH; [reflexivity| |exact He].
  intros s0 H0. by apply IH.
Qed.

Lemma forget_loopHead i s :
  pendingOf s = ∅ -> forget (loopHead i s) = forget (loopHead i (forget s)).
Proof. apply forget_loopFrom. Qed.

(** A reaction does not look at the entries of the maps: what it leads
    to, the maps apart, is what it leads to from the state without them. *)
Lemma step_forget s ev :
  SlotInv s ->
  option_map forget (step s ev) = option_map forget (step (forget s) ev).
Proof.
  intros Hs. unfold SlotInv in Hs.
  destruct ev; unfold step;
    change (stage (forget s)) with (stage s);
    change (submitted (forget s)) with (submitted s);
    change (outside (forget s)) with (outside s).
  - destruct (stage s); try reflexivity.
    all: unfold start; change (config (forget s)) with (config s);
      by destruct (Ethers.parseUnits _ _).
  - by destruct (running (stage s)).
  - reflexivity.
  - destruct (stage s) eqn:Hst; try reflexivity; destruct r; simpl;
      try reflexivity.
    + destruct (Ethers.fitsUint256 _); simpl; [reflexivity|].
      f_equal. apply forget_catchSwap; [|apply Hs].
      intros; by apply forget_loopHead.
    + f_equal. apply forget_catchSwap; [|apply Hs].
      intros; by apply forget_loopHead.
  - destruct (stage s) eqn:Hst; try reflexivity.
    destruct r; [destruct (_ <=? _)|]; simpl; try reflexivity.
    f_equal. unfold approved. by rewrite forget_loopHead.
  - destruct (stage s) eqn:Hst; try reflexivity. by destruct r.
  - destruct (stage s) eqn:Hst; try reflexivity. destruct r; simpl; [|reflexivity].
    f_equal. unfold approved. by rewrite forget_loopHead.
  - destruct (stage s) eqn:Hst; try reflexivity. simpl. f_equal.
    apply forget_swapUSDCtoETH; [|exact Hs]. intros; by apply forget_loopHead.
  - destruct (stage s) eqn:Hst; try reflexivity. destruct r; simpl.
    + reflexivity.
    + f_equal.
      rewrite forget_catchSwap;
        [|intros; by apply forget_loopHead|by apply settle_empty, Hs].
      symmetry. rewrite forget_catchSwap;
        [|intros; by apply forget_loopHead|..].
      * reflexivity.
      * unfold pendingOf. simpl. apply delete_empty.
  - destruct (stage s) eqn:Hst; try reflexivity. simpl. f_equal.
    by apply forget_loopHead.
  - by case_bool_decide.
Qed.

Lemma step_same s t ev s' :
  SlotInv s -> SlotInv t -> forget s = forget t -> step s ev = Some s' ->
  exists t', step t ev = Some t' /\ forget s' = forget t'.
Proof.
  intros Hs Ht Heq Hstep.
  pose proof (step_forget s ev Hs) as H1.
  pose proof (step_forget t ev Ht) as H2.
  rewrite Heq, <- H2, Hstep in H1. simpl in H1.
  destruct (step t ev) as [t'|]; [|discriminate].
  exists t'. split; [reflexivity|]. simpl in H1. congruence.
Qed.

Lemma run_same cap cfg out evs : forall s t s',
  Inv cap cfg out s -> Inv cap cfg out t -> forget s = forget t ->
  run s evs = Some s' ->
  exists t', run t evs = Some t' /\ forget s' = forget t'.
Proof.
  induction evs as [|ev evs IH]; intros s t s' Hs Ht Heq Hrun; simpl in *.
  - injection Hrun as <-. exists t. by split.
  - destruct (step s ev) as [s1|] eqn:Hstep; [|discriminate].
    destruct (step_same s t ev s1) as (t1 & Hstep' & Heq1);
      [apply Hs|apply Ht|exact Heq|exact Hstep|].
    rewrite Hstep'. apply (IH s1 t1 s'); try assumption.
    + eapply step_inv; [exact Hs|exact Hstep].
    + eapply step_inv; [exact Ht|exact Hstep'].
Qed.

Lemma run_app evs1 : forall evs2 s,
  run s (evs1 ++ evs2) = match run s evs1 with
                         | Some s1 => run s1 evs2
                         | None => None
                         end.
Proof.
  induction evs1 as [|ev evs1 IH]; intros evs2 s; simpl; [reflexivity|].
  destruct (step s ev); [apply IH|reflexivity].
Qed.
End ForgetFacts.

Section AccountFacts.
Import Service App Reaction Loop.

Lemma step_accounted s ev s' :
  AmountInv s -> Accounted s -> step s ev = Some s' -> Accounted s'.
Proof.
  intros Ha Hinv Hstep.
  assert (count s' = count s) as Hcount.
  { unfold count. by destruct (step_frame _ _ _ Hstep) as (-> & _). }
  apply step_reaction in Hstep; [|exact Ha].
  unfold Accounted in *. rewrite Hcount. clear Hcount.
  destruct Hstep as [Hr| | | | | ev e Hf | | | | | | | | i ev e s' Hf Hc | |].
  all: try (approval_cases Hf).
  all: try (fails_cases Hf).
  all: entered_cases; simpl.
  all: try match goal with H : stage _ = _ |- _ => rewrite H in * end.
  all: unfold settledSwaps, count in *; simpl in *.
  all: try lia.
  - unfold start. by destruct (Ethers.parseUnits _ _).
  - destruct (stage s) as [| | | | | | | | |[]]; simpl; exact Hinv.
  - destruct (stage s) as [| | | | | | | | |[]]; exact Hinv.
  - destruct (stage s) as [| | | | | | | | |[]]; exact Hinv.
Qed.
End AccountFacts.

(** * More facts about the batch sender *)

Section MoreBatchFacts.
Import Batch BatchTrace.
Variables (env : Env) (w : World).

Lemma sleeps_app tr1 tr2 : sleeps (tr1 ++ tr2) = sleeps tr1 ++ sleeps tr2.
Proof. unfold sleeps. apply List.filter_app. Qed.

Lemma slowGas_sleeps i ov : sleeps (fst (slowGas env w i ov)) = [].
Proof. unfold slowGas. repeat case_match; reflexivity. Qed.

Lemma sleeps_iteration amount total i :
  sleeps (iteration env amount total w i) = pause env total i.
Proof.
  assert (sleeps (pause env total i) = pause env total i) as Hp
    by (unfold pause; by case_match).
  unfold iteration. destruct (Ethers.fitsUint256 amount); simpl.
  - rewrite !sleeps_app, slowGas_sleeps. simpl.
    repeat case_match; simpl; exact Hp.
  - exact Hp.
Qed.

Lemma sleeps_swapLoop amount total r : forall i,
  Z.of_nat (i + r) = total ->
  sleeps (swapLoop env amount total w r i)
  = replicate (r - 1) (Sleep (DELAY_MS env)).
Proof.
  induction r as [|r IH]; intros i Hi; [reflexivity|].
  cbn [swapLoop]. rewrite sleeps_app, sleeps_iteration.
  rewrite IH by lia. unfold pause.
  destruct r as [|r]; simpl.
  - case_match eqn:Hlt; [apply Z.ltb_lt in Hlt; lia|reflexivity].
  - case_match eqn:Hlt; [|apply Z.ltb_ge in Hlt; lia].
    simpl. by rewrite Nat.sub_0_r.
Qed.

Lemma endsWithSleep_app tr1 tr2 :
  endsWithSleep (tr1 ++ tr2)
  = match tr2 with [] => endsWithSleep tr1 | _ => endsWithSleep tr2 end.
Proof.
  induction tr1 as [|a tr1 IH]; simpl.
  - by destruct tr2 as [|? [|]].
  - destruct (tr1 ++ tr2) eqn:Happ.
    + apply app_eq_nil in Happ as [-> ->]. reflexivity.
    + rewrite IH. destruct tr2; [|reflexivity]. by destruct tr1.
Qed.

Lemma iteration_last amount total i :
  Z.of_nat i = total - 1 ->
  iteration env amount total w i <> [] /\
  endsWithSleep (iteration env amount total w i) = false.
Proof.
  intros Hi. unfold iteration, pause.
  replace (Z.of_nat i <? total - 1) with false by (symmetry; apply Z.ltb_ge; lia).
  destruct (Ethers.fitsUint256 amount); [|by split].
  split; [done|].
  change ([EstimateGas i] ++ ?x) with (EstimateGas i :: x).
  rewrite app_comm_cons, endsWithSleep_app.
  destruct (execute w i); [destruct (wait w i)|]; reflexivity.
Qed.

Lemma iteration_nonempty amount total i :
  iteration env amount total w i <> [].
Proof. unfold iteration. by destruct (Ethers.fitsUint256 amount). Qed.

Lemma swapLoop_last amount total r : forall i,
  Z.of_nat (i + r) = total ->
  endsWithSleep (swapLoop env amount total w r i) = false.
Proof.
  induction r as [|r IH]; intros i Hi; [reflexivity|].
  cbn [swapLoop]. rewrite endsWithSleep_app.
  destruct r as [|r].
  - simpl. apply iteration_last. lia.
  - rewrite <- (IH (S i)) by lia.
    destruct (swapLoop env amount total w (S r) (S i)) eqn:Hl; [|reflexivity].
    cbn [swapLoop] in Hl. apply app_eq_nil in Hl as [Hl _].
    by destruct (iteration_nonempty amount total (S i)).
Qed.

Lemma approvalStep_sleeps amount total :
  sleeps (fst (approvalStep amount total w)) = [] /\
  endsWithSleep (fst (approvalStep amount total w)) = false.
Proof. unfold approvalStep. repeat case_match; by split. Qed.

(** How [main] goes when it gets as far as the loop. *)
Lemma main_exit0 :
  snd (main env w) = Exit 0 ->
  exists amount,
    JS.falsy (PRIVATE_KEY env) = false /\
    Ethers.parseUnits (AMOUNT env) Ethers.usdc = Ok amount /\
    approvalSucceeds amount (TOTAL_SWAPS env) w = true /\
    fst (main env w)
    = fst (approvalStep amount (TOTAL_SWAPS env) w)
      ++ swapLoop env amount (default 0 (TOTAL_SWAPS env)) w
                  (iterations (TOTAL_SWAPS env)) 0.
Proof.
  unfold main, approvalSucceeds.
  destruct (JS.falsy _); [discriminate|].
  destruct (newWallet w); [|discriminate].
  destruct (Ethers.parseUnits _ _) as [amount|]; [|discriminate].
  destruct (approvalStep _ _ _) as [tr [[]|e]] eqn:Hstep; [|discriminate].
  intros _. exists amount. rewrite Hstep. by repeat split.
Qed.

Lemma iteration_fee_queries amount total i x :
  SLOW_GAS env = false -> In x (iteration env amount total w i) ->
  isFeeQuery x = false.
Proof.
  intros Hslow. unfold iteration, slowGas, pause. rewrite Hslow.
  repeat case_match; simpl; intros Hin;
    repeat (destruct Hin as [<-|Hin]; [reflexivity|]); by destruct Hin.
Qed.

Lemma swapLoop_fee_queries amount total r x : forall i,
  SLOW_GAS env = false -> In x (swapLoop env amount total w r i) ->
  isFeeQuery x = false.
Proof.
  induction r as [|r IH]; intros i Hslow; [intros []|].
  cbn [swapLoop]. intros [Hin|Hin]%in_app_iff.
  - by eapply iteration_fee_queries.
  - by eapply IH.
Qed.

Lemma approvalStep_fee_queries amount total x :
  In x (fst (approvalStep amount total w)) -> isFeeQuery x = false.
Proof.
  unfold approvalStep. repeat case_match; simpl; intros Hin;
    repeat (destruct Hin as [<-|Hin]; [reflexivity|]); by destruct Hin.
Qed.

Lemma main_fee_queries x :
  SLOW_GAS env = false -> In x (fst (main env w)) -> isFeeQuery x = false.
Proof.
  intros Hslow. unfold main.
  destruct (JS.falsy _); [intros []|].
  destruct (newWallet w); [|intros []].
  destruct (Ethers.parseUnits _ _) as [amount|]; [|intros []].
  pose proof (approvalStep_fee_queries amount (TOTAL_SWAPS env) x) as Hap.
  destruct (approvalStep _ _ _) as [tr [[]|e]]; simpl in *; [|exact Hap].
  intros [Hin|Hin]%in_app_iff; [by apply Hap|].
  by eapply swapLoop_fee_queries.
Qed.

(** A script that submits anything has got as far as the loop, with an
    amount that can be encoded. *)
Lemma main_submits tr1 tr2 i ov :
  fst (main env w) = tr1 ++ Execute i ov :: tr2 ->
  exists amount,
    JS.falsy (PRIVATE_KEY env) = false /\
    Ethers.parseUnits (AMOUNT env) Ethers.usdc = Ok amount /\
    Ethers.fitsUint256 amount = true /\
    snd (main env w) = Exit 0 /\
    fst (main env w)
    = fst (approvalStep amount (TOTAL_SWAPS env) w)
      ++ swapLoop env amount (default 0 (TOTAL_SWAPS env)) w
                  (iterations (TOTAL_SWAPS env)) 0.
Proof.
  intros Htr.
  assert (attempts (fst (main env w)) <> []) as Hatt.
  { rewrite Htr, attempts_app. simpl. by destruct (attempts tr1). }
  clear Htr. revert Hatt. unfold main.
  destruct (JS.falsy _); [done|].
  destruct (newWallet w); [|done].
  destruct (Ethers.parseUnits _ _) as [amount|]; [|done].
  pose proof (approvalStep_quiet w amount (TOTAL_SWAPS env)) as Hq.
  destruct (approvalStep _ _ _) as [tr [[]|e]] eqn:Hstep; simpl in *; [|done].
  intros Hatt. exists amount. rewrite Hstep. repeat split.
  destruct (Ethers.fitsUint256 amount) eqn:Hfit; [reflexivity|].
  destruct Hatt. by rewrite attempts_app, Hq, attempts_swapLoop, Hfit.
Qed.

End MoreBatchFacts.

(** * Facts about detection and connection *)

Section ConnectionFacts.
Import Connection.

Lemma poll_first timeout page n : forall fuel k svc,
  (forall j, (k <= j < k + n)%nat ->
     ethereum page j = false /\ elapsed page j <= timeout) ->
  ethereum page (k + n) = true \/ timeout < elapsed page (k + n) ->
  (n < fuel)%nat ->
  poll timeout page fuel k svc
  = Some (tryInitProvider (ethereum page (k + n)) svc).
Proof.
  induction n as [|n IH]; intros fuel k svc Hbefore Hat Hfuel;
    (destruct fuel as [|fuel]; [lia|]); simpl.
  - rewrite Nat.add_0_r in *. unfold tryInitProvider.
    destruct (ethereum page k); [reflexivity|].
    destruct Hat as [?|Hat]; [discriminate|].
    apply Z.ltb_lt in Hat. by rewrite Hat.
  - destruct (Hbefore k) as [He Hel]; [lia|].
    unfold tryInitProvider at 1. rewrite He.
    replace (timeout <? elapsed page k) with false
      by (symmetry; apply Z.ltb_ge; exact Hel).
    replace (k + S n)%nat with (S k + n)%nat by lia.
    apply IH; [|by replace (S k + n)%nat with (k + S n)%nat by lia|lia].
    intros j Hj. apply Hbefore. lia.
Qed.

Lemma firstShown_spec page n : forall k,
  (k <= firstShown page n k <= k + n)%nat /\
  (forall j, (k <= j < firstShown page n k)%nat -> ethereum page j = false) /\
  ((firstShown page n k < k + n)%nat ->
   ethereum page (firstShown page n k) = true).
Proof.
  induction n as [|n IH]; intros k; simpl.
  - repeat split; [lia..| |lia]. intros j Hj. lia.
  - destruct (ethereum page k) eqn:He.
    + repeat split; [lia..| |done]. intros j Hj. lia.
    + destruct (IH (S k)) as (Hr & Hb & Ht).
      repeat split; [lia..| |].
      * intros j Hj. destruct (decide (j = k)) as [->|Hne]; [exact He|].
        apply Hb. lia.
      * intros Hlt. apply Ht. lia.
Qed.

Lemma tryInitProvider_fields present svc :
  fst (tryInitProvider present svc) = present /\
  provider (snd (tryInitProvider present svc)) = present || provider svc /\
  signer (snd (tryInitProvider present svc)) = signer svc /\
  contractCache (snd (tryInitProvider present svc)) = contractCache svc.
Proof. unfold tryInitProvider. by destruct present. Qed.

Lemma waitForEthereum_first timeout page fuel svc k :
  (forall j, (j < k)%nat -> ethereum page j = false) ->
  (forall j, (1 <= j < k)%nat -> elapsed page j <= timeout) ->
  ethereum page k = true \/ (1 <= k)%nat /\ timeout < elapsed page k ->
  (k <= fuel)%nat ->
  waitForEthereum timeout page fuel svc
  = Some (tryInitProvider (ethereum page k) svc).
Proof.
  intros Hshown Hel Hat Hfuel. unfold waitForEthereum.
  destruct k as [|k].
  - destruct Hat as [Hat|[? _]]; [|lia]. rewrite Hat. reflexivity.
  - unfold tryInitProvider at 1. rewrite (Hshown 0%nat) by lia.
    replace (S k) with (1 + k)%nat by lia.
    apply poll_first; [| |lia].
    + intros j Hj. split; [apply Hshown|apply Hel]; lia.
    + destruct Hat as [Hat|[_ Hat]]; [by left|by right].
Qed.

Lemma poll_found timeout page fuel : forall k svc svc',
  poll timeout page fuel k svc = Some (true, svc') -> provider svc' = true.
Proof.
  induction fuel as [|fuel IH]; intros k svc svc'; simpl; [discriminate|].
  unfold tryInitProvider. destruct (ethereum page k).
  - by intros [= <-].
  - destruct (timeout <? elapsed page k); [discriminate|]. apply IH.
Qed.

(** A detection that says yes has set the provider; one that says no has
    changed nothing. *)
Lemma waitForEthereum_found timeout page fuel svc found svc' :
  waitForEthereum timeout page fuel svc = Some (found, svc') ->
  signer svc' = signer svc /\ contractCache svc' = contractCache svc /\
  (found = true -> provider svc' = true) /\
  (found = false -> svc' = svc).
Proof.
  unfold waitForEthereum, tryInitProvider.
  destruct (ethereum page 0); [by intros [= <- <-]|].
  assert (forall fuel k, poll timeout page fuel k svc = Some (found, svc') ->
            signer svc' = signer svc /\ contractCache svc' = contractCache svc /\
            (found = false -> svc' = svc)) as Hpoll.
  { clear. induction fuel as [|fuel IH]; intros k; simpl; [discriminate|].
    unfold tryInitProvider. destruct (ethereum page k).
    - by intros [= <- <-].
    - destruct (timeout <? elapsed page k); [by intros [= <- <-]|]. apply IH. }
  intros Hp. destruct (Hpoll _ _ Hp) as (Hs & Hc & Hf).
  repeat split; try assumption.
  intros ->. by eapply poll_found.
Qed.
End ConnectionFacts.

(** * More about the interactive loop *)

(** X1. With room for at least one pending transaction, as the source has it,
    [waitForTransactionSlot] never has to wait in a run of the loop: no
    reachable state is suspended on its 200 ms timer and that timer is never
    set, because the map is empty whenever the loop asks for a slot. *)
Theorem slot_wait_never_waits cap cfg out evs s :
  (0 < cap)%nat ->
  App.run (App.init cap cfg out) evs = Some s ->
  (forall i, App.stage s <> App.SlotWait i) /\
  ~ In (Sleep (Some 200)) (App.trace s).
Proof.
  intros Hcap Hrun.
  apply (run_invariant Loop.NeverWaits cap cfg out) with (evs := evs);
    [..|exact Hrun].
  - split; [discriminate|intros []].
  - intros s0 ev s1 [_ _ Hc _ Ha Hs _] HP Hstep.
    eapply step_never_waits; try eassumption. by rewrite Hc.
Qed.

Lemma slot_wait_never_waits_witness :
  ~ In (Sleep (Some 200)) (App.trace Scenario.finished).
Proof.
  assert (App.run (App.init 1 Sample.config Sample.outside)
                  (App.happyRun 10000 Sample.hashes 2)
          = Some Scenario.finished) as Hrun by (vm_compute; reflexivity).
  exact (proj2 (slot_wait_never_waits
                  1 Sample.config Sample.outside
                  (App.happyRun 10000 Sample.hashes 2) Scenario.finished
                  Nat.lt_0_1 Hrun)).
Defined.

(** X2. Once a stop is requested, and until a new start, the request stays and
    at most one more swap is submitted: the one whose call of [swapUSDCtoETH]
    was already under way and had not yet reached the wallet. If no call was
    under way (the approval is still being sought, a swap is with the wallet,
    or the loop sits in its delay), nothing more is submitted. *)
Theorem stop_lets_one_swap_through_at_most cap cfg out evs s evs' s' :
  App.run (App.init cap cfg out) evs = Some s ->
  App.stopRequested s = true ->
  ~ In App.Start evs' ->
  App.run s evs' = Some s' ->
  App.stopRequested s' = true /\
  (attempts (App.trace s') = attempts (App.trace s) \/
   exists i, Loop.underWay (App.stage s) = Some i /\
             attempts (App.trace s') = attempts (App.trace s) ++ [i]) /\
  (Loop.underWay (App.stage s) = None ->
   attempts (App.trace s') = attempts (App.trace s)).
Proof.
  intros Hrun Hstop Hns Hrun'.
  assert (App.AmountInv s) as Ha.
  { apply (reachable_inv cap cfg out). by exists evs. }
  destruct (run_after_stop evs' s s' Ha Hstop Hns Hrun')
    as [Hstop' [[Ht _]|(i & Hu & Ht & _)]].
  - split; [exact Hstop'|]. split; [by left|done].
  - split; [exact Hstop'|]. split; [right; by exists i|].
    intros Hnone. congruence.
Qed.

Lemma stop_lets_one_swap_through_at_most_witness :
  App.stopRequested Scenario.stopObeyed = true /\
  attempts (App.trace Scenario.stopObeyed) = attempts (App.trace Scenario.stopClicked).
Proof.
  assert (App.run (App.init 1 Sample.config Sample.outside)
                  (Sample.history 4 ++ [App.Stop])
          = Some Scenario.stopClicked) as Hrun by (vm_compute; reflexivity).
  assert (App.stopRequested Scenario.stopClicked = true) as Hstop
    by (vm_compute; reflexivity).
  assert (~ In App.Start Scenario.afterStop) as Hns
    by (intros [H|[H|[]]]; discriminate).
  assert (App.run Scenario.stopClicked Scenario.afterStop
          = Some Scenario.stopObeyed) as Hrun' by (vm_compute; reflexivity).
  assert (Loop.underWay (App.stage Scenario.stopClicked) = None) as Hnone
    by (vm_compute; reflexivity).
  destruct (stop_lets_one_swap_through_at_most
              1 Sample.config Sample.outside
              (Sample.history 4 ++ [App.Stop]) Scenario.stopClicked
              Scenario.afterStop Scenario.stopObeyed Hrun Hstop Hns Hrun')
    as (Hstop' & _ & Hsame).
  split; [exact Hstop'|exact (Hsame Hnone)].
Defined.

(** X3. In every state of a run the swaps submitted so far have strictly
    increasing indices, all below [totalSwaps]: no index is submitted twice,
    and a run never submits more than [totalSwaps] swaps. *)
Theorem submissions_ascend_below_the_total cap cfg out evs s :
  App.run (App.init cap cfg out) evs = Some s ->
  Loop.ascendingFrom 0 (attempts (App.trace s)) = true /\
  NoDup (attempts (App.trace s)) /\
  Forall (fun i => Z.of_nat i < App.totalSwaps cfg) (attempts (App.trace s)) /\
  (length (attempts (App.trace s)) <= Z.to_nat (App.totalSwaps cfg))%nat.
Proof.
  intros Hrun.
  assert (App.config s = cfg) as Hc.
  { apply (reachable_inv cap cfg out). by exists evs. }
  assert (Loop.ascendingFrom 0 (attempts (App.trace s)) = true /\
          Forall (fun j => (j < App.count s)%nat) (attempts (App.trace s)))
    as [Hasc Hall].
  { apply (run_invariant
             (fun s => Loop.ascendingFrom 0 (attempts (App.trace s)) = true /\
                       Forall (fun j => (j < App.count s)%nat)
                              (attempts (App.trace s)))
             cap cfg out) with (evs := evs); [..|exact Hrun].
    - split; [reflexivity|constructor].
    - intros s0 ev s1 Hinv HP Hstep. by eapply step_ascending. }
  unfold App.count in Hall. rewrite Hc in Hall.
  split; [exact Hasc|]. split; [by apply (ascendingFrom_NoDup _ 0%nat)|].
  split.
  - eapply Forall_impl; [exact Hall|]. intros j Hj. simpl in Hj. lia.
  - destruct (ascendingFrom_length _ 0%nat _ Hasc Hall) as [->|Hlen];
      simpl; lia.
Qed.

Lemma submissions_ascend_below_the_total_witness :
  attempts (App.trace Scenario.finished) = [0; 1]%nat /\
  NoDup (attempts (App.trace Scenario.finished)).
Proof.
  assert (App.run (App.init 1 Sample.config Sample.outside)
                  (App.happyRun 10000 Sample.hashes 2)
          = Some Scenario.finished) as Hrun by (vm_compute; reflexivity).
  split; [vm_compute; reflexivity|].
  exact (proj1 (proj2 (submissions_ascend_below_the_total
                         1 Sample.config Sample.outside
                         (App.happyRun 10000 Sample.hashes 2)
                         Scenario.finished Hrun))).
Defined.

(** X4. Every swap the interactive loop submits goes out without any gas or
    fee override, and only for an amount that parses as a decimal with at most
    six fraction digits and fits a [uint256]. *)
Theorem interactive_submissions_are_plain cap cfg out evs s i ov :
  App.run (App.init cap cfg out) evs = Some s ->
  In (Execute i ov) (App.trace s) ->
  ov = noOverrides /\
  exists a, Ethers.parseUnits (App.amountPerSwap cfg) Ethers.usdc = Ok a /\
            0 <= a <= Ethers.MaxUint256.
Proof.
  intros Hrun Hin.
  assert (App.config s = cfg) as Hc.
  { apply (reachable_inv cap cfg out). by exists evs. }
  assert (Loop.SubmitsValid s) as Hv.
  { apply (run_invariant Loop.SubmitsValid cap cfg out) with (evs := evs);
      [..|exact Hrun].
    - intros j o [].
    - intros s0 ev s1 [_ _ _ _ Ha _ _] HP Hstep. by eapply step_submits_valid. }
  destruct (Hv i ov Hin) as (-> & a & Ha & Hfit).
  split; [reflexivity|]. exists a. rewrite <- Hc. split; [exact Ha|].
  unfold Ethers.fitsUint256 in Hfit.
  apply andb_true_iff in Hfit as [H1 H2]. apply Z.leb_le in H1, H2. lia.
Qed.

Lemma interactive_submissions_are_plain_witness :
  In (Execute 1 noOverrides) (App.trace Scenario.finished) /\
  exists a, Ethers.parseUnits "0.01" Ethers.usdc = Ok a /\
            0 <= a <= Ethers.MaxUint256.
Proof.
  assert (App.run (App.init 1 Sample.config Sample.outside)
                  (App.happyRun 10000 Sample.hashes 2)
          = Some Scenario.finished) as Hrun by (vm_compute; reflexivity).
  assert (In (Execute 1 noOverrides) (App.trace Scenario.finished)) as Hin
    by (vm_compute; tauto).
  split; [exact Hin|].
  exact (proj2 (interactive_submissions_are_plain
                  1 Sample.config Sample.outside
                  (App.happyRun 10000 Sample.hashes 2) Scenario.finished
                  1%nat noOverrides Hrun Hin)).
Defined.


(** X5. However a run ends, its [finally] block has run: the newest line of
    the log is "All tasks finished", the oldest two are the two lines every
    run begins with, the lines just before the summary tell why the loop was
    left (a stop by the user, a rejection by the user after the failed swap,
    or a critical error), and both the contract cache and the pending map are
    empty. *)
Theorem finished_run_has_cleaned_up cap cfg out evs s how :
  App.run (App.init cap cfg out) evs = Some s ->
  App.stage s = App.Ended how ->
  (exists l,
     App.logs s = App.mkLog App.pending App.MFinished None :: l ++ Loop.opening /\
     Loop.closing how (l ++ Loop.opening)) /\
  Service.contractCache (App.service s) = ∅ /\
  App.pendingOf s = ∅.
Proof.
  intros Hrun Hst.
  assert (Loop.LogInv s) as Hinv.
  { apply (run_invariant Loop.LogInv cap cfg out) with (evs := evs);
      [..|exact Hrun].
    - reflexivity.
    - intros s0 ev s1 [_ _ _ _ Ha Hs _] HP Hstep. by eapply step_log. }
  unfold Loop.LogInv in Hinv. by rewrite Hst in Hinv.
Qed.

Lemma finished_run_has_cleaned_up_witness :
  App.stage Scenario.stopObeyed = App.Ended App.StopRequested /\
  (exists l,
     App.logs Scenario.stopObeyed
     = App.mkLog App.pending App.MFinished None :: l ++ Loop.opening /\
     Loop.closing App.StopRequested (l ++ Loop.opening)) /\
  Service.contractCache (App.service Scenario.stopObeyed) = ∅.
Proof.
  assert (App.run (App.init 1 Sample.config Sample.outside)
                  (Sample.history 4 ++ App.Stop :: Scenario.afterStop)
          = Some Scenario.stopObeyed) as Hrun by (vm_compute; reflexivity).
  assert (App.stage Scenario.stopObeyed = App.Ended App.StopRequested) as Hst
    by (vm_compute; reflexivity).
  destruct (finished_run_has_cleaned_up
              1 Sample.config Sample.outside
              (Sample.history 4 ++ App.Stop :: Scenario.afterStop)
              Scenario.stopObeyed App.StopRequested Hrun Hst)
    as (Hlog & Hcache & _).
  split; [exact Hst|]. split; [exact Hlog|exact Hcache].
Defined.



(** X7. The interactive loop approves nothing but the unlimited amount, and it
    submits swaps only after [approveUSDC] has returned: before the first
    submission the trace holds either the allowance query alone or the query,
    the approval and the wait for its receipt, and after that nothing but
    submissions and pauses. *)
Theorem swaps_follow_a_completed_approval cap cfg out evs s :
  App.run (App.init cap cfg out) evs = Some s ->
  (forall x, In (Approve x) (App.trace s) -> x = Ethers.MaxUint256) /\
  (attempts (App.trace s) <> [] ->
   exists p l, App.trace s = p ++ l /\ Loop.approvedBy p /\
               Forall (fun a => Loop.isLoopCall a = true) l).
Proof.
  intros Hrun.
  assert (Loop.TraceInv s) as Hinv.
  { apply (run_invariant Loop.TraceInv cap cfg out) with (evs := evs);
      [..|exact Hrun].
    - reflexivity.
    - intros s0 ev s1 [_ _ _ _ Ha _ _] HP Hstep. by eapply step_trace_shape. }
  assert (forall p l x,
            Loop.approvedBy p -> Forall (fun a => Loop.isLoopCall a = true) l ->
            In (Approve x) (p ++ l) -> x = Ethers.MaxUint256) as Hshape.
  { intros p l x Hp Hl [Hin|Hin]%in_app_iff.
    - destruct Hp as [->| ->]; simpl in Hin;
        repeat (destruct Hin as [Hin|Hin]; [by simplify_eq|]); by destruct Hin.
    - rewrite List.Forall_forall in Hl. by specialize (Hl _ Hin). }
  assert (forall x, Loop.approvalCutShort (App.trace s) ->
                    In (Approve x) (App.trace s) -> x = Ethers.MaxUint256)
    as Hcut.
  { intros x [->|[->|[->| ->]]] Hin; simpl in Hin;
      repeat (destruct Hin as [Hin|Hin]; [by simplify_eq|]); by destruct Hin. }
  assert (Loop.approvalCutShort (App.trace s) -> attempts (App.trace s) = [])
    as Hquiet by (by intros [->|[->|[->| ->]]]).
  unfold Loop.TraceInv in Hinv.
  destruct (App.stage s) as [| | | | | | | | |how];
    try (rewrite Hinv; split; [intros x Hin; simpl in Hin;
           repeat (destruct Hin as [Hin|Hin]; [by simplify_eq|]); by destruct Hin
         |done]);
    try (destruct Hinv as (p & l & Hl & Hp & Hall); rewrite Hl;
         split; [intros x; by apply Hshape|intros _; by exists p, l]).
  destruct how;
    try (destruct Hinv as (p & l & Hl & Hp & Hall); rewrite Hl;
         split; [intros x; by apply Hshape|intros _; by exists p, l]).
  split; [intros x; by apply Hcut|]. intros Hne. by destruct Hne, Hquiet.
Qed.

Lemma swaps_follow_a_completed_approval_witness :
  exists p l, App.trace Scenario.finished = p ++ l /\ Loop.approvedBy p /\
              Forall (fun a => Loop.isLoopCall a = true) l.
Proof.
  assert (App.run (App.init 1 Sample.config Sample.outside)
                  (App.happyRun 10000 Sample.hashes 2)
          = Some Scenario.finished) as Hrun by (vm_compute; reflexivity).
  assert (attempts (App.trace Scenario.finished) <> []) as Hne
    by (vm_compute; discriminate).
  exact (proj2 (swaps_follow_a_completed_approval
                  1 Sample.config Sample.outside
                  (App.happyRun 10000 Sample.hashes 2) Scenario.finished Hrun)
               Hne).
Defined.

(** X8. With an amount that does not parse (empty, not a number, or with more
    than six fraction digits) a run never gets anywhere: every start ends at
    once with a critical error, logged between the two opening lines and the
    summary, and no call is ever made of the wallet or the chain. *)
Theorem unparseable_amount_makes_no_call cap cfg out evs s e :
  Ethers.parseUnits (App.amountPerSwap cfg) Ethers.usdc = Err e ->
  App.run (App.init cap cfg out) evs = Some s ->
  App.trace s = [] /\
  (App.stage s = App.Idle \/
   App.stage s = App.Ended App.Critical /\
   App.logs s = [App.mkLog App.pending App.MFinished None;
                 App.mkLog App.error (App.MCritical (message e)) None;
                 App.mkLog App.pending App.MChecking None;
                 App.mkLog App.pending App.MStarting None]).
Proof.
  intros Herr Hrun.
  apply (run_invariant
           (fun s => App.trace s = [] /\
              (App.stage s = App.Idle \/
               App.stage s = App.Ended App.Critical /\
               App.logs s = [App.mkLog App.pending App.MFinished None;
                             App.mkLog App.error (App.MCritical (message e)) None;
                             App.mkLog App.pending App.MChecking None;
                             App.mkLog App.pending App.MStarting None]))
           cap cfg out) with (evs := evs); [..|exact Hrun].
  - split; [reflexivity|by left].
  - intros s0 ev s1 [Hc _ _ _ _ _ _] [Ht Hst] Hstep.
    assert (App.start s0
            = App.critical e
                (App.setService
                   (Service.getOrCreateContract Service.usdcKey (App.service s0))
                   (App.addLog App.pending App.MChecking None
                      (App.addLog App.pending App.MStarting None
                         (App.mkState (App.config s0) (App.outside s0)
                            (App.service s0) (App.stage s0) false [] []
                            (App.drawn s0) (App.submitted s0)
                            (App.confirmed s0)))))) as Hstart
      by (unfold App.start; by rewrite Hc, Herr).
    destruct ev; unfold App.step in Hstep;
      destruct Hst as [Hst|[Hst Hl]]; try rewrite Hst in Hstep; simpl in Hstep;
      simplify_eq; try case_bool_decide; simplify_eq;
      rewrite ?Hstart; simpl; by eauto.
Qed.

Lemma unparseable_amount_makes_no_call_witness :
  App.stage Scenario.refusedAtOnce = App.Ended App.Critical /\
  App.trace Scenario.refusedAtOnce = [].
Proof.
  assert (Ethers.parseUnits (App.amountPerSwap Scenario.tooFine) Ethers.usdc
          = Err (mkError "invalid FixedNumber string value")) as Herr
    by (vm_compute; reflexivity).
  assert (App.run (App.init 1 Scenario.tooFine Sample.outside) [App.Start]
          = Some Scenario.refusedAtOnce) as Hrun by (vm_compute; reflexivity).
  split; [vm_compute; reflexivity|].
  exact (proj1 (unparseable_amount_makes_no_call
                  1 Scenario.tooFine Sample.outside [App.Start]
                  Scenario.refusedAtOnce
                  (mkError "invalid FixedNumber string value") Herr Hrun)).
Defined.

(** X9. The log accounts for every swap. The lines "Transaction sent" and
    "Failed" of a run never number more than [totalSwaps]; while swap [i] is
    with the wallet they number exactly [i], in the delay after it [i + 1];
    and when the loop has run to its end without a stop or a rejection by the
    user they number exactly [totalSwaps]. *)
Theorem every_swap_is_accounted_for cap cfg out evs s :
  App.run (App.init cap cfg out) evs = Some s ->
  (Loop.settledSwaps s <= Z.to_nat (App.totalSwaps cfg))%nat /\
  (App.stage s = App.Ended App.Exhausted ->
   Loop.settledSwaps s = Z.to_nat (App.totalSwaps cfg)) /\
  (forall i txId, App.stage s = App.InFlight i txId -> Loop.settledSwaps s = i) /\
  (forall i, App.stage s = App.Delay i -> Loop.settledSwaps s = S i).
Proof.
  intros Hrun.
  assert (App.config s = cfg) as Hc.
  { apply (reachable_inv cap cfg out). by exists evs. }
  assert (Loop.Accounted s) as Hinv.
  { apply (run_invariant Loop.Accounted cap cfg out) with (evs := evs);
      [..|exact Hrun].
    - reflexivity.
    - intros s0 ev s1 [_ _ _ _ Ha _ _] HP Hstep. by eapply step_accounted. }
  unfold Loop.Accounted, App.count in Hinv. rewrite Hc in Hinv.
  destruct (App.stage s) as [| | | | | | | | |[]]; simpl in *;
    (split; [lia|]); (split; [intros; simplify_eq; lia|]);
    split; intros; simplify_eq; lia.
Qed.

Lemma every_swap_is_accounted_for_witness :
  App.stage Scenario.finished = App.Ended App.Exhausted /\
  Loop.settledSwaps Scenario.finished = 2%nat.
Proof.
  assert (App.run (App.init 1 Sample.config Sample.outside)
                  (App.happyRun 10000 Sample.hashes 2)
          = Some Scenario.finished) as Hrun by (vm_compute; reflexivity).
  assert (App.stage Scenario.finished = App.Ended App.Exhausted) as Hst
    by (vm_compute; reflexivity).
  split; [exact Hst|].
  exact (proj1 (proj2 (every_swap_is_accounted_for
                         1 Sample.config Sample.outside
                         (App.happyRun 10000 Sample.hashes 2)
                         Scenario.finished Hrun)) Hst).
Defined.

(** * More about the batch sender *)

(** X10. In slow gas mode, when no base fee is available (no block, no
    [baseFeePerGas], or [0n]) and the fee data arrives, the submission carries
    the configured priority fee, and as maximum fee the first non-zero of
    [feeData.maxFeePerGas], [feeData.gasPrice] and 1 gwei, plus the configured
    addition, plus the priority fee. *)
Theorem slow_gas_falls_back_on_fee_data env w tr1 tr2 i ov block feeData
        priority extra :
  fst (Batch.main env w) = tr1 ++ Execute i ov :: tr2 ->
  Batch.SLOW_GAS env = true ->
  Batch.getBlock w i = Ok block ->
  Batch.baseFeeOf block = None ->
  Ethers.parseUnits (Batch.priorityGwei env) Ethers.gwei = Ok priority ->
  Ethers.parseUnits (Batch.MAXFEE_ADD_GWEI env) Ethers.gwei = Ok extra ->
  Batch.getFeeData w i = Ok feeData ->
  maxPriorityFeePerGas ov = Some priority /\
  (forall m, Batch.feeMaxFeePerGas feeData = Some m -> m <> 0 ->
             maxFeePerGas ov = Some (m + extra + priority)) /\
  (forall g, JS.truthyBig (Batch.feeMaxFeePerGas feeData) = None ->
             Batch.feeGasPrice feeData = Some g -> g <> 0 ->
             maxFeePerGas ov = Some (g + extra + priority)) /\
  (JS.truthyBig (Batch.feeMaxFeePerGas feeData) = None ->
   JS.truthyBig (Batch.feeGasPrice feeData) = None ->
   maxFeePerGas ov = Some (1000000000 + extra + priority)) /\
  In (GetFeeData i) (fst (Batch.main env w)).
Proof.
  intros Htr Hslow Hblock Hbase Hp Hx Hfd.
  destruct (main_submits env w tr1 tr2 i ov Htr)
    as (amount & _ & _ & Hfit & _ & Hmain).
  destruct (main_execute env w tr1 tr2 i ov Htr) as (Hi & -> & _ & _).
  unfold Batch.overridesOf, Batch.slowGas.
  rewrite Hslow, Hblock, Hp, Hx, Hbase, Hfd. simpl.
  split; [reflexivity|]. split; [|split; [|split]].
  - intros m -> Hm. by destruct m.
  - intros g -> -> Hg. by destruct g.
  - by intros -> ->.
  - rewrite Hmain. apply in_app_iff. right.
    apply (swapLoop_In env w _ amount _ _ 0%nat i); [lia|].
    unfold Batch.iteration. rewrite Hfit.
    apply in_app_iff. right. apply in_app_iff. left.
    unfold Batch.slowGas. rewrite Hslow, Hblock, Hp, Hx, Hbase, Hfd.
    simpl. by right; left.
Qed.

Lemma slow_gas_falls_back_on_fee_data_witness :
  let tr := fst (Batch.main Sample.env Scenario.worldNoBaseFee) in
  let ov := Batch.overridesOf Sample.env Scenario.worldNoBaseFee 0 in
  tr = take 6 tr ++ Execute 0 ov :: drop 7 tr /\
  maxPriorityFeePerGas ov = Some 100000000 /\
  maxFeePerGas ov = Some 3100000000.
Proof.
  intros tr ov.
  assert (tr = take 6 tr ++ Execute 0 ov :: drop 7 tr) as Htr
    by (vm_compute; reflexivity).
  split; [exact Htr|].
  destruct (slow_gas_falls_back_on_fee_data
              Sample.env Scenario.worldNoBaseFee (take 6 tr) (drop 7 tr) 0 ov
              (Some (Batch.mkBlock None))
              (Batch.mkFeeData None (Some 2000000000))
              100000000 1000000000)
    as (Hprio & _ & Hprice & _);
    [exact Htr | reflexivity | reflexivity | reflexivity
    | vm_compute; reflexivity | vm_compute; reflexivity | reflexivity |].
  split; [exact Hprio|].
  apply (Hprice 2000000000); [reflexivity|reflexivity|discriminate].
Defined.

(** X11. The two fee fields of a submission are set together or not at all.
    Outside slow gas mode neither is set and the script never asks the chain
    for a block or for fee data. In slow gas mode, when the fees cannot be
    computed (the block query fails, a configured value does not parse, or
    there is no base fee and the fee data query fails), the swap is still
    submitted, with its gas limit and without explicit fees. *)
Theorem fees_are_set_together_or_not_at_all env w tr1 tr2 i ov :
  fst (Batch.main env w) = tr1 ++ Execute i ov :: tr2 ->
  (maxPriorityFeePerGas ov = None <-> maxFeePerGas ov = None) /\
  (Batch.SLOW_GAS env = false ->
   ov = mkOverrides (Some (Batch.gasLimitOf (Batch.estimateGas w i))) None None /\
   forall x, In x (fst (Batch.main env w)) -> BatchTrace.isFeeQuery x = false) /\
  (isOk (Batch.getBlock w i) = false \/
   isOk (Ethers.parseUnits (Batch.priorityGwei env) Ethers.gwei) = false \/
   isOk (Ethers.parseUnits (Batch.MAXFEE_ADD_GWEI env) Ethers.gwei) = false \/
   (exists block, Batch.getBlock w i = Ok block /\
                  Batch.baseFeeOf block = None /\
                  isOk (Batch.getFeeData w i) = false) ->
   ov = mkOverrides (Some (Batch.gasLimitOf (Batch.estimateGas w i))) None None).
Proof.
  intros Htr.
  destruct (main_execute env w tr1 tr2 i ov Htr) as (Hi & -> & _ & _).
  unfold Batch.overridesOf, Batch.slowGas.
  split; [|split].
  - repeat case_match; simpl; split; congruence.
  - intros Hslow. rewrite Hslow. split; [reflexivity|].
    intros x. by apply main_fee_queries.
  - intros [H|[H|[H|(block & Hb & Hbase & H)]]];
      repeat case_match; simpl in *; congruence.
Qed.

Lemma fees_are_set_together_or_not_at_all_witness :
  let env := delete "GAS_MODE" Sample.env in
  let tr := fst (Batch.main env Sample.world) in
  Batch.overridesOf env Sample.world 0 = mkOverrides (Some 165001) None None /\
  forall x, In x tr -> BatchTrace.isFeeQuery x = false.
Proof.
  intros env tr.
  assert (tr = take 4 tr ++ Execute 0 (Batch.overridesOf env Sample.world 0)
                  :: drop 5 tr) as Htr by (vm_compute; reflexivity).
  assert (Batch.SLOW_GAS env = false) as Hslow by (vm_compute; reflexivity).
  exact (proj1 (proj2 (fees_are_set_together_or_not_at_all
                         env Sample.world (take 4 tr) (drop 5 tr) 0
                         (Batch.overridesOf env Sample.world 0) Htr)) Hslow).
Defined.

(** X12. Whenever a submission carries fees, its maximum fee is at least its
    priority fee, provided the configured addition is not negative and the
    chain reports no negative fee. *)
Theorem max_fee_covers_priority_fee env w tr1 tr2 i ov extra m p :
  fst (Batch.main env w) = tr1 ++ Execute i ov :: tr2 ->
  Ethers.parseUnits (Batch.MAXFEE_ADD_GWEI env) Ethers.gwei = Ok extra ->
  0 <= extra ->
  (forall b f, Batch.getBlock w i = Ok (Some b) ->
               Batch.baseFeePerGas b = Some f -> 0 <= f) ->
  (forall fd f, Batch.getFeeData w i = Ok fd ->
                Batch.feeMaxFeePerGas fd = Some f \/
                Batch.feeGasPrice fd = Some f -> 0 <= f) ->
  maxFeePerGas ov = Some m -> maxPriorityFeePerGas ov = Some p ->
  p <= m.
Proof.
  intros Htr Hx Hextra Hblock Hfd.
  destruct (main_execute env w tr1 tr2 i ov Htr) as (Hi & -> & _ & _).
  unfold Batch.overridesOf, Batch.slowGas. rewrite Hx.
  destruct (Batch.SLOW_GAS env); [|discriminate].
  destruct (Batch.getBlock w i) as [block|] eqn:Hb; [|discriminate].
  destruct (Ethers.parseUnits (Batch.priorityGwei env) Ethers.gwei)
    as [priority|]; [|discriminate].
  destruct (Batch.baseFeeOf block) as [baseFee|] eqn:Hbase.
  - simpl. intros [= <-] [= <-].
    assert (0 <= baseFee); [|lia].
    destruct block as [b|]; [|discriminate]. simpl in Hbase.
    destruct (Batch.baseFeePerGas b) as [f|] eqn:Hf; [|discriminate].
    specialize (Hblock b f eq_refl Hf).
    destruct f; simpl in Hbase; simplify_eq; lia.
  - destruct (Batch.getFeeData w i) as [fd|] eqn:Hfee; [|discriminate].
    simpl. intros [= <-] [= <-].
    pose proof (fun f => Hfd fd f eq_refl) as Hnn.
    destruct (Batch.feeMaxFeePerGas fd) as [f1|] eqn:H1;
      destruct (Batch.feeGasPrice fd) as [f2|] eqn:H2; simpl.
    + specialize (Hnn f1 (or_introl eq_refl)).
      pose proof (Hfd fd f2 eq_refl (or_intror H2)).
      destruct f1, f2; simpl; lia.
    + specialize (Hnn f1 (or_introl eq_refl)). destruct f1; simpl; lia.
    + specialize (Hnn f2 (or_intror eq_refl)). destruct f2; simpl; lia.
    + lia.
Qed.

Lemma max_fee_covers_priority_fee_witness :
  let ov := Batch.overridesOf Sample.env Sample.world 0 in
  maxPriorityFeePerGas ov = Some 100000000 /\
  maxFeePerGas ov = Some 11100000000 /\
  100000000 <= 11100000000.
Proof.
  intros ov.
  set (tr := fst (Batch.main Sample.env Sample.world)).
  assert (tr = take 5 tr ++ Execute 0 ov :: drop 6 tr) as Htr
    by (vm_compute; reflexivity).
  assert (maxFeePerGas ov = Some 11100000000) as Hm by (vm_compute; reflexivity).
  assert (maxPriorityFeePerGas ov = Some 100000000) as Hp
    by (vm_compute; reflexivity).
  split; [exact Hp|]. split; [exact Hm|].
  apply (max_fee_covers_priority_fee
           Sample.env Sample.world (take 5 tr) (drop 6 tr) 0 ov
           1000000000 11100000000 100000000 Htr);
    [vm_compute; reflexivity|lia| | |exact Hm|exact Hp].
  - intros b f Hb Hf. vm_compute in Hb. injection Hb as <-.
    vm_compute in Hf. injection Hf as <-. lia.
  - intros fd f Hfd. vm_compute in Hfd. discriminate.
Defined.

(** X13. A script that reaches the loop pauses between swaps only: with
    [TOTAL_SWAPS = n] it sleeps [n - 1] times (never for [n <= 1]), each time
    for [DELAY_MS], whatever becomes of the swaps, and its last call is never
    a pause. *)
Theorem batch_pauses_between_swaps_only env w n :
  snd (Batch.main env w) = Batch.Exit 0 ->
  Batch.TOTAL_SWAPS env = Some n ->
  BatchTrace.sleeps (fst (Batch.main env w))
  = replicate (Z.to_nat n - 1) (Sleep (Batch.DELAY_MS env)) /\
  BatchTrace.endsWithSleep (fst (Batch.main env w)) = false.
Proof.
  intros Hexit Hn.
  destruct (main_exit0 env w Hexit) as (amount & _ & _ & _ & ->).
  destruct (approvalStep_sleeps w amount (Batch.TOTAL_SWAPS env)) as [Hs He].
  rewrite sleeps_app, Hs, endsWithSleep_app. rewrite Hn in *. simpl.
  destruct (Z_le_gt_dec n 0) as [Hle|Hgt].
  - replace (Z.to_nat n) with O by lia. simpl. by split.
  - split; [apply sleeps_swapLoop; lia|].
    pose proof (swapLoop_last env w amount n (Z.to_nat n) 0%nat) as Hlast.
    destruct (Batch.swapLoop _ _ _ _ _ _); [exact He|].
    apply Hlast. lia.
Qed.

Lemma batch_pauses_between_swaps_only_witness :
  BatchTrace.sleeps (fst (Batch.main Sample.env Sample.world))
  = [Sleep (Some 15000); Sleep (Some 15000)].
Proof.
  assert (snd (Batch.main Sample.env Sample.world) = Batch.Exit 0) as Hexit
    by (vm_compute; reflexivity).
  assert (Batch.TOTAL_SWAPS Sample.env = Some 3) as Hn
    by (vm_compute; reflexivity).
  exact (proj1 (batch_pauses_between_swaps_only
                  Sample.env Sample.world 3 Hexit Hn)).
Defined.

(** X14. A swap count that is not a number makes the script give up in the
    allowance step: it asks for the allowance and exits with code 1. A count
    of zero or less makes it ask for the allowance, approve nothing, submit
    nothing and exit with code 0. *)
Theorem batch_without_swaps env w owner amount :
  JS.falsy (Batch.PRIVATE_KEY env) = false ->
  Batch.newWallet w = Ok owner ->
  Ethers.parseUnits (Batch.AMOUNT env) Ethers.usdc = Ok amount ->
  (Batch.TOTAL_SWAPS env = None ->
   Batch.main env w = ([Allowance], Batch.Exit 1)) /\
  (forall n currentAllowance,
     Batch.TOTAL_SWAPS env = Some n -> n <= 0 -> 0 <= amount ->
     Batch.allowance w = Ok currentAllowance -> 0 <= currentAllowance ->
     Batch.main env w = ([Allowance], Batch.Exit 0)).
Proof.
  intros Hkey Hw Ha. unfold Batch.main. rewrite Hkey, Hw, Ha.
  split.
  - intros ->. unfold Batch.approvalStep. by destruct (Batch.allowance w).
  - intros n cur -> Hn Hamount Hal Hcur. unfold Batch.approvalStep.
    rewrite Hal.
    replace (cur <? amount * n) with false by (symmetry; apply Z.ltb_ge; nia).
    simpl. by replace (Z.to_nat n) with O by lia.
Qed.

Lemma batch_without_swaps_witness :
  Batch.main Scenario.envNoCount Sample.worldOneSwap = ([Allowance], Batch.Exit 1) /\
  Batch.main Scenario.envZero Sample.worldOneSwap = ([Allowance], Batch.Exit 0).
Proof.
  assert (forall env, env = Scenario.envNoCount \/ env = Scenario.envZero ->
            JS.falsy (Batch.PRIVATE_KEY env) = false /\
            Ethers.parseUnits (Batch.AMOUNT env) Ethers.usdc = Ok 10000)
    as Henv by (intros env [->| ->]; split; vm_compute; reflexivity).
  split.
  - destruct (Henv Scenario.envNoCount (or_introl eq_refl)) as [Hkey Ha].
    apply (proj1 (batch_without_swaps Scenario.envNoCount Sample.worldOneSwap
                    "0xowner" 10000 Hkey eq_refl Ha)).
    vm_compute; reflexivity.
  - destruct (Henv Scenario.envZero (or_intror eq_refl)) as [Hkey Ha].
    apply (proj2 (batch_without_swaps Scenario.envZero Sample.worldOneSwap
                    "0xowner" 10000 Hkey eq_refl Ha) 0 10000);
      [vm_compute; reflexivity|lia|lia|reflexivity|lia].
Defined.

(** X15. The script submits a swap only for an amount that can be encoded as a
    [uint256]. With any other amount (a negative one, say) that gets past the
    allowance step, every iteration fails before the gas estimate: nothing is
    estimated or submitted, each index is logged as failed, and the script
    still exits with code 0. *)
Theorem batch_submits_encodable_amounts_only env w :
  (forall tr1 tr2 i ov,
     fst (Batch.main env w) = tr1 ++ Execute i ov :: tr2 ->
     exists amount,
       Ethers.parseUnits (Batch.AMOUNT env) Ethers.usdc = Ok amount /\
       0 <= amount <= Ethers.MaxUint256) /\
  (forall amount,
     Ethers.parseUnits (Batch.AMOUNT env) Ethers.usdc = Ok amount ->
     Ethers.fitsUint256 amount = false ->
     snd (Batch.main env w) = Batch.Exit 0 ->
     attempts (fst (Batch.main env w)) = [] /\
     (forall i, ~ In (EstimateGas i) (fst (Batch.main env w))) /\
     (forall i, (i < Batch.iterations (Batch.TOTAL_SWAPS env))%nat ->
        In (LogFailed i (Batch.encodeError w)) (fst (Batch.main env w)))).
Proof.
  split.
  - intros tr1 tr2 i ov Htr.
    destruct (main_submits env w tr1 tr2 i ov Htr)
      as (amount & _ & Ha & Hfit & _).
    exists amount. split; [exact Ha|].
    unfold Ethers.fitsUint256 in Hfit.
    apply andb_true_iff in Hfit as [H1 H2].
    apply Z.leb_le in H1, H2. lia.
  - intros amount Ha Hfit Hexit.
    destruct (main_exit0 env w Hexit) as (amount' & _ & Ha' & _ & ->).
    rewrite Ha in Ha'. injection Ha' as <-.
    pose proof (approvalStep_quiet w amount (Batch.TOTAL_SWAPS env)) as Hq.
    split; [|split].
    + by rewrite attempts_app, Hq, attempts_swapLoop, Hfit.
    + intros i [Hin|Hin]%in_app_iff.
      * revert Hin. unfold Batch.approvalStep.
        repeat case_match; simpl; intros Hin;
          repeat (destruct Hin as [?|Hin]; [discriminate|]); by destruct Hin.
      * revert Hin. generalize 0%nat.
        induction (Batch.iterations (Batch.TOTAL_SWAPS env)) as [|r IH];
          intros i0; [intros []|].
        cbn [Batch.swapLoop]. intros [Hin|Hin]%in_app_iff; [|by eapply IH].
        revert Hin. unfold Batch.iteration, Batch.pause. rewrite Hfit.
        case_match; simpl; intros Hin;
          repeat (destruct Hin as [?|Hin]; [discriminate|]); by destruct Hin.
    + intros i Hi. apply in_app_iff. right.
      apply (swapLoop_In env w _ amount _ _ 0%nat i); [lia|].
      by apply iteration_unencodable.
Qed.

Lemma batch_submits_encodable_amounts_only_witness :
  attempts (fst (Batch.main Scenario.envNegative Sample.worldOneSwap)) = [] /\
  In (LogFailed 1 (mkError "value out-of-bounds"))
     (fst (Batch.main Scenario.envNegative Sample.worldOneSwap)).
Proof.
  assert (Ethers.parseUnits (Batch.AMOUNT Scenario.envNegative) Ethers.usdc
          = Ok (-1000000)) as Ha by (vm_compute; reflexivity).
  assert (snd (Batch.main Scenario.envNegative Sample.worldOneSwap)
          = Batch.Exit 0) as Hexit by (vm_compute; reflexivity).
  destruct (proj2 (batch_submits_encodable_amounts_only
                     Scenario.envNegative Sample.worldOneSwap)
                  (-1000000) Ha eq_refl Hexit) as (Hatt & _ & Hlog).
  split; [exact Hatt|]. apply (Hlog 1%nat). vm_compute. lia.
Defined.



(** * Detection, connection and the contract cache *)

(** X17. [waitForEthereum] is decided at the first look at which the wallet is
    there or, at a callback of the interval, more than [timeout] ms have
    passed; the wallet is looked for first, so a wallet injected by then is
    still found. With callbacks exactly every 100 ms and the default timeout
    of 3000 ms the detection resolves at the 31st callback at the latest,
    after 3100 ms: it finds the wallet exactly when the page shows it at one
    of the looks up to that one, and only then is the provider set by it. *)
Theorem detection_is_decided_at_the_first_look_that_settles_it page svc :
  (forall timeout fuel k,
     (forall j, (j < k)%nat -> Connection.ethereum page j = false) ->
     (forall j, (1 <= j < k)%nat -> Connection.elapsed page j <= timeout) ->
     Connection.ethereum page k = true \/
     (1 <= k)%nat /\ timeout < Connection.elapsed page k ->
     (k <= fuel)%nat ->
     Connection.waitForEthereum timeout page fuel svc
     = Some (Connection.tryInitProvider (Connection.ethereum page k) svc)) /\
  (forall fuel,
     (forall j, Connection.elapsed page j = 100 * Z.of_nat j) ->
     (31 <= fuel)%nat ->
     exists found svc',
       Connection.waitForEthereum 3000 page fuel svc = Some (found, svc') /\
       (found = true <->
        exists k, (k <= 31)%nat /\ Connection.ethereum page k = true) /\
       Connection.provider svc' = found || Connection.provider svc /\
       Connection.signer svc' = Connection.signer svc /\
       Connection.contractCache svc' = Connection.contractCache svc).
Proof.
  split; [intros; by apply waitForEthereum_first|].
  intros fuel Hticks Hfuel.
  destruct (firstShown_spec page 32 0) as (Hr & Hb & Ht).
  set (f := Connection.firstShown page 32 0) in *.
  destruct (Connection.tryInitProvider (Connection.ethereum page (f `min` 31)) svc)
    as [found svc'] eqn:Htry.
  pose proof (tryInitProvider_fields (Connection.ethereum page (f `min` 31)) svc)
    as (Hfound & Hp & Hs & Hc).
  rewrite Htry in *. simpl in *.
  exists found, svc'. split; [|split; [|rewrite Hfound; by repeat split]].
  - rewrite <- Htry. apply waitForEthereum_first; [| | |lia].
    + intros j Hj. apply Hb. lia.
    + intros j Hj. rewrite Hticks. lia.
    + destruct (decide (f < 32)%nat) as [Hlt|Hge].
      * left. replace (f `min` 31)%nat with f by lia. apply Ht. lia.
      * right. replace (f `min` 31)%nat with 31%nat by lia.
        rewrite Hticks. lia.
  - rewrite Hfound. split.
    + intros Hk. exists (f `min` 31)%nat. split; [lia|exact Hk].
    + intros (k & Hk & Hshown).
      destruct (decide (f < 32)%nat) as [Hlt|Hge].
      * replace (f `min` 31)%nat with f by lia. apply Ht. lia.
      * rewrite (Hb k) in Hshown by lia. discriminate.
Qed.





(** X20. [getOrCreateContract] fails only when neither a third argument nor a
    provider is there and nothing is cached under the key, and then it changes
    nothing. Otherwise the contract it returns is the one found under the key
    afterwards; an entry that was there before the call is still there,
    unchanged; and a hit returns the cached contract whatever ABI and runner
    the call asks for. The provider and the signer are never touched. *)
Theorem contract_cache_keeps_the_first_contract address abi r svc :
  let '(res, svc') := Connection.getOrCreateContract address abi r svc in
  let key := Connection.cacheKey address r in
  (forall e, res = Err e <->
     e = mkError "No provider available" /\ r = None /\
     Connection.provider svc = false /\
     Connection.contractCache svc !! key = None) /\
  (forall e, res = Err e -> svc' = svc) /\
  (forall c, res = Ok c -> Connection.contractCache svc' !! key = Some c) /\
  (forall k c, Connection.contractCache svc !! k = Some c ->
               Connection.contractCache svc' !! k = Some c) /\
  (forall c, Connection.contractCache svc !! key = Some c ->
             res = Ok c /\ svc' = svc) /\
  (Connection.contractCache svc !! key = None -> forall c, res = Ok c ->
     c = Connection.mkContract address abi
           (default Connection.ByProvider r)) /\
  Connection.provider svc' = Connection.provider svc /\
  Connection.signer svc' = Connection.signer svc.
Proof.
  unfold Connection.getOrCreateContract.
  destruct (Connection.contractCache svc !! Connection.cacheKey address r)
    as [c0|] eqn:Hlook.
  - simpl. split_and!; try done.
    + intros e. split; [done|]. by intros (_ & _ & _ & ?).
    + by intros c1 [= <-].
    + by intros c1 [= <-].
  - assert (forall c1 k c2,
              Connection.contractCache svc !! k = Some c2 ->
              <[Connection.cacheKey address r := c1]>
                (Connection.contractCache svc) !! k = Some c2) as Hkeep.
    { intros c1 k c2 Hk. rewrite lookup_insert_ne; [exact Hk|]. congruence. }
    destruct r as [r|]; [|destruct (Connection.provider svc) eqn:Hp]; simpl.
    + split_and!; try done.
      * intros e. split; [done|]. by intros (_ & ? & _).
      * intros c1 [= <-]. by rewrite lookup_insert_eq.
      * intros k c2. apply Hkeep.
      * by intros _ c1 [= <-].
    + split_and!; try done.
      * intros e. split; [done|]. by intros (_ & _ & ? & _).
      * intros c1 [= <-]. by rewrite lookup_insert_eq.
      * intros k c2. apply Hkeep.
      * by intros _ c1 [= <-].
    + split_and!; try done.
      intros e. split; [by intros [= <-]|by intros (-> & _)].
Qed.

(** X21. The cache key does not tell a provider from a signer. [getBalances]
    passes its provider as third argument, so the USDC contract it creates is
    filed under the key ending in "-signer", and the [approveUSDC] that
    follows is handed that contract, bound to the provider and not to the
    signer. Only after [cleanup] does [approveUSDC] create and get a contract
    bound to the signer. *)
Theorem approval_reuses_the_balance_contract svc account :
  Connection.signer svc = Some account ->
  Connection.contractCache svc !! Service.usdcKey = None ->
  Connection.contractCache svc !! Service.routerKey = None ->
  let svc1 := snd (Connection.getBalancesContract svc) in
  Connection.cacheKey Connection.USDC_ADDRESS (Some Connection.ByProvider)
  = Service.usdcKey /\
  Connection.approveUSDCContract svc1
  = (Ok (Connection.mkContract Connection.USDC_ADDRESS Connection.ERC20_ABI
                               Connection.ByProvider), svc1) /\
  fst (Connection.approveUSDCContract (Connection.cleanup svc1))
  = Ok (Connection.mkContract Connection.USDC_ADDRESS Connection.ERC20_ABI
                              (Connection.BySigner account)) /\
  fst (Connection.swapRouter svc1)
  = Ok (Connection.mkContract Connection.UNISWAP_ROUTER_ADDRESS
                              Connection.ROUTER_ABI
                              (Connection.BySigner account)).
Proof.
  intros Hs Hu Hr. split; [reflexivity|].
  unfold Connection.getBalancesContract, Connection.approveUSDCContract,
    Connection.swapRouter, Connection.getOrCreateContract.
  change (Connection.cacheKey Connection.USDC_ADDRESS (Some Connection.ByProvider))
    with Service.usdcKey.
  rewrite Hu. simpl. rewrite Hs.
  change (Connection.cacheKey Connection.USDC_ADDRESS
            (Some (Connection.BySigner account))) with Service.usdcKey.
  change (Connection.cacheKey Connection.UNISWAP_ROUTER_ADDRESS
            (Some (Connection.BySigner account))) with Service.routerKey.
  rewrite lookup_insert_eq. split; [reflexivity|].
  rewrite lookup_empty. split; [reflexivity|].
  rewrite lookup_insert_ne; [by rewrite Hr|].
  vm_compute. discriminate.
Qed.

Lemma approval_reuses_the_balance_contract_witness :
  let svc1 := snd (Connection.getBalancesContract Scenario.connected) in
  Connection.runner <$> Connection.contractCache svc1 !! Service.usdcKey
  = Some Connection.ByProvider /\
  fst (Connection.approveUSDCContract svc1)
  = Ok (Connection.mkContract Connection.USDC_ADDRESS Connection.ERC20_ABI
                              Connection.ByProvider).
Proof.
  intros svc1.
  assert (Connection.signer Scenario.connected = Some "0xowner") as Hs
    by reflexivity.
  assert (Connection.contractCache Scenario.connected !! Service.usdcKey = None)
    as Hu by (vm_compute; reflexivity).
  assert (Connection.contractCache Scenario.connected !! Service.routerKey = None)
    as Hr by (vm_compute; reflexivity).
  destruct (approval_reuses_the_balance_contract
              Scenario.connected "0xowner" Hs Hu Hr) as (_ & Happ & _).
  split; [vm_compute; reflexivity|].
  exact (f_equal fst Happ).
Defined.

(** * Connecting the wallet *)

Section WalletFacts.
Import Connection.

(** What a [connect] that succeeded has done. *)
Lemma connect_succeeded page fuel w svc reqs account svc' :
  connect page fuel w svc = Some (reqs, Ok account, svc') ->
  provider svc' = true /\ contractCache svc' = contractCache svc /\
  exists accounts signerAccount,
    requestAccounts w = Fulfilled accounts /\ account = head accounts /\
    getSigner w = Fulfilled signerAccount /\
    signer svc' = Some signerAccount.
Proof.
  unfold connect.
  destruct (waitForEthereum 3000 page fuel svc) as [[found svc0]|] eqn:Hwait;
    [|discriminate].
  destruct (waitForEthereum_found _ _ _ _ _ _ Hwait) as (Hs & Hc & Hp & Hn).
  unfold connectFrom.
  destruct found; simpl; [|discriminate].
  rewrite (Hp eq_refl). simpl.
  destruct (requestAccounts w) as [accounts|err1]; [|discriminate].
  destruct (getSigner w) as [signerAccount|err2]; [|discriminate].
  destruct (switchChain w) as [[]|err3].
  - intros [= <- <- <-]. simpl.
    split; [by apply Hp|]. split; [exact Hc|]. by eauto 6.
  - destruct (hasCode 4902 err3); [|discriminate].
    destruct (addChain w) as [[]|err4]; [|discriminate].
    intros [= <- <- <-]. simpl.
    split; [by apply Hp|]. split; [exact Hc|]. by eauto 6.
Qed.

Lemma connect_failed page fuel w svc reqs e svc' :
  connect page fuel w svc = Some (reqs, Err e, svc') ->
  contractCache svc' = contractCache svc.
Proof.
  unfold connect.
  destruct (waitForEthereum 3000 page fuel svc) as [[found svc0]|] eqn:Hwait;
    [|discriminate].
  destruct (waitForEthereum_found _ _ _ _ _ _ Hwait) as (Hs & Hc & Hp & Hn).
  unfold connectFrom.
  repeat case_match; intros [= <- <- <-]; simpl; exact Hc.
Qed.
End WalletFacts.



(** * The log as it is shown *)

Section DisplayFacts.
Import Display.

Lemma run_snoc d ops op : run d (ops ++ [op]) = apply (run d ops) op.
Proof. unfold run. by rewrite foldl_app. Qed.

Lemma allLogs_without_clears ops : forall d,
  allLogs (run d ops) = allLogs (run d (List.filter (fun op => negb (isClear op)) ops)).
Proof.
  induction ops as [|op ops IH]; intros d; [reflexivity|].
  destruct op; simpl.
  - apply IH.
  - rewrite (IH (clearHistory d)).
    change (run (clearHistory d)) with (run (mkDisplay (allLogs d) [])).
    clear IH. generalize (List.filter (fun op => negb (isClear op)) ops) as l.
    intros l. revert d.
    assert (forall l d d', allLogs d = allLogs d' ->
              allLogs (run d l) = allLogs (run d' l)) as Hsame.
    { clear. induction l as [|op l IH]; intros d d' Heq; [exact Heq|].
      simpl. apply IH. destruct op; simpl; by rewrite ?Heq. }
    intros d. by apply Hsame.
  - apply IH.
Qed.
End DisplayFacts.

(** X22. The page never shows more than six lines, and what it shows is either
    nothing or the six newest of the lines logged since the last start. "Clear
    History" hides them only until the next line is logged: that line comes
    with the five newest lines from before, as if the history had never been
    cleared. *)
Theorem cleared_lines_come_back ops newLog :
  let d := Display.run Display.initial ops in
  (length (Display.logs d) <= 6)%nat /\
  (Display.logs d = [] \/ Display.logs d = take 6 (Display.allLogs d)) /\
  Display.logs (Display.addLog newLog (Display.clearHistory d))
  = newLog :: take 5 (Display.allLogs d) /\
  Display.logs (Display.run Display.initial (ops ++ [Display.Add newLog]))
  = take 6 (newLog :: Display.allLogs
               (Display.run Display.initial
                  (List.filter (fun op => negb (Display.isClear op)) ops))).
Proof.
  simpl. split; [|split; [|split]].
  - induction ops as [|op ops IH] using rev_ind; [simpl; lia|].
    rewrite run_snoc. destruct op; [|simpl; lia..].
    unfold Display.apply, Display.addLog, Display.logs.
    rewrite length_take. lia.
  - induction ops as [|op ops IH] using rev_ind; [by left|].
    rewrite run_snoc. destruct op; simpl; [by right|by left..].
  - reflexivity.
  - rewrite run_snoc. simpl. f_equal. f_equal. apply allLogs_without_clears.
Qed.
